(** * Workflow graphs, routing and job lifecycle of the ComfyUI dispatch scripts

    A shallow embedding of [scripts/generate_api.py] and
    [scripts/comfyui_server.py]: the workflow builders as functions into
    finite maps, the poller as a clocked loop over worker replies, the
    prober as a stable sort of per-worker statuses read from decoded
    JSON, and the two generation stages as traces of network calls over a
    local store of files and directories. *)

From Stdlib Require Import ZArith QArith Ascii String List Permutation Sorted Lia.
From stdpp Require Import base option list gmap strings fin_maps relations.

Local Open Scope string_scope.
Local Open Scope Z_scope.

(** ** Exceptions

    Python code either returns or raises.  [outcome A] is the result of a
    call: [Ok a] or [Raise e], [e] naming the exception class.
    [InvalidParameters] is the name the dispatcher contract gives to a
    rejected parameter record.

    A body that [json.loads] has decoded is a [json] value; the members
    of an object are kept in the order of the text. *)

#[warnings="-register-all"] Inductive json : Type :=
| JNull
| JBool (b : bool)
| JInt (n : Z)
| JFloat (q : Q)
| JString (s : string)
| JArray (items : list json)
| JObject (members : list (string * json)).

(** [GenerationFailed msgs] is the [RuntimeError] that the poller raises
    with the text [f"Generation failed: {msgs}"]: the text ends in
    Python's display of the decoded value [msgs], which is kept here as
    the value itself.  [UnicodeDecodeError] is what [json.loads] raises
    for a body that is not text; [AttributeError] and [TypeError] are
    raised by [.get] and [len] on a value of the wrong kind, and
    [ValueError] by a pool of no workers. *)
Inductive exn : Type :=
| KeyError (key : string)
| IndexError
| RuntimeError (msg : string)
| GenerationFailed (msgs : json)
| TimeoutError
| URLError
| OSError
| JSONDecodeError
| UnicodeDecodeError
| AttributeError
| TypeError
| ValueError
| InvalidParameters.

Inductive outcome (A : Type) : Type :=
| Ok (a : A)
| Raise (e : exn).
Arguments Ok {A} a.
Arguments Raise {A} e.

#[export] Instance outcome_ret : MRet outcome := fun A a => Ok a.
#[export] Instance outcome_bind : MBind outcome := fun A B k c =>
  match c with
  | Ok a => k a
  | Raise e => Raise e
  end.

(** [d[key]]: the subscript of a dict raises [KeyError] on a missing key. *)
Definition subscript {V : Type} (d : gmap string V) (key : string) : outcome V :=
  match d !! key with
  | Some v => Ok v
  | None => Raise (KeyError key)
  end.

(** ** Workflow graph data model *)

Module Graph.

(** A value of a node's ["inputs"] dictionary: a JSON literal, or the
    two-element list [[producer_id, slot]]. *)
Inductive value : Type :=
| VStr (s : string)
| VInt (z : Z)
| VFloat (q : Q)
| VBool (b : bool)
| VBind (producer : string) (slot : Z).

Record node : Type := Node {
  class_type : string;
  inputs : gmap string value;
}.

Abbreviation graph := (gmap string node).

(** A Python dict display [{k1: v1, k2: v2, ...}]: entries are stored left
    to right, a later entry with the same key replaces the earlier one. *)
Definition dict {V : Type} (entries : list (string * V)) : gmap string V :=
  foldl (fun m kv => <[kv.1 := kv.2]> m) ∅ entries.

(** The producers a node refers to. *)
Definition producers (n : node) : list string :=
  omap (fun kv => match kv.2 with VBind p _ => Some p | _ => None end)
       (map_to_list (inputs n)).

(** [edge g a b]: node [a] of [g] has an input bound to an output of [b]. *)
Definition edge (g : graph) (a b : string) : Prop :=
  ∃ n, g !! a = Some n ∧ b ∈ producers n.

Definition acyclic (g : graph) : Prop := ∀ a, ¬ tc (edge g) a a.

Definition no_dangling (g : graph) : Prop :=
  ∀ a b, edge g a b → is_Some (g !! b).

(** A literal is always well bound; a binding is well bound when its
    producer is a node of the graph. *)
Definition well_bound (g : graph) (v : value) : Prop :=
  match v with
  | VBind p _ => is_Some (g !! p)
  | _ => True
  end.

Definition reachable (g : graph) (terminal a : string) : Prop :=
  rtc (edge g) terminal a.

(** Every node reachable from [terminal] carries each parameter that
    [required] lists for its class, bound to a literal or to a node of
    the graph. *)
Definition terminal_bound (required : string → list string)
    (g : graph) (terminal : string) : Prop :=
  ∀ a n, reachable g terminal a → g !! a = Some n →
    ∀ p, p ∈ required (class_type n) →
      ∃ v, inputs n !! p = Some v ∧ well_bound g v.

End Graph.

Import Graph.

(** ** Workflow builders ([generate_api.py]) *)

Definition NEUMANN_MODELS : gmap string string := dict [
  ("flux_dev_unet", "flux1-dev-fp8-e4m3fn.safetensors");
  ("flux_schnell_unet", "flux1-schnell-fp8-e4m3fn.safetensors");
  ("t5xxl", "t5xxl_fp8_e4m3fn.safetensors")
].

Definition WRIGHT_MODELS : gmap string string := dict [
  ("flux_dev_unet", "flux1-dev-fp8.safetensors");
  ("flux_schnell_unet", "flux1-schnell-fp8.safetensors");
  ("t5xxl", "t5xxl_fp8_e4m3fn_scaled.safetensors")
].

Definition workflow_flux_dev (prompt : string) (width height seed : Z)
    : outcome graph :=
  let models := NEUMANN_MODELS in
  unet ← subscript models "flux_dev_unet";
  t5xxl ← subscript models "t5xxl";
  Ok (dict [
    ("1", Node "UNETLoader" (dict [
        ("unet_name", VStr unet);
        ("weight_dtype", VStr "fp8_e4m3fn")]));
    ("2", Node "DualCLIPLoader" (dict [
        ("clip_name1", VStr "clip_l.safetensors");
        ("clip_name2", VStr t5xxl);
        ("type", VStr "flux")]));
    ("3", Node "CLIPTextEncode" (dict [
        ("text", VStr prompt); ("clip", VBind "2" 0)]));
    ("4", Node "CLIPTextEncode" (dict [
        ("text", VStr ""); ("clip", VBind "2" 0)]));
    ("5", Node "FluxGuidance" (dict [
        ("guidance", VFloat 3.5); ("conditioning", VBind "3" 0)]));
    ("6", Node "EmptySD3LatentImage" (dict [
        ("width", VInt width); ("height", VInt height);
        ("batch_size", VInt 1)]));
    ("7", Node "KSampler" (dict [
        ("seed", VInt seed); ("steps", VInt 20); ("cfg", VFloat 1.0);
        ("sampler_name", VStr "euler"); ("scheduler", VStr "simple");
        ("denoise", VFloat 1.0);
        ("model", VBind "1" 0); ("positive", VBind "5" 0);
        ("negative", VBind "4" 0); ("latent_image", VBind "6" 0)]));
    ("8", Node "VAELoader" (dict [
        ("vae_name", VStr "ae.safetensors")]));
    ("9", Node "VAEDecode" (dict [
        ("samples", VBind "7" 0); ("vae", VBind "8" 0)]));
    ("10", Node "SaveImage" (dict [
        ("filename_prefix", VStr "gentest"); ("images", VBind "9" 0)]))
  ]).

Definition workflow_flux_schnell (prompt : string) (width height seed : Z)
    : outcome graph :=
  let models := NEUMANN_MODELS in
  unet ← subscript models "flux_schnell_unet";
  t5xxl ← subscript models "t5xxl";
  Ok (dict [
    ("1", Node "UNETLoader" (dict [
        ("unet_name", VStr unet);
        ("weight_dtype", VStr "fp8_e4m3fn")]));
    ("2", Node "DualCLIPLoader" (dict [
        ("clip_name1", VStr "clip_l.safetensors");
        ("clip_name2", VStr t5xxl);
        ("type", VStr "flux")]));
    ("3", Node "CLIPTextEncode" (dict [
        ("text", VStr prompt); ("clip", VBind "2" 0)]));
    ("4", Node "CLIPTextEncode" (dict [
        ("text", VStr ""); ("clip", VBind "2" 0)]));
    ("5", Node "EmptySD3LatentImage" (dict [
        ("width", VInt width); ("height", VInt height);
        ("batch_size", VInt 1)]));
    ("6", Node "KSampler" (dict [
        ("seed", VInt seed); ("steps", VInt 4); ("cfg", VFloat 1.0);
        ("sampler_name", VStr "euler"); ("scheduler", VStr "simple");
        ("denoise", VFloat 1.0);
        ("model", VBind "1" 0); ("positive", VBind "3" 0);
        ("negative", VBind "4" 0); ("latent_image", VBind "5" 0)]));
    ("7", Node "VAELoader" (dict [
        ("vae_name", VStr "ae.safetensors")]));
    ("8", Node "VAEDecode" (dict [
        ("samples", VBind "6" 0); ("vae", VBind "7" 0)]));
    ("9", Node "SaveImage" (dict [
        ("filename_prefix", VStr "gentest"); ("images", VBind "8" 0)]))
  ]).

Definition workflow_sd35 (prompt neg_prompt : string) (width height seed : Z)
    : outcome graph :=
  Ok (dict [
    ("1", Node "CheckpointLoaderSimple" (dict [
        ("ckpt_name", VStr "sd3.5_large_fp8_scaled.safetensors")]));
    ("2", Node "CLIPTextEncode" (dict [
        ("text", VStr prompt); ("clip", VBind "1" 1)]));
    ("3", Node "CLIPTextEncode" (dict [
        ("text", VStr neg_prompt); ("clip", VBind "1" 1)]));
    ("4", Node "EmptySD3LatentImage" (dict [
        ("width", VInt width); ("height", VInt height);
        ("batch_size", VInt 1)]));
    ("5", Node "KSampler" (dict [
        ("seed", VInt seed); ("steps", VInt 28); ("cfg", VFloat 4.5);
        ("sampler_name", VStr "euler"); ("scheduler", VStr "normal");
        ("denoise", VFloat 1.0);
        ("model", VBind "1" 0); ("positive", VBind "2" 0);
        ("negative", VBind "3" 0); ("latent_image", VBind "4" 0)]));
    ("6", Node "VAEDecode" (dict [
        ("samples", VBind "5" 0); ("vae", VBind "1" 2)]));
    ("7", Node "SaveImage" (dict [
        ("filename_prefix", VStr "gentest"); ("images", VBind "6" 0)]))
  ]).

Definition workflow_z_turbo (prompt : string) (width height seed : Z)
    : outcome graph :=
  Ok (dict [
    ("1", Node "UNETLoader" (dict [
        ("unet_name", VStr "z_image_turbo_bf16.safetensors");
        ("weight_dtype", VStr "default")]));
    ("2", Node "CLIPLoader" (dict [
        ("clip_name", VStr "qwen_3_4b.safetensors");
        ("type", VStr "lumina2")]));
    ("3", Node "CLIPTextEncode" (dict [
        ("text", VStr prompt); ("clip", VBind "2" 0)]));
    ("4", Node "CLIPTextEncode" (dict [
        ("text", VStr ""); ("clip", VBind "2" 0)]));
    ("5", Node "ModelSamplingAuraFlow" (dict [
        ("shift", VFloat 3.0); ("model", VBind "1" 0)]));
    ("6", Node "EmptySD3LatentImage" (dict [
        ("width", VInt width); ("height", VInt height);
        ("batch_size", VInt 1)]));
    ("7", Node "KSampler" (dict [
        ("seed", VInt seed); ("steps", VInt 8); ("cfg", VFloat 1.0);
        ("sampler_name", VStr "res_multistep"); ("scheduler", VStr "simple");
        ("denoise", VFloat 1.0);
        ("model", VBind "5" 0); ("positive", VBind "3" 0);
        ("negative", VBind "4" 0); ("latent_image", VBind "6" 0)]));
    ("8", Node "VAELoader" (dict [
        ("vae_name", VStr "ae.safetensors")]));
    ("9", Node "VAEDecode" (dict [
        ("samples", VBind "7" 0); ("vae", VBind "8" 0)]));
    ("10", Node "SaveImage" (dict [
        ("filename_prefix", VStr "gentest"); ("images", VBind "9" 0)]))
  ]).

(** The fixed negative prompt of the video workflow. *)
Definition WAN_NEG_PROMPT : string :=
  "色调艳丽，过曝，静态，细节模糊不清，字幕，风格，作品，画作，画面，静止，整体发灰，" ++
  "最差质量，低质量，JPEG压缩残留，丑陋的，残缺的，多余的手指，画得不好的手部，" ++
  "画得不好的脸部，畸形的，毁容的，形态畸形的肢体，手指融合，静止不动的画面，" ++
  "杂乱的背景，三条腿，背景人很多，倒着走".

(** [steps] and [length] default to 20 and 49 at the call site. *)
Definition workflow_wan_i2v (motion_prompt image_filename : string)
    (seed steps length : Z) : outcome graph :=
  let half_steps := steps / 2 in
  let neg_prompt := WAN_NEG_PROMPT in
  Ok (dict [
    ("1", Node "UNETLoader" (dict [
        ("unet_name", VStr "wan2.2_i2v_high_noise_14B_fp16.safetensors");
        ("weight_dtype", VStr "default")]));
    ("2", Node "UNETLoader" (dict [
        ("unet_name", VStr "wan2.2_i2v_low_noise_14B_fp16.safetensors");
        ("weight_dtype", VStr "default")]));
    ("3", Node "ModelSamplingSD3" (dict [
        ("model", VBind "1" 0); ("shift", VFloat 8.0)]));
    ("4", Node "ModelSamplingSD3" (dict [
        ("model", VBind "2" 0); ("shift", VFloat 8.0)]));
    ("5", Node "CLIPLoader" (dict [
        ("clip_name", VStr "umt5_xxl_fp8_e4m3fn_scaled.safetensors");
        ("type", VStr "wan")]));
    ("6", Node "VAELoader" (dict [
        ("vae_name", VStr "wan_2.1_vae.safetensors")]));
    ("7", Node "CLIPTextEncode" (dict [
        ("text", VStr motion_prompt); ("clip", VBind "5" 0)]));
    ("8", Node "CLIPTextEncode" (dict [
        ("text", VStr neg_prompt); ("clip", VBind "5" 0)]));
    ("9", Node "LoadImage" (dict [("image", VStr image_filename)]));
    ("10", Node "WanImageToVideo" (dict [
        ("positive", VBind "7" 0); ("negative", VBind "8" 0);
        ("vae", VBind "6" 0);
        ("width", VInt 832); ("height", VInt 480); ("length", VInt length);
        ("batch_size", VInt 1);
        ("start_image", VBind "9" 0)]));
    ("11", Node "KSamplerAdvanced" (dict [
        ("model", VBind "3" 0);
        ("positive", VBind "10" 0); ("negative", VBind "10" 1);
        ("latent_image", VBind "10" 2);
        ("noise_seed", VInt seed); ("steps", VInt steps); ("cfg", VFloat 3.5);
        ("sampler_name", VStr "euler"); ("scheduler", VStr "simple");
        ("add_noise", VStr "enable"); ("start_at_step", VInt 0);
        ("end_at_step", VInt half_steps);
        ("return_with_leftover_noise", VStr "enable")]));
    ("12", Node "KSamplerAdvanced" (dict [
        ("model", VBind "4" 0);
        ("positive", VBind "10" 0); ("negative", VBind "10" 1);
        ("latent_image", VBind "11" 0);
        ("noise_seed", VInt seed); ("steps", VInt steps); ("cfg", VFloat 3.5);
        ("sampler_name", VStr "euler"); ("scheduler", VStr "simple");
        ("add_noise", VStr "disable"); ("start_at_step", VInt half_steps);
        ("end_at_step", VInt 10000);
        ("return_with_leftover_noise", VStr "disable")]));
    ("13", Node "VAEDecode" (dict [
        ("samples", VBind "12" 0); ("vae", VBind "6" 0)]));
    ("14", Node "SaveAnimatedWEBP" (dict [
        ("filename_prefix", VStr "gentest_vid");
        ("images", VBind "13" 0);
        ("fps", VFloat 16.0);
        ("lossless", VBool true);
        ("quality", VInt 100);
        ("method", VStr "default")]))
  ]).

(** The image builders behind one signature, as the [BUILDERS] table has
    them: [(p, n, w, h, s)]. *)
Definition BUILDERS
    : gmap string (string → string → Z → Z → Z → outcome graph) := dict [
  ("flux_dev", fun p n w h s => workflow_flux_dev p w h s);
  ("flux_schnell", fun p n w h s => workflow_flux_schnell p w h s);
  ("sd35", fun p n w h s => workflow_sd35 p n w h s);
  ("z_turbo", fun p n w h s => workflow_z_turbo p w h s)
].

(** A call of one of the five builders with its parameter record. *)
Inductive builder_call : Type :=
| FluxDev (prompt : string) (width height seed : Z)
| FluxSchnell (prompt : string) (width height seed : Z)
| Sd35 (prompt neg_prompt : string) (width height seed : Z)
| ZTurbo (prompt : string) (width height seed : Z)
| WanI2V (motion_prompt image_filename : string) (seed steps length : Z).

Definition build (c : builder_call) : outcome graph :=
  match c with
  | FluxDev p w h s => workflow_flux_dev p w h s
  | FluxSchnell p w h s => workflow_flux_schnell p w h s
  | Sd35 p n w h s => workflow_sd35 p n w h s
  | ZTurbo p w h s => workflow_z_turbo p w h s
  | WanI2V m i s st l => workflow_wan_i2v m i s st l
  end.

(** The save node of each topology. *)
Definition terminal (c : builder_call) : string :=
  match c with
  | FluxDev _ _ _ _ => "10"
  | FluxSchnell _ _ _ _ => "9"
  | Sd35 _ _ _ _ _ => "7"
  | ZTurbo _ _ _ _ => "10"
  | WanI2V _ _ _ _ _ => "14"
  end.

(** The parameter [p] of node [id]. *)
Definition param (g : graph) (id p : string) : option value :=
  n ← g !! id; inputs n !! p.

(** The parameter names the builders write for each node class. *)
Definition class_params (class : string) : list string :=
  if decide (class = "UNETLoader") then ["unet_name"; "weight_dtype"]
  else if decide (class = "DualCLIPLoader") then ["clip_name1"; "clip_name2"; "type"]
  else if decide (class = "CLIPTextEncode") then ["text"; "clip"]
  else if decide (class = "FluxGuidance") then ["guidance"; "conditioning"]
  else if decide (class = "EmptySD3LatentImage") then ["width"; "height"; "batch_size"]
  else if decide (class = "KSampler") then
    ["seed"; "steps"; "cfg"; "sampler_name"; "scheduler"; "denoise";
     "model"; "positive"; "negative"; "latent_image"]
  else if decide (class = "VAELoader") then ["vae_name"]
  else if decide (class = "VAEDecode") then ["samples"; "vae"]
  else if decide (class = "SaveImage") then ["filename_prefix"; "images"]
  else if decide (class = "CheckpointLoaderSimple") then ["ckpt_name"]
  else if decide (class = "CLIPLoader") then ["clip_name"; "type"]
  else if decide (class = "ModelSamplingAuraFlow") then ["shift"; "model"]
  else if decide (class = "ModelSamplingSD3") then ["model"; "shift"]
  else if decide (class = "LoadImage") then ["image"]
  else if decide (class = "WanImageToVideo") then
    ["positive"; "negative"; "vae"; "width"; "height"; "length";
     "batch_size"; "start_image"]
  else if decide (class = "KSamplerAdvanced") then
    ["model"; "positive"; "negative"; "latent_image"; "noise_seed"; "steps";
     "cfg"; "sampler_name"; "scheduler"; "add_noise"; "start_at_step";
     "end_at_step"; "return_with_leftover_noise"]
  else if decide (class = "SaveAnimatedWEBP") then
    ["filename_prefix"; "images"; "fps"; "lossless"; "quality"; "method"]
  else [].

(** *** A checker for the structural invariants

    Node ids are decimal numerals; every builder binds an input only to a
    node with a smaller number, which is what rules cycles out. *)

Fixpoint digits_val (acc : nat) (s : string) : nat :=
  match s with
  | EmptyString => acc
  | String c s' => digits_val (10 * acc + (nat_of_ascii c - 48)) s'
  end.

Definition id_num (id : string) : nat := digits_val 0 id.

Definition has_node (g : graph) (id : string) : bool :=
  match g !! id with Some _ => true | None => false end.

Definition bound_in (g : graph) (n : node) (p : string) : bool :=
  match inputs n !! p with
  | Some (VBind b _) => has_node g b
  | Some _ => true
  | None => false
  end.

Definition node_ok (g : graph) (a : string) (n : node) : bool :=
  forallb (fun b => (id_num b <? id_num a)%nat && has_node g b) (producers n)
  && forallb (bound_in g n) (class_params (class_type n)).

Definition graph_ok (g : graph) : bool :=
  forallb (fun an => node_ok g an.1 an.2) (map_to_list g).

(** A parameter record with a non-positive width or height. *)
Definition out_of_range (c : builder_call) : Prop :=
  match c with
  | FluxDev _ w h _ | FluxSchnell _ w h _ | Sd35 _ _ w h _ | ZTurbo _ w h _ =>
      w ≤ 0 ∨ h ≤ 0
  | WanI2V _ _ _ _ _ => False
  end.

(** A builder that validates rejects every record out of range. *)
Definition rejects_out_of_range : Prop :=
  ∀ c, out_of_range c → build c = Raise InvalidParameters.


(** *** Reachability from the save node *)

(** The nodes the nodes of [frontier] are bound to. *)
Definition bound_from (g : graph) (frontier : list string) : list string :=
  a ← frontier;
  match g !! a with
  | Some n => producers n
  | None => []
  end.

(** The nodes found from [frontier] along at most [fuel] bindings. *)
Fixpoint reach (g : graph) (fuel : nat) (frontier : list string) : list string :=
  match fuel with
  | O => frontier
  | S fuel' => (frontier ++ reach g fuel' (bound_from g frontier))%list
  end.

(** Every node of [g] is found from [t] along at most [fuel] bindings. *)
Definition all_found (g : graph) (fuel : nat) (t : string) : bool :=
  forallb (fun a => bool_decide (a ∈ reach g fuel [t])) (map_to_list g).*1.

(** ** Completion poller ([poll_completion]) *)

Module Poller.

Definition POLL_INTERVAL : Z := 3.
Definition IMG_TIMEOUT : Z := 300.
Definition VID_TIMEOUT : Z := 2400.

(** One file of a node's output: [item["filename"]],
    [item.get("subfolder", "")] and [item["type"]]. *)
Record output_item : Type := OutputItem {
  filename : string;
  subfolder : option string;
  type : string;
}.

(** The output of one node: the lists under ["images"], ["videos"] and
    ["gifs"], each of which may be absent. *)
Record node_output : Type := NodeOutput {
  images : option (list output_item);
  videos : option (list output_item);
  gifs : option (list output_item);
}.

Record status_info : Type := StatusInfo {
  completed : option bool;
  status_str : option string;
  messages : option json;
}.

(** A history entry.  The outputs keep the order in which the worker lists
    the nodes, which is the order [.items()] walks them in. *)
Record history_entry : Type := HistoryEntry {
  status : option status_info;
  outputs : option (list (string * node_output));
}.

(** The body of [/history/{prompt_id}] once decoded: entries by prompt id. *)
Abbreviation history := (gmap string history_entry).

(** The classes named by [except (URLError, OSError, JSONDecodeError)];
    a socket timeout is an [OSError]. *)
Definition transient (e : exn) : bool :=
  match e with
  | URLError | OSError | TimeoutError | JSONDecodeError => true
  | _ => false
  end.

(** What one pass through the loop body decides. *)
Inductive verdict : Type :=
| Return (entry : history_entry)
| Throw (e : exn)
| Sleep.

(** The body of the [try]: [fetched] is what the request and
    [json.loads] gave, a decoded body or an exception. *)
Definition poll_once (prompt_id : string) (fetched : outcome history) : verdict :=
  match fetched with
  | Raise e => if transient e then Sleep else Throw e
  | Ok data =>
      match data !! prompt_id with
      | Some entry =>
          let status := default (StatusInfo None None None) (status entry) in
          if default false (completed status) then Return entry
          else if decide (status_str status = Some "error") then
            let msgs := default (JArray []) (messages status) in
            Throw (GenerationFailed msgs)
          else Sleep
      | None => Sleep
      end
  end.

(** A worker seen from the poller: what the [k]-th request for the handle
    yields and how many clock ticks (seconds) the request takes. *)
Definition worker : Type := nat → outcome history * nat.

(** The [while] loop.  [elapsed] is [time.time() - start] at the loop test
    and [k] counts the requests made so far; the result is the outcome
    with the number of requests.  [None] means the fuel ran out. *)
Fixpoint poll_loop (fuel : nat) (w : worker) (prompt_id : string)
    (timeout : Z) (k : nat) (elapsed : Z) : option (outcome history_entry * nat) :=
  match fuel with
  | O => None
  | S fuel' =>
      if elapsed <? timeout then
        let '(fetched, latency) := w k in
        match poll_once prompt_id fetched with
        | Return entry => Some (Ok entry, S k)
        | Throw e => Some (Raise e, S k)
        | Sleep =>
            poll_loop fuel' w prompt_id timeout (S k)
                      (elapsed + Z.of_nat latency + POLL_INTERVAL)
        end
      else Some (Raise TimeoutError, k)
  end.

(** Every pass adds at least [POLL_INTERVAL] to [elapsed], so
    [timeout + 1] passes always suffice. *)
Definition poll_completion (w : worker) (prompt_id : string) (timeout : Z)
    : option (outcome history_entry * nat) :=
  poll_loop (S (Z.to_nat timeout)) w prompt_id timeout 0 0.

(** [elapsed_at w k]: the clock reading at the loop test before request
    [k], when the first [k] requests all ended in a sleep. *)
Fixpoint elapsed_at (w : worker) (k : nat) : Z :=
  match k with
  | O => 0
  | S k' => elapsed_at w k' + Z.of_nat (w k').2 + POLL_INTERVAL
  end.

(** Replies that leave the job pending: a transient failure of the
    request, a body without the handle, or an entry that is neither
    completed nor in error. *)
Inductive pending (prompt_id : string) : outcome history → Prop :=
| pending_transient e :
    transient e = true → pending prompt_id (Raise e)
| pending_unknown data :
    data !! prompt_id = None → pending prompt_id (Ok data)
| pending_running data entry st :
    data !! prompt_id = Some entry →
    status entry = Some st →
    completed st ≠ Some true →
    status_str st ≠ Some "error" →
    pending prompt_id (Ok data)
| pending_no_status data entry :
    data !! prompt_id = Some entry →
    status entry = None →
    pending prompt_id (Ok data).

(** A worker that never knows the handle, answering at once. *)
Definition silent_worker : worker := fun _ => (Ok ∅, 0%nat).

(** The messages of a failed generation, as the worker lists them: pairs
    of an event name and its details. *)
Definition oom_messages : json :=
  JArray [ JArray [JString "execution_start"; JObject [("prompt_id", JString "h")]];
           JArray [JString "execution_error";
                   JObject [("node_id", JString "6");
                            ("exception_message", JString "out of memory")]] ].

(** A worker whose first request is refused and whose second reply is an
    error report for the handle ["h"]. *)
Definition failing_worker : worker := fun k =>
  match k with
  | O => (Raise URLError, 1%nat)
  | _ => (Ok (dict [("h", HistoryEntry
                 (Some (StatusInfo (Some false) (Some "error") (Some oom_messages)))
                 None)]), 0%nat)
  end.

(** A worker that reports the handle ["h"] completed on the second
    request, with a [status_str] of ["error"] all the same. *)
Definition completing_worker : worker := fun k =>
  match k with
  | O => (Ok ∅, 2%nat)
  | _ => (Ok (dict [("h", HistoryEntry
                 (Some (StatusInfo (Some true) (Some "error") None))
                 (Some []))]), 1%nat)
  end.

(** A report that the job is completed: the entry listed under the
    handle has a status whose [completed] is true. *)
Definition completed_report (prompt_id : string) (fetched : outcome history)
    (entry : history_entry) : Prop :=
  ∃ data st,
    fetched = Ok data ∧ data !! prompt_id = Some entry ∧
    status entry = Some st ∧ completed st = Some true.

(** What a verdict other than the sleep makes the poller return. *)
Definition settled (v : verdict) (r : outcome history_entry) : Prop :=
  match v with
  | Return entry => r = Ok entry
  | Throw e => r = Raise e
  | Sleep => False
  end.

(** A worker whose third reply lists the handle ["h"] as completed with
    one image. *)
Definition slow_worker : worker := fun k =>
  match k with
  | O => (Raise JSONDecodeError, 4%nat)
  | S O => (Ok ∅, 0%nat)
  | _ => (Ok (dict [("h", HistoryEntry
                 (Some (StatusInfo (Some true) (Some "success") (Some (JArray []))))
                 (Some [("9", NodeOutput
                                (Some [OutputItem "gentest_00001_.png" (Some "") "output"])
                                None None)]))]), 1%nat)
  end.

(** A worker whose second request fails outside the classes the poller
    catches. *)
Definition broken_worker : worker := fun k =>
  match k with
  | O => (Ok ∅, 0%nat)
  | _ => (Raise (KeyError "status"), 0%nat)
  end.

(** A worker whose second response is not text: its body holds bytes that
    are not UTF-8, which [json.loads] refuses with [UnicodeDecodeError]. *)
Definition garbled_worker : worker := fun k =>
  match k with
  | O => (Ok ∅, 1%nat)
  | _ => (Raise UnicodeDecodeError, 0%nat)
  end.

(** The worker [w] with its [k]-th reply replaced by a body that does not
    list the handle, arriving after the same time. *)
Definition unknown_at (w : worker) (k : nat) : worker := fun i =>
  if decide (i = k) then (Ok ∅, (w k).2) else w i.

(** *** The contract's statements about the poller *)

(** A report with [status_str == "error"] ends the poller at that
    request with the failure of the generation. *)
Definition fails_on_error_status : Prop :=
  ∀ (w : worker) prompt_id timeout k data entry st,
    (∀ i, (i < k)%nat → pending prompt_id (w i).1) →
    elapsed_at w k < timeout →
    (w k).1 = Ok data →
    data !! prompt_id = Some entry →
    status entry = Some st →
    status_str st = Some "error" →
    ∃ msgs, poll_completion w prompt_id timeout
            = Some (Raise (GenerationFailed msgs), S k).

(** The failures of a poll iteration that the contract calls transient:
    the connection is refused, or the response is malformed, which it is
    when the body is not JSON or not text. *)
Definition io_failure (e : exn) : Prop :=
  e = URLError ∨ e = JSONDecodeError ∨ e = UnicodeDecodeError.

(** A transient failure does not end the poller at the request at which
    it occurs. *)
Definition swallows_io_failures : Prop :=
  ∀ (w : worker) prompt_id timeout k e,
    (∀ i, (i < k)%nat → pending prompt_id (w i).1) →
    elapsed_at w k < timeout →
    (w k).1 = Raise e →
    io_failure e →
    poll_completion w prompt_id timeout ≠ Some (Raise e, S k).

End Poller.

(** ** Health prober ([comfyui_server.py]) *)

Module Prober.

Definition SERVERS : list string := [
  "http://wright.gazelle-galaxy.ts.net:8188";
  "http://wright.gazelle-galaxy.ts.net:8199";
  "http://neumann.gazelle-galaxy.ts.net:8188";
  "http://neumann.gazelle-galaxy.ts.net:8199"
].

Definition TIMEOUT : Z := 3.

(** A load is a queue length, or [float("inf")]. *)
Inductive load_t : Type :=
| Finite (n : nat)
| Infinity.

#[export] Instance load_eq_dec : EqDecision load_t.
Proof. solve_decision. Defined.

Definition load_leb (a b : load_t) : bool :=
  match a, b with
  | Finite m, Finite n => (m <=? n)%nat
  | Finite _, Infinity => true
  | Infinity, Finite _ => false
  | Infinity, Infinity => true
  end.

Record server_status : Type := ServerStatus {
  url : string;
  online : bool;
  running : nat;
  pending : nat;
  load : load_t;
}.

#[export] Instance server_status_eq_dec : EqDecision server_status.
Proof. solve_decision. Defined.

(** What [check_server] reads of the decoded body of [/queue]: the two
    queues, each of which may be missing, as the lists that [len]
    counts. *)
Record queue_body : Type := QueueBody {
  queue_running : option (list json);
  queue_pending : option (list json);
}.

(** [list(v)] for the values that have a length: the items of a list, the
    characters of a string, the keys of a dict.  [len(v)] is the length
    of this list; on any other value [len] raises [TypeError]. *)
Definition elements (v : json) : outcome (list json) :=
  match v with
  | JArray items => Ok items
  | JString s => Ok ((fun c => JString (String c "")) <$> list_ascii_of_string s)
  | JObject members => Ok (JString <$> (map_to_list (dict members)).*1)
  | _ => Raise TypeError
  end.

(** [data.get(key, [])] as far as [len] looks at it.  Only a dict has the
    method [get]; of a repeated key [json.loads] keeps the last value. *)
Definition queue_of (data : json) (key : string)
    : outcome (option (list json)) :=
  match data with
  | JObject members =>
      match dict members !! key with
      | None => Ok None
      | Some v => items ← elements v; Ok (Some items)
      end
  | _ => Raise AttributeError
  end.

(** The values that have a length. *)
Definition has_len (v : json) : bool :=
  match v with
  | JArray _ | JString _ | JObject _ => true
  | _ => false
  end.

(** Each of the two queues of an object is missing or has a length. *)
Definition queues_have_len (members : list (string * json)) : bool :=
  forallb (fun key => match dict members !! key with
                      | None => true
                      | Some v => has_len v
                      end) ["queue_running"; "queue_pending"].

(** The body of the [try] up to the two lengths: [response] is what the
    request and [json.loads] gave, a decoded value or an exception. *)
Definition read_queue (response : outcome json) : outcome queue_body :=
  data ← response;
  running ← queue_of data "queue_running";
  pending ← queue_of data "queue_pending";
  Ok (QueueBody running pending).

(** The classes named by
    [except (URLError, OSError, JSONDecodeError, TimeoutError)]. *)
Definition caught (e : exn) : bool :=
  match e with
  | URLError | OSError | JSONDecodeError | TimeoutError => true
  | _ => false
  end.

(** [fetched] is what the body of the [try] gave up to the two lengths:
    [read_queue] of the response. *)
Definition check_server (url : string) (fetched : outcome queue_body)
    : outcome server_status :=
  match fetched with
  | Ok data =>
      let running := length (default [] (queue_running data)) in
      let pending := length (default [] (queue_pending data)) in
      Ok (ServerStatus url true running pending (Finite (running + pending)))
  | Raise e =>
      if caught e then Ok (ServerStatus url false 0 0 Infinity)
      else Raise e
  end.

(** A probe submitted to the pool: the url and what its request gives. *)
Definition probe : Type := string * outcome queue_body.

(** The status [check_server] returns for a probe, when it returns. *)
Definition recorded (f : probe) : server_status :=
  match f.2 with
  | Ok data =>
      let running := length (default [] (queue_running data)) in
      let pending := length (default [] (queue_pending data)) in
      ServerStatus f.1 true running pending (Finite (running + pending))
  | Raise _ => ServerStatus f.1 false 0 0 Infinity
  end.

(** The key of [results.sort]: [(not s["online"], s["load"])]. *)
Definition sort_key (s : server_status) : bool * load_t :=
  (negb (online s), load s).

(** Tuples compare by their first components, then by their second;
    [False < True]. *)
Definition key_leb (a b : bool * load_t) : bool :=
  match a.1, b.1 with
  | false, true => true
  | true, false => false
  | _, _ => load_leb a.2 b.2
  end.

(** [list.sort] is a stable sort: a sorted permutation that keeps elements
    of equal key in their input order.  Insertion from the right is one. *)
Fixpoint insert_by_key (s : server_status) (l : list server_status)
    : list server_status :=
  match l with
  | [] => [s]
  | t :: l' =>
      if key_leb (sort_key s) (sort_key t) then s :: t :: l'
      else t :: insert_by_key s l'
  end.

Fixpoint sort_by_key (l : list server_status) : list server_status :=
  match l with
  | [] => []
  | s :: l' => insert_by_key s (sort_by_key l')
  end.

(** The futures in submission order; [net i url] is what the [i]-th
    submitted probe gets from [url]. *)
Definition futures (servers : list string)
    (net : nat → string → outcome queue_body) : list probe :=
  imap (fun i url => (url, net i url)) servers.

(** [results] after the loop over [finished], the futures in the order
    in which they are handed over: each result is appended, or what the
    probe raised is raised again. *)
Definition probe_results (finished : list probe)
    : outcome (list server_status) :=
  mapM (fun f : probe => check_server f.1 f.2) finished.

(** [ThreadPoolExecutor(max_workers=n)] raises [ValueError] unless [n] is
    positive. *)
Definition ThreadPoolExecutor (max_workers : nat) : outcome unit :=
  match max_workers with
  | O => Raise ValueError
  | S _ => Ok ()
  end.

(** [check_all_servers()] when the module constant [SERVERS] is
    [servers]; [finished] lists the futures in the order [as_completed]
    yields them. *)
Definition check_all_servers_on (servers : list string)
    (finished : list probe) : outcome (list server_status) :=
  ThreadPoolExecutor (length servers);;
  results ← probe_results finished;
  Ok (sort_by_key results).

Definition check_all_servers (finished : list probe)
    : outcome (list server_status) :=
  check_all_servers_on SERVERS finished.

Definition get_best_server (finished : list probe) : outcome (option string) :=
  servers ← check_all_servers finished;
  Ok (url <$> List.find online servers).

(** The statuses of the configured workers, in configuration order. *)
Definition configured_statuses (servers : list string)
    (net : nat → string → outcome queue_body) : outcome (list server_status) :=
  probe_results (futures servers net).

(** The order of the sort on statuses. *)
Definition key_le (s t : server_status) : Prop :=
  key_leb (sort_key s) (sort_key t) = true.

(** All online workers come first, in ascending order of load, and all
    offline workers follow. *)
Definition online_first_by_load (out : list server_status) : Prop :=
  out = (filter (fun s => online s = true) out
         ++ filter (fun s => online s = false) out)%list
  ∧ StronglySorted (fun s t => load_leb (load s) (load t) = true)
                   (filter (fun s => online s = true) out).

(** The elements of [out] that have the key [k], in the order of [out]. *)
Definition tied (k : bool * load_t) (out : list server_status)
    : list server_status :=
  filter (fun s => sort_key s = k) out.

(** Workers of equal key occur in [out] in the order they have in [ref]. *)
Definition ties_ordered_as (ref out : list server_status) : Prop :=
  ∀ k, tied k out = tied k ref.

(** The ordering with ties in configuration order, for one run of the
    prober. *)
Definition ordered_with_configured_ties (servers : list string)
    (net : nat → string → outcome queue_body) (finished : list probe) : Prop :=
  ∀ out cfg,
    check_all_servers finished = Ok out →
    configured_statuses servers net = Ok cfg →
    online_first_by_load out ∧ ties_ordered_as cfg out.

(** Workers that all refuse the connection. *)
Definition all_down (i : nat) (url : string) : outcome queue_body :=
  Raise URLError.

(** One worker with two running jobs, one idle, one that times out. *)
Definition mixed_pool (i : nat) (url : string) : outcome queue_body :=
  match i with
  | O => Ok (QueueBody (Some [JString "p1"; JString "p2"]) (Some []))
  | S O => Ok (QueueBody None None)
  | _ => Raise TimeoutError
  end.

(** The load of a worker that answered: the lengths of its two queues. *)
Definition queue_load (data : queue_body) : nat :=
  length (default [] (queue_running data))
  + length (default [] (queue_pending data)).

(** The failures of a probe that [check_server] turns into a status. *)
Definition benign (f : probe) : Prop :=
  ∀ e, f.2 = Raise e → caught e = true.

(** [submit_prompt(workflow)] of [comfyui_server.py]: [post url workflow]
    is what the request to [url/prompt] and [json.loads] give.  The body
    is returned as decoded. *)
Definition submit_prompt {A : Type} (finished : list probe)
    (post : string → graph → outcome A) (workflow : graph)
    : outcome (string * A) :=
  best ← get_best_server finished;
  match best with
  | None => Raise (RuntimeError "No ComfyUI servers available")
  | Some url => data ← post url workflow; Ok (url, data)
  end.

(** *** The contract's statement about the probe *)

(** The probe returns a list with a status for every configured worker. *)
Definition always_complete (servers : list string) (finished : list probe)
    : Prop :=
  ∃ out, check_all_servers_on servers finished = Ok out
         ∧ url <$> out ≡ₚ servers.

(** A queue entry as the worker lists it. *)
Definition queue_entry (number : Z) (prompt_id : string) : json :=
  JArray [JInt number; JString prompt_id; JObject []].

(** Responses of four workers: the first has one job running and one
    pending, the second refuses the connection, the third answers with
    valid JSON that is a list, not an object, and the fourth is idle. *)
Definition wrong_shape_pool (i : nat) (url : string) : outcome json :=
  match i with
  | O => Ok (JObject [("queue_running", JArray [queue_entry 7 "p1"]);
                      ("queue_pending", JArray [queue_entry 8 "p2"])])
  | S O => Raise URLError
  | S (S O) => Ok (JArray [])
  | _ => Ok (JObject [])
  end.

(** As [wrong_shape_pool], but the third worker answers with text that is
    not JSON. *)
Definition garbage_pool (i : nat) (url : string) : outcome json :=
  match i with
  | S (S O) => Raise JSONDecodeError
  | _ => wrong_shape_pool i url
  end.

(** A pool in which the third probe fails with an exception that
    [check_server] does not catch. *)
Definition faulty_pool (i : nat) (url : string) : outcome queue_body :=
  match i with
  | O => Ok (QueueBody (Some [JString "p1"]) None)
  | S O => Raise OSError
  | S (S O) => Raise (KeyError "queue")
  | _ => Raise (RuntimeError "late")
  end.

End Prober.

(** ** Paths ([os.path], POSIX flavour) *)

Module Path.

Fixpoint rfind_from (c : ascii) (s : string) (i best : Z) : Z :=
  match s with
  | EmptyString => best
  | String d s' => rfind_from c s' (i + 1) (if Ascii.eqb d c then i else best)
  end.

(** [s.rfind(c)]: the last index of [c] in [s], or [-1]. *)
Definition rfind (s : string) (c : ascii) : Z := rfind_from c s 0 (-1).

Definition char_at (s : string) (i : Z) : option ascii :=
  if i <? 0 then None else String.get (Z.to_nat i) s.

(** [s[:i]] and [s[i:]] for [0 <= i]. *)
Definition slice_to (s : string) (i : Z) : string :=
  String.substring 0 (Z.to_nat i) s.
Definition slice_from (s : string) (i : Z) : string :=
  String.substring (Z.to_nat i) (String.length s - Z.to_nat i) s.

(** The loop of [_splitext] that skips leading dots: [true] when a
    character other than a dot stands before [dotIndex]. *)
Fixpoint name_before_dot (fuel : nat) (p : string) (filenameIndex dotIndex : Z)
    : bool :=
  match fuel with
  | O => false
  | S fuel' =>
      if filenameIndex <? dotIndex then
        if decide (char_at p filenameIndex = Some "."%char)
        then name_before_dot fuel' p (filenameIndex + 1) dotIndex
        else true
      else false
  end.

Definition splitext (p : string) : string * string :=
  let sepIndex := rfind p "/" in
  let dotIndex := rfind p "." in
  if (sepIndex <? dotIndex)
     && name_before_dot (Z.to_nat (dotIndex - sepIndex)) p (sepIndex + 1) dotIndex
  then (slice_to p dotIndex, slice_from p dotIndex)
  else (p, "").

Definition starts_with_sep (s : string) : bool :=
  match s with String "/" _ => true | _ => false end.

Definition ends_with_sep (s : string) : bool :=
  bool_decide (char_at s (Z.of_nat (String.length s) - 1) = Some "/"%char).

(** [os.path.join(a, b)]. *)
Definition join (a b : string) : string :=
  if starts_with_sep b then b
  else if String.eqb a "" || ends_with_sep a then a ++ b
  else a ++ "/" ++ b.

Definition basename (p : string) : string := slice_from p (rfind p "/" + 1).

End Path.

(** ** The generation stages ([generate_images], [generate_videos]) *)

Module Stage.

Definition WRIGHT : string := "http://wright.gazelle-galaxy.ts.net:8188".
Definition NEUMANN : string := "http://neumann.gazelle-galaxy.ts.net:8188".

Definition MODEL_SERVER : gmap string string := dict [
  ("flux_dev", NEUMANN);
  ("flux_schnell", NEUMANN);
  ("sd35", WRIGHT);
  ("z_turbo", WRIGHT);
  ("wan_i2v", WRIGHT)
].

(** A job of [build_image_jobs]. *)
Module ImageJob.
Record t : Type := Make {
  filename : string;
  project : string;
  type : string;
  model : string;
  prompt : string;
  neg : string;
  width : Z;
  height : Z;
  seed : Z;
}.
End ImageJob.

(** A job of [build_video_jobs]. *)
Module VideoJob.
Record t : Type := Make {
  filename : string;
  project : string;
  type : string;
  model : string;
  motion_prompt : string;
  source_image : string;
  seed : Z;
}.
End VideoJob.

(** The decoded body of a [/prompt] reply. *)
Record prompt_body : Type := PromptBody {
  error : option string;
  prompt_id : option string;
}.

(** The requests a stage sends to a worker. *)
Inductive call : Type :=
| PostPrompt (server : string) (workflow : graph)
| PollHistory (server prompt_id : string) (timeout : Z)
| GetView (server filename subfolder filetype : string)
| PostImage (server filename : string).

(** The lines a stage prints about its jobs. *)
Inductive line : Type :=
| Skipped (job : string)
| Submitted (job server : string)
| SubmitFailed (job : string) (e : exn)
| Uploaded (source_image server uploaded_name : string)
| UploadFailed (source_image : string) (e : exn)
| Downloaded (job local_name : string)
| JobFailed (job : string) (e : exn)
| SourceMissing (src : string).

(** What happens during a stage, in order: a request made while handling
    the job [job], or a printed line. *)
Inductive event : Type :=
| Requested (job : string) (c : call)
| Printed (l : line).

(** The local files (path to content), the events so far, and the paths
    that are directories: a stage neither creates nor removes a directory.
    The test directory itself is there, [main] creates it. *)
Record world : Type := MkWorld {
  fs : gmap string string;
  log : list event;
  dirs : gset string;
}.

(** A world without directories below the test directory. *)
Definition World (fs : gmap string string) (log : list event) : world :=
  MkWorld fs log ∅.

Definition emit (w : world) (e : event) : world :=
  MkWorld (fs w) (log w ++ [e]) (dirs w).

Definition write_file (w : world) (path data : string) : world :=
  MkWorld (<[path := data]> (fs w)) (log w) (dirs w).

(** [os.path.exists]: true of a file and of a directory. *)
Definition file_exists (w : world) (path : string) : bool :=
  bool_decide (is_Some (fs w !! path) ∨ path ∈ dirs w).

(** What [urlretrieve] gets of a url.  It opens the url first, so a
    failure there leaves the local file alone ([Unopened]).  It then opens
    the local file for writing and copies the body block by block: the
    whole body ([Complete]), or a first part of it when the connection
    breaks or the body ends short of the announced length ([Broken]), in
    which case the part received is in the file when the exception is
    raised. *)
Inductive transfer : Type :=
| Complete (data : string)
| Unopened (e : exn)
| Broken (received : string) (e : exn).

(** The workers as the stage sees them: what each request yields. *)
Record network : Type := Network {
  post_prompt : string → graph → outcome prompt_body;
  poll_completion : string → string → Z → outcome Poller.history_entry;
  get_view : string → string → string → string → transfer;
  post_image : string → string → string → outcome (option string);
}.

Section Stages.
Variable TEST_DIR : string.
Variable net : network.

Definition submit_prompt (job server : string) (workflow : graph) (w : world)
    : world * outcome string :=
  let w := emit w (Requested job (PostPrompt server workflow)) in
  (w, data ← post_prompt net server workflow;
      match error data with
      | Some err => Raise (RuntimeError ("ComfyUI error: " ++ err))
      | None =>
          match prompt_id data with
          | Some id => Ok id
          | None => Raise (KeyError "prompt_id")
          end
      end).

(** [open(path, "wb")] fails on a directory with [IsADirectoryError], an
    [OSError]; otherwise the file is created, or emptied if it exists. *)
Definition download_file (job server filename subfolder filetype save_path : string)
    (w : world) : world * outcome unit :=
  let w := emit w (Requested job (GetView server filename subfolder filetype)) in
  match get_view net server filename subfolder filetype with
  | Unopened e => (w, Raise e)
  | Complete data =>
      if decide (save_path ∈ dirs w) then (w, Raise OSError)
      else (write_file w save_path data, Ok ())
  | Broken received e =>
      if decide (save_path ∈ dirs w) then (w, Raise OSError)
      else (write_file w save_path received, Raise e)
  end.

Definition upload_image (job server image_path : string) (w : world)
    : world * outcome string :=
  let filename := Path.basename image_path in
  match fs w !! image_path with
  | None => (w, Raise OSError)
  | Some image_data =>
      let w := emit w (Requested job (PostImage server filename)) in
      (w, result ← post_image net server filename image_data;
          Ok (default filename result))
  end.

(** [servers[0]]. *)
Definition first_server (servers : list string) : outcome string :=
  match servers with
  | [] => Raise IndexError
  | s :: _ => Ok s
  end.

(** The routing of an image job:
    [server = MODEL_SERVER.get(job["model"], servers[0])], then the test
    [server not in servers].  [None] is the skip. *)
Definition route_image (servers : list string) (model : string)
    : outcome (option string) :=
  fallback ← first_server servers;
  let server := default fallback (MODEL_SERVER !! model) in
  if decide (server ∈ servers) then Ok (Some server) else Ok None.

(** The routing of a video job, with [WRIGHT] as the default. *)
Definition route_video (servers : list string) (model : string)
    : option string :=
  let server := default WRIGHT (MODEL_SERVER !! model) in
  if decide (server ∈ servers) then Some server else None.

(** A submitted job: its file name, its server and its prompt id. *)
Definition handle : Type := string * string * string.

(** The submission loop of [generate_images]. *)
Fixpoint submit_images (servers : list string) (jobs : list ImageJob.t)
    (w : world) (submitted : list handle) : outcome (world * list handle) :=
  match jobs with
  | [] => Ok (w, submitted)
  | job :: rest =>
      target ← route_image servers (ImageJob.model job);
      match target with
      | None =>
          submit_images servers rest
            (emit w (Printed (Skipped (ImageJob.filename job)))) submitted
      | Some server =>
          builder ← subscript BUILDERS (ImageJob.model job);
          workflow ← builder (ImageJob.prompt job) (ImageJob.neg job)
                             (ImageJob.width job) (ImageJob.height job)
                             (ImageJob.seed job);
          match submit_prompt (ImageJob.filename job) server workflow w with
          | (w, Ok id) =>
              submit_images servers rest
                (emit w (Printed (Submitted (ImageJob.filename job) server)))
                (submitted ++ [(ImageJob.filename job, server, id)])
          | (w, Raise e) =>
              submit_images servers rest
                (emit w (Printed (SubmitFailed (ImageJob.filename job) e)))
                submitted
          end
      end
  end.

(** The files of a history entry in the order the loops visit them:
    node by node, and for each node its images, videos and gifs. *)
Definition listed_items (entry : Poller.history_entry)
    : list Poller.output_item :=
  output ← (default [] (Poller.outputs entry)).*2;
  (default [] (Poller.images output)
   ++ default [] (Poller.videos output)
   ++ default [] (Poller.gifs output))%list.

(** [os.path.splitext(item["filename"])[1] or fallback]. *)
Definition local_ext (fallback : string) (item : Poller.output_item) : string :=
  let ext := (Path.splitext (Poller.filename item)).2 in
  if String.eqb ext "" then fallback else ext.

Definition save_path (fallback job : string) (item : Poller.output_item)
    : string :=
  Path.join TEST_DIR (job ++ local_ext fallback item).

(** The download loops of one job; the first exception leaves them.
    [completed] is the running count of downloads. *)
Fixpoint download_items (fallback job server : string)
    (items : list Poller.output_item) (w : world) (completed : nat)
    : world * nat * outcome unit :=
  match items with
  | [] => (w, completed, Ok ())
  | item :: rest =>
      match download_file job server (Poller.filename item)
              (default "" (Poller.subfolder item)) (Poller.type item)
              (save_path fallback job item) w with
      | (w, Ok _) =>
          download_items fallback job server rest
            (emit w (Printed (Downloaded job (job ++ local_ext fallback item))))
            (S completed)
      | (w, Raise e) => (w, completed, Raise e)
      end
  end.

(** The body of the poll-and-download loop for one submitted job. *)
Definition retrieve_job (timeout : Z) (fallback : string) (h : handle)
    (w : world) (completed failed : nat) : world * nat * nat :=
  let '(job, server, id) := h in
  let w := emit w (Requested job (PollHistory server id timeout)) in
  match poll_completion net server id timeout with
  | Ok result =>
      match download_items fallback job server (listed_items result)
              w completed with
      | (w, completed, Ok _) => (w, completed, failed)
      | (w, completed, Raise e) =>
          (emit w (Printed (JobFailed job e)), completed, S failed)
      end
  | Raise e => (emit w (Printed (JobFailed job e)), completed, S failed)
  end.

Fixpoint retrieve_all (timeout : Z) (fallback : string)
    (submitted : list handle) (w : world) (completed failed : nat)
    : world * nat * nat :=
  match submitted with
  | [] => (w, completed, failed)
  | h :: rest =>
      let '(w, completed, failed) :=
        retrieve_job timeout fallback h w completed failed in
      retrieve_all timeout fallback rest w completed failed
  end.

(** [generate_images(servers)] on the jobs of [build_image_jobs], without
    [dry_run]: the final world and the counts of downloads and failures. *)
Definition generate_images (servers : list string) (jobs : list ImageJob.t)
    (w : world) : outcome (world * nat * nat) :=
  '(w, submitted) ← submit_images servers jobs w [];
  Ok (retrieve_all Poller.IMG_TIMEOUT ".png" submitted w 0%nat 0%nat).

(** The submission loop of [generate_videos]. *)
Fixpoint submit_videos (servers : list string) (jobs : list VideoJob.t)
    (w : world) (submitted : list handle) : outcome (world * list handle) :=
  match jobs with
  | [] => Ok (w, submitted)
  | job :: rest =>
      match route_video servers (VideoJob.model job) with
      | None =>
          submit_videos servers rest
            (emit w (Printed (Skipped (VideoJob.filename job)))) submitted
      | Some server =>
          let src_path := Path.join TEST_DIR (VideoJob.source_image job) in
          match upload_image (VideoJob.filename job) server src_path w with
          | (w, Raise e) =>
              submit_videos servers rest
                (emit w (Printed (UploadFailed (VideoJob.source_image job) e)))
                submitted
          | (w, Ok uploaded_name) =>
              let w := emit w (Printed (Uploaded (VideoJob.source_image job)
                                                 server uploaded_name)) in
              workflow ← workflow_wan_i2v (VideoJob.motion_prompt job)
                           uploaded_name (VideoJob.seed job) 20 49;
              match submit_prompt (VideoJob.filename job) server workflow w with
              | (w, Ok id) =>
                  submit_videos servers rest
                    (emit w (Printed (Submitted (VideoJob.filename job) server)))
                    (submitted ++ [(VideoJob.filename job, server, id)])
              | (w, Raise e) =>
                  submit_videos servers rest
                    (emit w (Printed (SubmitFailed (VideoJob.filename job) e)))
                    submitted
              end
          end
      end
  end.

Definition source_missing (w : world) (job : VideoJob.t) : bool :=
  negb (file_exists w (Path.join TEST_DIR (VideoJob.source_image job))).

(** [generate_videos(servers)] on the jobs of [build_video_jobs], without
    [dry_run].  The first job whose source image is missing ends the
    stage with an error line. *)
Definition generate_videos (servers : list string) (jobs : list VideoJob.t)
    (w : world) : outcome (world * nat * nat) :=
  match List.find (source_missing w) jobs with
  | Some job =>
      let src := Path.join TEST_DIR (VideoJob.source_image job) in
      Ok (emit w (Printed (SourceMissing src)), 0%nat, 0%nat)
  | None =>
      '(w, submitted) ← submit_videos servers jobs w [];
      Ok (retrieve_all Poller.VID_TIMEOUT ".webp" submitted w 0%nat 0%nat)
  end.

(** The requests made while handling [job]. *)
Definition calls_for (job : string) (w : world) : list call :=
  omap (fun e => match e with
                 | Requested j c => if String.eqb j job then Some c else None
                 | Printed _ => None
                 end) (log w).

(** All requests of the stage. *)
Definition calls (w : world) : list call :=
  omap (fun e => match e with
                 | Requested _ c => Some c
                 | Printed _ => None
                 end) (log w).

(** What the request for [item] yields, and the request itself. *)
Definition view (server : string) (item : Poller.output_item) : transfer :=
  get_view net server (Poller.filename item)
           (default "" (Poller.subfolder item)) (Poller.type item).

(** The exception that the download of [item] for [job] raises, if it
    raises. *)
Definition download_error (dirs : gset string) (fallback job server : string)
    (item : Poller.output_item) : option exn :=
  match view server item with
  | Unopened e => Some e
  | Complete _ =>
      if decide (save_path fallback job item ∈ dirs) then Some OSError
      else None
  | Broken _ e =>
      if decide (save_path fallback job item ∈ dirs) then Some OSError
      else Some e
  end.

(** The download of [item] succeeds: the whole body arrives and the save
    path is not a directory. *)
Definition fetched (dirs : gset string) (fallback job server : string)
    (item : Poller.output_item) : Prop :=
  download_error dirs fallback job server item = None.

Definition fetches (dirs : gset string) (fallback job server : string)
    (item : Poller.output_item) : bool :=
  match download_error dirs fallback job server item with
  | None => true
  | Some _ => false
  end.

Definition view_call (server : string) (item : Poller.output_item) : call :=
  GetView server (Poller.filename item)
          (default "" (Poller.subfolder item)) (Poller.type item).

(** What the download of [item] does to the local files: nothing when
    the url cannot be opened or the save path is a directory; otherwise
    the save path holds what was received, the whole body or a part. *)
Definition written (dirs : gset string) (fallback job server : string)
    (files : gmap string string) (item : Poller.output_item)
    : gmap string string :=
  if decide (save_path fallback job item ∈ dirs) then files
  else match view server item with
       | Complete data => <[save_path fallback job item := data]> files
       | Broken received _ => <[save_path fallback job item := received]> files
       | Unopened _ => files
       end.

(** The local files once the downloads of [items] were made in order. *)
Definition stored (dirs : gset string) (fallback job server : string)
    (items : list Poller.output_item) (files : gmap string string)
    : gmap string string :=
  foldl (written dirs fallback job server) files items.

(** *** The contract's statements about a stage *)

(** A job whose configured server is offline goes to some online
    server. *)
Definition falls_back_when_offline : Prop :=
  ∀ servers model server,
    MODEL_SERVER !! model = Some server →
    server ∉ servers → servers ≠ [] →
    ∃ s, s ∈ servers ∧ route_image servers model = Ok (Some s).

(** In a video stage, every job whose source image is present and whose
    server is online is submitted. *)
Definition present_jobs_submitted (servers : list string)
    (jobs : list VideoJob.t) (w : world) : Prop :=
  ∀ w' completed failed job server,
    generate_videos servers jobs w = Ok (w', completed, failed) →
    job ∈ jobs →
    source_missing w job = false →
    route_video servers (VideoJob.model job) = Some server →
    ∃ workflow,
      PostPrompt server workflow ∈ calls_for (VideoJob.filename job) w'.

(** Of two listed files with the same extension, the one listed later is
    written over the one listed earlier: after the downloads of a job,
    their common path holds the body of the later file, when no file
    listed after it goes to the same path. *)
Definition later_overwrites_earlier (fallback job server : string)
    (items : list Poller.output_item) (w : world) : Prop :=
  ∀ l1 a l2 b l3 data,
    items = (l1 ++ a :: l2 ++ b :: l3)%list →
    (Path.splitext (Poller.filename a)).2
    = (Path.splitext (Poller.filename b)).2 →
    view server b = Complete data →
    Forall (fun c => save_path fallback job c ≠ save_path fallback job b) l3 →
    fs (download_items fallback job server items w 0%nat).1.1
    !! save_path fallback job a = Some data.

(** Every file listed for a completed job is requested. *)
Definition fetches_every_listed (timeout : Z) (fallback : string)
    (h : handle) (w : world) : Prop :=
  ∀ result item,
    poll_completion net h.1.2 h.2 timeout = Ok result →
    item ∈ listed_items result →
    view_call h.1.2 item
    ∈ calls_for h.1.1 (retrieve_job timeout fallback h w 0%nat 0%nat).1.1.

End Stages.

(** *** Sample workers and jobs *)

Definition png (name : string) : Poller.output_item :=
  Poller.OutputItem name (Some "") "output".

(** A history entry with two nodes: node 9 lists two images and a gif,
    node 12 a video and an image without extension. *)
Definition sample_entry : Poller.history_entry :=
  Poller.HistoryEntry
    (Some (Poller.StatusInfo (Some true) (Some "success") None))
    (Some [ ("9", Poller.NodeOutput
                    (Some [png "gentest_00001_.png"; png "gentest_00002_.png"])
                    None
                    (Some [png "preview.gif"]));
            ("12", Poller.NodeOutput
                     (Some [png "frame"])
                     (Some [png "clip.webp"])
                     None) ]).

(** Four files, the first and the third with the same extension. *)
Definition four_files : list Poller.output_item :=
  [png "gentest_00001_.png"; png "preview.gif";
   png "gentest_00002_.png"; png "clip.webp"].

(** A worker that accepts every prompt, completes it with [sample_entry]
    and serves every file; the body of a file is its remote name. *)
Definition steady : network := {|
  post_prompt := fun _ _ => Ok (PromptBody None (Some "p-1"));
  poll_completion := fun _ _ _ => Ok sample_entry;
  get_view := fun _ filename _ _ => Complete filename;
  post_image := fun _ filename _ => Ok (Some filename);
|}.

(** Two images with a gif between them. *)
Definition three_files : list Poller.output_item :=
  [png "gentest_00001_.png"; png "preview.gif"; png "gentest_00002_.png"].

(** As [steady], but the gif of [sample_entry] cannot be fetched. *)
Definition flaky : network := {|
  post_prompt := fun _ _ => Ok (PromptBody None (Some "p-1"));
  poll_completion := fun _ _ _ => Ok sample_entry;
  get_view := fun _ filename _ _ =>
    if String.eqb filename "preview.gif" then Unopened URLError
    else Complete filename;
  post_image := fun _ filename _ => Ok (Some filename);
|}.

(** As [steady], but the connection breaks during the second image of
    [sample_entry], after seven bytes of its body. *)
Definition lossy : network := {|
  post_prompt := fun _ _ => Ok (PromptBody None (Some "p-1"));
  poll_completion := fun _ _ _ => Ok sample_entry;
  get_view := fun _ filename _ _ =>
    if String.eqb filename "gentest_00002_.png" then Broken "gentest" OSError
    else Complete filename;
  post_image := fun _ filename _ => Ok (Some filename);
|}.

Definition hague_v01 : VideoJob.t :=
  VideoJob.Make "hague-v01-wan_i2v" "hague" "video" "wan_i2v"
    "golden hour light shifts subtly" "hague-c01-flux_dev.png" 11.

Definition hague_v02 : VideoJob.t :=
  VideoJob.Make "hague-v02-wan_i2v" "hague" "video" "wan_i2v"
    "gentle rain continues falling" "hague-c02-flux_dev.png" 12.

(** A store in which only the first source image of the two jobs exists. *)
Definition one_source : world :=
  World (dict [("/repo/test/hague-c01-flux_dev.png", "png-bytes")]) [].

(** A store in which the path of the first source image is a directory. *)
Definition source_is_directory : world :=
  MkWorld ∅ [] {["/repo/test/hague-c01-flux_dev.png"]}.

(** *** Further definitions for the stages *)

(** [get_available_servers()]: [queue url] is what the request for
    [url/queue] and [json.loads] give; every exception is swallowed. *)
Definition get_available_servers {A : Type} (queue : string → outcome A)
    : list string :=
  foldl (fun available url =>
           match queue url with
           | Ok _ => (available ++ [url])%list
           | Raise _ => available
           end) [] [WRIGHT; NEUMANN].

(** The probe of [url] gave a decodable body. *)
Definition answered {A : Type} (queue : string → outcome A) (url : string)
    : bool :=
  match queue url with
  | Ok _ => true
  | Raise _ => false
  end.

(** The lines printed so far. *)
Definition lines (w : world) : list line :=
  omap (fun e => match e with
                 | Printed l => Some l
                 | Requested _ _ => None
                 end) (log w).

(** The job and server of a line that reports a submission. *)
Definition submitted_of (l : line) : option (string * string) :=
  match l with
  | Submitted job server => Some (job, server)
  | _ => None
  end.

(** The line an image job ends the submission loop with. *)
Definition image_line (servers : list string) (job : ImageJob.t) (l : line)
    : Prop :=
  l = Skipped (ImageJob.filename job)
  ∨ (∃ server, server ∈ servers ∧ l = Submitted (ImageJob.filename job) server)
  ∨ (∃ e, l = SubmitFailed (ImageJob.filename job) e).

(** The requests the submission loop of the video stage makes for one
    job, in a world with the local files of [w]: none when the job is
    skipped or its source image cannot be read, the upload alone when
    the upload fails, and otherwise the upload followed by the prompt
    whose graph names the image as the worker named the upload. *)
Definition video_requests (TEST_DIR : string) (net : network)
    (servers : list string) (w : world) (job : VideoJob.t)
    (block : list call) : Prop :=
  match route_video servers (VideoJob.model job) with
  | None => block = []
  | Some server =>
      let src := Path.join TEST_DIR (VideoJob.source_image job) in
      match fs w !! src with
      | None => block = []
      | Some data =>
          match post_image net server (Path.basename src) data with
          | Raise _ => block = [PostImage server (Path.basename src)]
          | Ok assigned =>
              ∃ g, workflow_wan_i2v (VideoJob.motion_prompt job)
                     (default (Path.basename src) assigned)
                     (VideoJob.seed job) 20 49 = Ok g
                   ∧ block = [PostImage server (Path.basename src);
                              PostPrompt server g]
          end
      end
  end.

(** [h] is the handle of a prompt that was posted for a job of [jobs]
    and accepted: the job is routed to the server of the handle, the
    graph posted there is the one the builder of the job's model makes of
    the job, and the reply of the worker carried the prompt id of the
    handle. *)
Definition submitted_handle (net : network) (servers : list string)
    (jobs : list ImageJob.t) (h : handle) (w : world) : Prop :=
  ∃ job builder g body,
    job ∈ jobs
    ∧ h.1.1 = ImageJob.filename job
    ∧ route_image servers (ImageJob.model job) = Ok (Some h.1.2)
    ∧ BUILDERS !! ImageJob.model job = Some builder
    ∧ builder (ImageJob.prompt job) (ImageJob.neg job) (ImageJob.width job)
        (ImageJob.height job) (ImageJob.seed job) = Ok g
    ∧ post_prompt net h.1.2 g = Ok body
    ∧ error body = None
    ∧ prompt_id body = Some h.2
    ∧ PostPrompt h.1.2 g ∈ calls w.

(** The polls among the requests. *)
Definition polls (w : world) : list call :=
  omap (fun c => match c with
                 | PollHistory _ _ _ => Some c
                 | _ => None
                 end) (calls w).

(** The job of [h] is polled to completion and all its files are
    fetched. *)
Definition job_succeeds (TEST_DIR : string) (net : network)
    (fallback : string) (dirs : gset string) (timeout : Z) (h : handle)
    : bool :=
  match poll_completion net h.1.2 h.2 timeout with
  | Ok result =>
      forallb (fetches TEST_DIR net dirs fallback h.1.1 h.1.2)
              (listed_items result)
  | Raise _ => false
  end.

Definition city_c01 : ImageJob.t :=
  ImageJob.Make "city-c01-sd35" "city" "cinematic" "sd35"
    "a harbour at dawn" "blurry" 1280 720 101.

Definition city_c02 : ImageJob.t :=
  ImageJob.Make "city-c02-flux_dev" "city" "cinematic" "flux_dev"
    "a tram in the rain" "" 1280 720 102.

(** An image job whose model has a server but no builder. *)
Definition city_c03 : ImageJob.t :=
  ImageJob.Make "city-c03-wan_i2v" "city" "cinematic" "wan_i2v"
    "clouds drift" "" 1280 720 103.

(** A worker that refuses every prompt with an error body that also
    carries a prompt id. *)
Definition refusing : network := {|
  post_prompt := fun _ _ => Ok (PromptBody (Some "bad graph") (Some "p-9"));
  poll_completion := fun _ _ _ => Raise TimeoutError;
  get_view := fun _ _ _ _ => Unopened URLError;
  post_image := fun _ _ _ => Raise URLError;
|}.

End Stage.
(** ** The job lists ([build_image_jobs], [build_video_jobs]) *)

Module Jobs.
Import Stage.

Definition CIN_NEG : string :=
  "cartoon, anime, illustration, painting, drawing, blurry, out of focus, " ++
  "low quality, deformed, disfigured, text, watermark, signature, ugly, amateur".

Definition WEB_NEG : string :=
  "photorealistic, photograph, 3d render, realistic skin, " ++
  "blurry, low quality, deformed, ugly, text, watermark".

Definition SIZES : gmap string (Z * Z) := dict [
  ("cinematic", (1280, 720));
  ("webtoon", (768, 1024))
].

(** The decimal digits of [n] in front of [acc]. *)
Fixpoint decimal (fuel n : nat) (acc : string) : string :=
  match fuel with
  | O => acc
  | S fuel' =>
      let acc' := String (ascii_of_nat (48 + n mod 10)) acc in
      if (n <? 10)%nat then acc' else decimal fuel' (n / 10) acc'
  end.

(** [str(n)]. *)
Definition str (n : nat) : string := decimal (S n) n "".

Fixpoint zeros (n : nat) : string :=
  match n with
  | O => ""
  | S n' => String "0" (zeros n')
  end.

(** The format [{i:02d}]: the digits of [i], padded with zeros on the
    left to two characters. *)
Definition fmt_02d (i : nat) : string :=
  zeros (2 - String.length (str i)) ++ str i.

(** A catalog: the projects in the order of the dict, each with its
    entries.  An image entry is a prompt and a model, a video entry a
    motion prompt and a source image. *)
Definition catalog : Type := list (string * list (string * string)).

(** The inner loop of [build_image_jobs] over the prompts of one
    project, [i] being the number of the next prompt:
    [kind] and [letter] are ["cinematic"] and ["c"], or ["webtoon"] and
    ["w"]; [negative] is the negative prompt of the kind.
    [draws k] is what the [k]-th call of [random.randint(0, 2**31)]
    returns. *)
Fixpoint image_jobs_of (kind letter negative : string) (w h : Z)
    (draws : nat → Z) (project : string) (prompts : list (string * string))
    (i k : nat) : list ImageJob.t :=
  match prompts with
  | [] => []
  | (prompt, model) :: rest =>
      let neg := if String.eqb model "sd35" then negative else "" in
      ImageJob.Make (project ++ "-" ++ letter ++ fmt_02d i ++ "-" ++ model)
        project kind model prompt neg w h (draws k)
      :: image_jobs_of kind letter negative w h draws project rest (S i) (S k)
  end.

(** The outer loop over the projects of one catalog; the result comes
    with the number of draws made so far. *)
Fixpoint catalog_jobs (kind letter negative : string) (draws : nat → Z)
    (projects : catalog) (k : nat) : outcome (list ImageJob.t * nat) :=
  match projects with
  | [] => Ok ([], k)
  | (project, prompts) :: rest =>
      size ← subscript SIZES kind;
      let jobs := image_jobs_of kind letter negative size.1 size.2 draws
                    project prompts 1 k in
      '(more, k') ← catalog_jobs kind letter negative draws rest
                      (k + length prompts);
      Ok ((jobs ++ more)%list, k')
  end.

Definition build_image_jobs (CINEMATIC WEBTOON : catalog) (draws : nat → Z)
    (k : nat) : outcome (list ImageJob.t * nat) :=
  '(cinematic, k) ← catalog_jobs "cinematic" "c" CIN_NEG draws CINEMATIC k;
  '(webtoon, k) ← catalog_jobs "webtoon" "w" WEB_NEG draws WEBTOON k;
  Ok ((cinematic ++ webtoon)%list, k).

(** The inner loop of [build_video_jobs]. *)
Fixpoint video_jobs_of (draws : nat → Z) (project : string)
    (specs : list (string * string)) (i k : nat) : list VideoJob.t :=
  match specs with
  | [] => []
  | (motion_prompt, source_image) :: rest =>
      VideoJob.Make (project ++ "-v" ++ fmt_02d i ++ "-wan_i2v")
        project "video" "wan_i2v" motion_prompt source_image (draws k)
      :: video_jobs_of draws project rest (S i) (S k)
  end.

Fixpoint build_video_jobs (VIDEO_SPECS : catalog) (draws : nat → Z) (k : nat)
    : list VideoJob.t * nat :=
  match VIDEO_SPECS with
  | [] => ([], k)
  | (project, specs) :: rest =>
      let jobs := video_jobs_of draws project specs 1 k in
      let '(more, k') := build_video_jobs rest draws (k + length specs) in
      ((jobs ++ more)%list, k')
  end.

(** The number a string starts with: the value of its longest prefix of
    decimal digits, continuing from [acc]. *)
Fixpoint leading_number (acc : nat) (s : string) : nat :=
  match s with
  | EmptyString => acc
  | String c s' =>
      let d := nat_of_ascii c in
      if (48 <=? d)%nat && (d <=? 57)%nat
      then leading_number (10 * acc + (d - 48)) s'
      else acc
  end.

(** The number of entries of a catalog. *)
Definition entries (c : catalog) : nat :=
  length (c ≫= snd).

(** Two projects of a few entries each. *)
Definition sample_cinematic : catalog :=
  [ ("hague", [("a canal at dusk", "flux_dev"); ("rain on cobbles", "sd35")]);
    ("city", [("a harbour at dawn", "sd35")]) ].

Definition sample_webtoon : catalog :=
  [ ("hague", [("a girl with a red umbrella", "z_turbo")]) ].

End Jobs.

(** * Properties

    ** Structural invariants of the built graphs *)

Section Checker.
Variable g : graph.
Hypothesis Hok : graph_ok g = true.

Lemma node_ok_lookup a n : g !! a = Some n → node_ok g a n = true.
Proof.
  intros Hn. unfold graph_ok in Hok.
  rewrite forallb_forall in Hok.
  apply (Hok (a, n)). apply list_elem_of_In.
  by apply elem_of_map_to_list.
Qed.

Lemma has_node_is_Some b : has_node g b = true → is_Some (g !! b).
Proof. unfold has_node. destruct (g !! b); [eauto | discriminate]. Qed.

Lemma edge_checked a b :
  edge g a b → (id_num b < id_num a)%nat ∧ is_Some (g !! b).
Proof.
  intros (n & Hn & Hb).
  pose proof (node_ok_lookup _ _ Hn) as Hc.
  unfold node_ok in Hc. apply andb_prop in Hc as [Hc _].
  rewrite forallb_forall in Hc.
  specialize (Hc b (proj1 (list_elem_of_In _ _) Hb)).
  apply andb_prop in Hc as [Hlt Hin].
  split; [by apply Nat.ltb_lt | by apply has_node_is_Some].
Qed.

Lemma path_decreases a b : tc (edge g) a b → (id_num b < id_num a)%nat.
Proof.
  induction 1 as [a b Hab | a b c Hab _ IH].
  - by apply edge_checked.
  - apply edge_checked in Hab as [Hab _]. lia.
Qed.

Lemma graph_ok_acyclic : acyclic g.
Proof. intros a Hcyc. apply path_decreases in Hcyc. lia. Qed.

Lemma graph_ok_no_dangling : no_dangling g.
Proof. intros a b Hab. by apply edge_checked in Hab as [_ ?]. Qed.

Lemma graph_ok_bound (required : string → list string) (t : string) :
  (∀ class, required class ⊆ class_params class) →
  terminal_bound required g t.
Proof.
  intros Hreq a n _ Hn p Hp.
  pose proof (node_ok_lookup _ _ Hn) as Hc.
  unfold node_ok in Hc. apply andb_prop in Hc as [_ Hc].
  rewrite forallb_forall in Hc.
  specialize (Hc p (proj1 (list_elem_of_In _ _) (Hreq _ _ Hp))).
  unfold bound_in in Hc.
  destruct (inputs n !! p) as [v|]; [| discriminate].
  exists v. split; [done |].
  destruct v; simpl; try done. by apply has_node_is_Some.
Qed.
End Checker.

Lemma build_graph_ok (c : builder_call) :
  ∃ g, build c = Ok g ∧ graph_ok g = true.
Proof.
  destruct c; (eexists; split; [reflexivity | vm_compute; reflexivity]).
Qed.

(** The checker does reject what it should: a binding to a missing node,
    and a node bound to itself. *)
Example graph_ok_rejects_dangling :
  graph_ok (dict [("1", Node "VAEDecode" (dict [
      ("samples", VBind "7" 0); ("vae", VStr "x")]))]) = false.
Proof. reflexivity. Qed.

Example graph_ok_rejects_cycle :
  graph_ok (dict [("1", Node "VAEDecode" (dict [
      ("samples", VBind "1" 0); ("vae", VStr "x")]))]) = false.
Proof. reflexivity. Qed.

Example graph_ok_rejects_unbound :
  graph_ok (dict [("1", Node "VAEDecode" (dict [
      ("vae", VStr "x")]))]) = false.
Proof. reflexivity. Qed.

(** C1. In the graph of [workflow_wan_i2v], for every [steps], pass 1
    (node 11) ends at [steps // 2], the floor of half the step count (10
    for 20 steps, 3 for 7), pass 2 (node 12) starts at the step where pass
    1 ends, both passes carry the same [noise_seed], pass 1 adds noise and
    returns with leftover noise, and pass 2 adds no noise. *)
Theorem wan_i2v_step_boundary (motion_prompt image_filename : string)
    (seed steps length : Z) :
  ∃ g g20 g7 half,
    workflow_wan_i2v motion_prompt image_filename seed steps length = Ok g
    ∧ workflow_wan_i2v motion_prompt image_filename seed 20 length = Ok g20
    ∧ workflow_wan_i2v motion_prompt image_filename seed 7 length = Ok g7
    ∧ 2 * half ≤ steps < 2 * half + 2
    ∧ param g "11" "end_at_step" = Some (VInt half)
    ∧ param g20 "11" "end_at_step" = Some (VInt 10)
    ∧ param g7 "11" "end_at_step" = Some (VInt 3)
    ∧ param g "12" "start_at_step" = param g "11" "end_at_step"
    ∧ param g "11" "start_at_step" = Some (VInt 0)
    ∧ param g "11" "noise_seed" = Some (VInt seed)
    ∧ param g "12" "noise_seed" = Some (VInt seed)
    ∧ param g "11" "add_noise" = Some (VStr "enable")
    ∧ param g "11" "return_with_leftover_noise" = Some (VStr "enable")
    ∧ param g "12" "add_noise" = Some (VStr "disable")
    ∧ param g "12" "latent_image" = Some (VBind "11" 0).
Proof.
  do 3 eexists. exists (steps / 2).
  split; [reflexivity |]. split; [reflexivity |]. split; [reflexivity |].
  split; [pose proof (Z.div_mod steps 2); pose proof (Z.mod_pos_bound steps 2); lia |].
  repeat split; reflexivity.
Qed.

(** C2. Whatever parameters the worker requires of each node class, as
    long as they are among the ones the builders write for that class,
    every builder call returns a graph that is acyclic, has no binding to
    a missing node, and in which every node reachable from the save node
    has each required parameter bound to a literal or to a node of the
    graph. *)
Theorem builders_structural_invariants (required : string → list string)
    (c : builder_call) :
  (∀ class, required class ⊆ class_params class) →
  ∃ g, build c = Ok g
       ∧ acyclic g ∧ no_dangling g ∧ terminal_bound required g (terminal c).
Proof.
  intros Hreq. destruct (build_graph_ok c) as (g & Hg & Hok).
  exists g. split; [done |].
  split; [by apply graph_ok_acyclic |].
  split; [by apply graph_ok_no_dangling |].
  by apply graph_ok_bound.
Qed.

Lemma builders_structural_invariants_witness :
  (∀ class, class_params class ⊆ class_params class)
  ∧ ∃ g, build (WanI2V "the camera pans" "source.png" 42 20 49) = Ok g
         ∧ acyclic g ∧ no_dangling g
         ∧ terminal_bound class_params g "14".
Proof.
  split; [intros class; reflexivity |].
  apply (builders_structural_invariants class_params
           (WanI2V "the camera pans" "source.png" 42 20 49)).
  intros class; reflexivity.
Defined.

(** The save node of every built graph is a node of the graph. *)
Lemma terminal_is_node (c : builder_call) :
  ∃ g n, build c = Ok g ∧ g !! terminal c = Some n.
Proof. destruct c; (do 2 eexists; split; reflexivity). Qed.

(** ** Parameter validation *)

(** C7, counterexample. [workflow_sd35] with width 0 and height -720
    returns a graph, so the builders do not reject non-positive sizes. *)
Lemma nonpositive_size_not_rejected :
  out_of_range (Sd35 "a harbour at dawn" "" 0 (-720) 7)
  ∧ (∃ g, build (Sd35 "a harbour at dawn" "" 0 (-720) 7) = Ok g
          ∧ param g "4" "width" = Some (VInt 0)
          ∧ param g "4" "height" = Some (VInt (-720)))
  ∧ ¬ rejects_out_of_range.
Proof.
  split; [simpl; lia |].
  split; [eexists; repeat split; reflexivity |].
  intros H. specialize (H (Sd35 "a harbour at dawn" "" 0 (-720) 7)).
  simpl in H. discriminate H. lia.
Qed.

(** C7, amended. Every builder call returns a graph, whatever the
    parameter record holds (empty prompt, non-positive width or height
    included); the graph carries the prompt, the sizes and the seed as
    they were given. *)
Theorem builders_never_reject (c : builder_call) :
  ∃ g, build c = Ok g ∧
    match c with
    | FluxDev p w h s | ZTurbo p w h s =>
        param g "3" "text" = Some (VStr p)
        ∧ param g "6" "width" = Some (VInt w)
        ∧ param g "6" "height" = Some (VInt h)
        ∧ param g "7" "seed" = Some (VInt s)
    | FluxSchnell p w h s =>
        param g "3" "text" = Some (VStr p)
        ∧ param g "5" "width" = Some (VInt w)
        ∧ param g "5" "height" = Some (VInt h)
        ∧ param g "6" "seed" = Some (VInt s)
    | Sd35 p n w h s =>
        param g "2" "text" = Some (VStr p)
        ∧ param g "3" "text" = Some (VStr n)
        ∧ param g "4" "width" = Some (VInt w)
        ∧ param g "4" "height" = Some (VInt h)
        ∧ param g "5" "seed" = Some (VInt s)
    | WanI2V m i s st l =>
        param g "7" "text" = Some (VStr m)
        ∧ param g "9" "image" = Some (VStr i)
        ∧ param g "10" "length" = Some (VInt l)
        ∧ param g "11" "steps" = Some (VInt st)
        ∧ param g "11" "noise_seed" = Some (VInt s)
    end.
Proof.
  destruct c; (eexists; split; [reflexivity |]); repeat split; reflexivity.
Qed.

(** ** Further properties of the builders *)

Lemma reach_sound (g : graph) fuel frontier a :
  a ∈ reach g fuel frontier → ∃ t, t ∈ frontier ∧ rtc (edge g) t a.
Proof.
  revert frontier. induction fuel as [| fuel IH]; intros frontier; simpl.
  - intros Ha. exists a. split; [done | apply rtc_refl].
  - intros [Ha | Ha]%elem_of_app.
    + exists a. split; [done | apply rtc_refl].
    + apply IH in Ha as (b & Hb & Hba).
      unfold bound_from in Hb. apply list_elem_of_bind in Hb as (t & Hb & Ht).
      exists t. split; [done |].
      eapply rtc_l; [| exact Hba].
      destruct (g !! t) as [n |] eqn:Hn; [| by apply elem_of_nil in Hb].
      exists n. done.
Qed.

Lemma all_found_reachable (g : graph) fuel t :
  all_found g fuel t = true →
  ∀ a, is_Some (g !! a) → reachable g t a.
Proof.
  unfold all_found. rewrite forallb_forall. intros Hall a [n Hn].
  assert (a ∈ (map_to_list g).*1) as Ha.
  { apply list_elem_of_fmap. exists (a, n). split; [done |].
    by apply elem_of_map_to_list. }
  apply list_elem_of_In, Hall, bool_decide_eq_true in Ha.
  apply reach_sound in Ha as (t' & ->%list_elem_of_singleton & Hpath).
  exact Hpath.
Qed.

(** No builder emits a dead node: in the graph of every builder call,
    every node is the save node or one the save node depends on through
    bindings. *)
Theorem builders_no_dead_node (c : builder_call) :
  ∃ g, build c = Ok g ∧ ∀ a, is_Some (g !! a) → reachable g (terminal c) a.
Proof.
  destruct c;
    (eexists; split; [reflexivity |];
     apply (all_found_reachable _ 6); vm_compute; reflexivity).
Qed.

(** The checker of reachability does reject a graph with a node the save
    node does not depend on. *)
Example all_found_rejects_dead_node :
  all_found (dict [("1", Node "VAELoader" (dict [("vae_name", VStr "x")]));
                   ("2", Node "SaveImage" (dict [("filename_prefix", VStr "y")]))])
            6 "2" = false.
Proof. reflexivity. Qed.

(** The negative prompt handed to a builder of [BUILDERS] reaches the
    graph for [sd35] only, as the text of its node 3; the builders of the
    other models return the same graph whatever it is. *)
Theorem negative_prompt_only_sd35 (model : string)
    (builder : string → string → Z → Z → Z → outcome graph) :
  BUILDERS !! model = Some builder →
  (model ≠ "sd35" →
   ∀ p n n' w h s, builder p n w h s = builder p n' w h s)
  ∧ (model = "sd35" →
     ∀ p n w h s, ∃ g, builder p n w h s = Ok g
                       ∧ param g "3" "text" = Some (VStr n)).
Proof.
  unfold BUILDERS, dict. simpl. intros H.
  repeat (apply lookup_insert_Some in H as [[<- <-] | [? H]];
          [split; [intros ?; try done | intros ?; try done;
                   intros; eexists; split; reflexivity] |]).
  by rewrite lookup_empty in H.
Qed.

Lemma negative_prompt_only_sd35_witness :
  ∃ builder,
    BUILDERS !! "z_turbo" = Some builder
    ∧ builder "a fox" "blurry" 768 1024 5 = builder "a fox" "" 768 1024 5.
Proof.
  eexists. split; [reflexivity |].
  destruct (negative_prompt_only_sd35 "z_turbo" _ eq_refl) as [Hother _].
  apply Hother. discriminate.
Defined.

(** ** The poller *)

Module PollerFacts.
Import Poller.

Lemma pending_sleeps prompt_id fetched :
  pending prompt_id fetched → poll_once prompt_id fetched = Sleep.
Proof.
  destruct 1 as [e He | data Hd | data entry st Hd Hst Hc Hs | data entry Hd Hst];
    simpl.
  - by rewrite He.
  - by rewrite Hd.
  - rewrite Hd, Hst. simpl.
    destruct (completed st) as [ [ | ] | ]; simpl; try done.
    all: destruct (decide (status_str st = Some "error")); congruence.
  - rewrite Hd, Hst. reflexivity.
Qed.

Lemma elapsed_at_step (w : worker) k :
  elapsed_at w k + POLL_INTERVAL ≤ elapsed_at w (S k).
Proof. simpl. lia. Qed.

Lemma elapsed_at_mono (w : worker) j k :
  (j ≤ k)%nat → elapsed_at w j ≤ elapsed_at w k.
Proof.
  induction 1 as [| k _ IH]; [lia |].
  pose proof (elapsed_at_step w k). unfold POLL_INTERVAL in *. lia.
Qed.

(** The loop returns for every worker: the fuel of [poll_completion] is
    never used up. *)
Lemma poll_loop_total (w : worker) prompt_id timeout fuel k elapsed :
  (Z.to_nat (timeout - elapsed) < fuel)%nat →
  is_Some (poll_loop fuel w prompt_id timeout k elapsed).
Proof.
  revert k elapsed. induction fuel as [| fuel IH]; intros k elapsed Hfuel; [lia |].
  simpl. destruct (Z.ltb_spec elapsed timeout) as [Hlt | Hge]; [| eauto].
  destruct (w k) as [fetched latency].
  destruct (poll_once prompt_id fetched); eauto.
  apply IH. unfold POLL_INTERVAL. lia.
Qed.

Lemma poll_completion_total (w : worker) prompt_id timeout :
  is_Some (poll_completion w prompt_id timeout).
Proof. apply poll_loop_total. lia. Qed.

(** The runs of the sample workers. *)
Example silent_worker_times_out :
  poll_completion silent_worker "h" 7 = Some (Raise TimeoutError, 3%nat).
Proof. reflexivity. Qed.

(** The test of [completed] comes first: an entry that is completed is
    returned whatever its [status_str]. *)
Example completed_entry_is_returned :
  poll_completion completing_worker "h" IMG_TIMEOUT
  = Some (Ok (HistoryEntry
                (Some (StatusInfo (Some true) (Some "error") None))
                (Some [])), 2%nat).
Proof. reflexivity. Qed.

(** *** Further properties of the poller *)

Lemma poll_once_return_inv prompt_id fetched entry :
  poll_once prompt_id fetched = Return entry →
  completed_report prompt_id fetched entry.
Proof.
  destruct fetched as [data | e]; simpl.
  - destruct (data !! prompt_id) as [entry' |] eqn:Hd; [| done].
    destruct (status entry') as [st |] eqn:Hst; simpl.
    + destruct (completed st) as [ [ | ] | ] eqn:Hc; simpl.
      * intros [= <-]. exists data, st. done.
      * by destruct (decide (status_str st = Some "error")).
      * by destruct (decide (status_str st = Some "error")).
    + done.
  - by destruct (transient e).
Qed.

Lemma completed_report_returns prompt_id fetched entry :
  completed_report prompt_id fetched entry →
  poll_once prompt_id fetched = Return entry.
Proof.
  intros (data & st & -> & Hd & Hst & Hc). simpl.
  by rewrite Hd, Hst; simpl; rewrite Hc.
Qed.

(** The runs of the loop: it stops at the first request whose verdict is
    not the sleep, or at the first loop test at which the deadline has
    passed; all requests are made before the deadline. *)
Lemma poll_loop_run (w : worker) prompt_id timeout fuel j r n :
  poll_loop fuel w prompt_id timeout j (elapsed_at w j) = Some (r, n) →
  (j ≤ n)%nat
  ∧ (∀ i, (j ≤ i)%nat → (i < n)%nat → elapsed_at w i < timeout)
  ∧ (∀ i, (j ≤ i)%nat → (S i < n)%nat → poll_once prompt_id (w i).1 = Sleep)
  ∧ ((r = Raise TimeoutError ∧ timeout ≤ elapsed_at w n
      ∧ ∀ i, (j ≤ i)%nat → (i < n)%nat → poll_once prompt_id (w i).1 = Sleep)
     ∨ (∃ k, n = S k ∧ (j ≤ k)%nat ∧ settled (poll_once prompt_id (w k).1) r)).
Proof.
  revert j. induction fuel as [| fuel IH]; intros j; [done |].
  simpl. destruct (Z.ltb_spec (elapsed_at w j) timeout) as [Hlt | Hge].
  - destruct (w j) as [fetched latency] eqn:Hwj.
    destruct (poll_once prompt_id fetched) as [entry | e |] eqn:Hv.
    + intros [= <- <-]. split; [lia |].
      split; [intros i ? ?; by replace i with j by lia |].
      split; [intros i ? ?; lia |].
      right. exists j. rewrite Hwj. simpl. by rewrite Hv.
    + intros [= <- <-]. split; [lia |].
      split; [intros i ? ?; by replace i with j by lia |].
      split; [intros i ? ?; lia |].
      right. exists j. rewrite Hwj. simpl. by rewrite Hv.
    + assert (elapsed_at w j + Z.of_nat latency + POLL_INTERVAL
              = elapsed_at w (S j)) as -> by (simpl; by rewrite Hwj).
      intros (Hn & Hbefore & Hsleep & Hend)%IH.
      assert (poll_once prompt_id (w j).1 = Sleep) as Hj
        by (by rewrite Hwj).
      split; [lia |].
      split.
      { intros i Hi1 Hi2. destruct (decide (i = j)) as [-> | ?]; [done |].
        apply Hbefore; lia. }
      split.
      { intros i Hi1 Hi2. destruct (decide (i = j)) as [-> | ?]; [done |].
        apply Hsleep; lia. }
      destruct Hend as [(-> & Hle & Hall) | (k & -> & Hk & Hset)].
      * left. split; [done |]. split; [done |].
        intros i Hi1 Hi2. destruct (decide (i = j)) as [-> | ?]; [done |].
        apply Hall; lia.
      * right. exists k. split; [done |]. split; [lia | done].
  - intros [= <- <-]. split; [lia |].
    split; [intros i ? ?; lia |]. split; [intros i ? ?; lia |].
    left. split; [done |]. split; [lia |]. intros i ? ?; lia.
Qed.

Lemma elapsed_at_lower (w : worker) k :
  POLL_INTERVAL * Z.of_nat k ≤ elapsed_at w k.
Proof.
  induction k as [| k IH]; [done |].
  pose proof (elapsed_at_step w k). unfold POLL_INTERVAL in *. lia.
Qed.

(** The loop sees of a worker only the verdicts of its replies and the
    time they take. *)
Lemma poll_loop_ext (w w' : worker) prompt_id timeout :
  (∀ i, poll_once prompt_id (w i).1 = poll_once prompt_id (w' i).1
        ∧ (w i).2 = (w' i).2) →
  ∀ fuel k elapsed,
    poll_loop fuel w prompt_id timeout k elapsed
    = poll_loop fuel w' prompt_id timeout k elapsed.
Proof.
  intros Hext. induction fuel as [| fuel IH]; intros k elapsed; [done |].
  simpl. destruct (elapsed <? timeout); [| done].
  destruct (Hext k) as [Hv Hl].
  destruct (w k) as [fetched latency], (w' k) as [fetched' latency'].
  simpl in Hv, Hl. subst latency'. rewrite <- Hv.
  destruct (poll_once prompt_id fetched); [done | done | apply IH].
Qed.

(** The first reply before the deadline whose verdict is not the sleep
    decides the run. *)
Lemma poll_completion_settles (w : worker) prompt_id timeout k r :
  (∀ i, (i < k)%nat → pending prompt_id (w i).1) →
  elapsed_at w k < timeout →
  settled (poll_once prompt_id (w k).1) r →
  poll_completion w prompt_id timeout = Some (r, S k).
Proof.
  intros Hw Hk Hv.
  destruct (poll_completion_total w prompt_id timeout) as [[r' n] Hrun].
  rewrite Hrun. unfold poll_completion in Hrun.
  apply (poll_loop_run w prompt_id timeout _ 0%nat) in Hrun
    as (_ & Hbefore & Hsleep & Hend).
  assert (n = S k) as ->.
  { destruct (Nat.lt_trichotomy n (S k)) as [Hlt | [-> | Hgt]]; [| done |].
    - exfalso. destruct Hend as [(_ & Hle & _) | (k' & -> & _ & Hset)].
      + pose proof (elapsed_at_mono w n k ltac:(lia)). lia.
      + rewrite (pending_sleeps _ _ (Hw k' ltac:(lia))) in Hset. done.
    - exfalso. specialize (Hsleep k ltac:(lia) ltac:(lia)).
      rewrite Hsleep in Hv. done. }
  destruct Hend as [(_ & Hle & Hall) | (k' & [= <-] & _ & Hset)].
  - specialize (Hall k ltac:(lia) ltac:(lia)). rewrite Hall in Hv. done.
  - destruct (poll_once prompt_id (w k).1); simpl in *; [congruence.. | done].
Qed.

(** A sleep at request [k] is followed by the loop test: the time-out
    when the deadline has passed, the next request otherwise. *)
Lemma poll_completion_sleeps_on (w : worker) prompt_id timeout k :
  (∀ i, (i < k)%nat → pending prompt_id (w i).1) →
  elapsed_at w k < timeout →
  poll_once prompt_id (w k).1 = Sleep →
  ∃ r n,
    poll_completion w prompt_id timeout = Some (r, n)
    ∧ (k < n)%nat
    ∧ (timeout ≤ elapsed_at w (S k) → r = Raise TimeoutError ∧ n = S k)
    ∧ (elapsed_at w (S k) < timeout → (S k < n)%nat).
Proof.
  intros Hw Hk Hv.
  destruct (poll_completion_total w prompt_id timeout) as [[r n] Hrun].
  exists r, n. split; [done |]. unfold poll_completion in Hrun.
  apply (poll_loop_run w prompt_id timeout _ 0%nat) in Hrun
    as (_ & Hbefore & Hsleep & Hend).
  assert (k < n)%nat as Hkn.
  { destruct (Nat.lt_ge_cases k n) as [? | Hge]; [done | exfalso].
    destruct Hend as [(_ & Hle & _) | (k' & -> & _ & Hset)].
    - pose proof (elapsed_at_mono w n k Hge). lia.
    - destruct (decide (k' = k)) as [-> | Hne].
      + rewrite Hv in Hset. done.
      + rewrite (pending_sleeps _ _ (Hw k' ltac:(lia))) in Hset. done. }
  split; [done |]. split.
  - intros Hpast.
    destruct (decide (n = S k)) as [-> | Hne].
    + destruct Hend as [(-> & _) | (k' & [= <-] & _ & Hset)]; [done |].
      rewrite Hv in Hset. done.
    + specialize (Hbefore (S k) ltac:(lia) ltac:(lia)). lia.
  - intros Hnext.
    destruct (decide (n = S k)) as [-> | Hne]; [| lia].
    destruct Hend as [(_ & Hle & _) | (k' & [= <-] & _ & Hset)]; [lia |].
    rewrite Hv in Hset. done.
Qed.

(** C3, counterexample. (a) A worker reports the handle with
    [status_str == "error"] in an entry that is also marked completed:
    the poller returns the entry, it does not fail.  (b) A worker's
    response is malformed, its body not being text: the poller ends at
    that request with the [UnicodeDecodeError], which is not swallowed or
    retried. *)
Lemma poller_contract_refuted :
  poll_completion completing_worker "h" IMG_TIMEOUT
  = Some (Ok (HistoryEntry
                (Some (StatusInfo (Some true) (Some "error") None))
                (Some [])), 2%nat)
  ∧ ¬ fails_on_error_status
  ∧ poll_completion garbled_worker "h" IMG_TIMEOUT
    = Some (Raise UnicodeDecodeError, 2%nat)
  ∧ ¬ swallows_io_failures.
Proof.
  split; [reflexivity |]. split; [| split; [reflexivity |]].
  - intros H.
    destruct (H completing_worker "h" IMG_TIMEOUT 1%nat
                (dict [("h", HistoryEntry
                               (Some (StatusInfo (Some true) (Some "error") None))
                               (Some []))])
                (HistoryEntry (Some (StatusInfo (Some true) (Some "error") None))
                              (Some []))
                (StatusInfo (Some true) (Some "error") None))
      as [msgs Hmsgs]; try reflexivity.
    + intros i Hi. assert (i = 0%nat) as -> by lia.
      apply pending_unknown. reflexivity.
    + discriminate Hmsgs.
  - intros H.
    apply (H garbled_worker "h" IMG_TIMEOUT 1%nat UnicodeDecodeError);
      try reflexivity.
    + intros i Hi. assert (i = 0%nat) as -> by lia.
      apply pending_unknown. reflexivity.
    + right. right. reflexivity.
Qed.

(** C3, amended. (1) Against a worker whose replies before the deadline
    all leave the job pending (a caught failure of the request, a body
    that does not list the handle, an entry that is neither completed nor
    in error), the poller ends in the time-out, raised at the first loop
    test at which the deadline has passed, and in nothing else.  (2) A
    reply that lists the handle with [status_str == "error"], at a
    request made before the deadline and after pending replies only, ends
    the poller at that request: with the failure of the generation when
    the entry is not marked completed, and with the entry as the result
    when it is, the test of [completed] coming first.  (3) A request that
    fails with [URLError], [OSError] (a socket time-out included) or
    [JSONDecodeError] is swallowed: the run is the run against the worker
    that answered this request with a body not listing the handle, the
    poller sleeps, and it goes on to the next request unless the deadline
    has passed by then.  A request that fails with any other exception,
    as a response that is not text does, ends the poller at that request
    with that exception. *)
Theorem poller_outcomes :
  (∀ (w : worker) prompt_id timeout,
     (∀ i, elapsed_at w i < timeout → pending prompt_id (w i).1) →
     ∃ n, poll_completion w prompt_id timeout = Some (Raise TimeoutError, n)
          ∧ timeout ≤ elapsed_at w n
          ∧ ∀ i, (i < n)%nat → elapsed_at w i < timeout)
  ∧ (∀ (w : worker) prompt_id timeout k data entry st,
       (∀ i, (i < k)%nat → pending prompt_id (w i).1) →
       elapsed_at w k < timeout →
       (w k).1 = Ok data →
       data !! prompt_id = Some entry →
       status entry = Some st →
       status_str st = Some "error" →
       poll_completion w prompt_id timeout
       = Some (if default false (completed st) then Ok entry
               else Raise (GenerationFailed
                             (default (JArray []) (messages st))),
               S k))
  ∧ (∀ (w : worker) prompt_id timeout k e,
       (∀ i, (i < k)%nat → pending prompt_id (w i).1) →
       elapsed_at w k < timeout →
       (w k).1 = Raise e →
       (transient e = true →
        poll_completion w prompt_id timeout
        = poll_completion (unknown_at w k) prompt_id timeout
        ∧ ∃ r n,
            poll_completion w prompt_id timeout = Some (r, n)
            ∧ (k < n)%nat
            ∧ (timeout ≤ elapsed_at w (S k) → r = Raise TimeoutError ∧ n = S k)
            ∧ (elapsed_at w (S k) < timeout → (S k < n)%nat))
       ∧ (transient e = false →
          poll_completion w prompt_id timeout = Some (Raise e, S k))).
Proof.
  split; [| split].
  - intros w prompt_id timeout Hw.
    destruct (poll_completion_total w prompt_id timeout) as [[r n] Hrun].
    exists n. rewrite Hrun. unfold poll_completion in Hrun.
    apply (poll_loop_run w prompt_id timeout _ 0%nat) in Hrun
      as (_ & Hbefore & _ & Hend).
    assert (∀ i, (i < n)%nat → elapsed_at w i < timeout) as Hb
      by (intros i Hi; apply Hbefore; lia).
    destruct Hend as [(-> & Hle & _) | (k & -> & _ & Hset)]; [done |].
    rewrite (pending_sleeps _ _ (Hw k (Hb k ltac:(lia)))) in Hset. done.
  - intros w prompt_id timeout k data entry st Hw Hk Hdata Hentry Hst Herr.
    apply poll_completion_settles; [done | done |].
    rewrite Hdata. simpl. rewrite Hentry, Hst. simpl.
    destruct (default false (completed st)); simpl; [done |].
    destruct (decide (status_str st = Some "error")); [done | done].
  - intros w prompt_id timeout k e Hw Hk Hwk. split; intros He.
    + assert (poll_once prompt_id (w k).1 = Sleep) as Hv
        by (rewrite Hwk; simpl; by rewrite He).
      split; [| by apply poll_completion_sleeps_on].
      apply poll_loop_ext. intros i. unfold unknown_at.
      destruct (decide (i = k)) as [-> | Hne]; [| done].
      simpl. by rewrite Hv.
    + apply poll_completion_settles; [done | done |].
      rewrite Hwk. simpl. by rewrite He.
Qed.

Lemma poller_outcomes_witness :
  (∃ n, poll_completion silent_worker "h" 7 = Some (Raise TimeoutError, n)
        ∧ 7 ≤ elapsed_at silent_worker n
        ∧ ∀ i, (i < n)%nat → elapsed_at silent_worker i < 7)
  ∧ poll_completion failing_worker "h" IMG_TIMEOUT
    = Some (Raise (GenerationFailed oom_messages), 2%nat)
  ∧ poll_completion failing_worker "h" IMG_TIMEOUT
    = poll_completion (unknown_at failing_worker 0) "h" IMG_TIMEOUT
  ∧ poll_completion broken_worker "h" IMG_TIMEOUT
    = Some (Raise (KeyError "status"), 2%nat).
Proof.
  destruct poller_outcomes as (Htimeout & Herror & Hfail).
  split; [| split; [| split]].
  - apply (Htimeout silent_worker "h" 7).
    intros i _. apply pending_unknown. reflexivity.
  - apply (Herror failing_worker "h" IMG_TIMEOUT 1%nat
             (dict [("h", HistoryEntry
                            (Some (StatusInfo (Some false) (Some "error")
                                     (Some oom_messages)))
                            None)])
             (HistoryEntry (Some (StatusInfo (Some false) (Some "error")
                                    (Some oom_messages))) None)
             (StatusInfo (Some false) (Some "error") (Some oom_messages)));
      try reflexivity.
    intros i Hi. assert (i = 0%nat) as -> by lia.
    apply pending_transient. reflexivity.
  - apply (Hfail failing_worker "h" IMG_TIMEOUT 0%nat URLError);
      [intros i Hi; lia | reflexivity | reflexivity | reflexivity].
  - apply (Hfail broken_worker "h" IMG_TIMEOUT 1%nat (KeyError "status"));
      try reflexivity.
    intros i Hi. assert (i = 0%nat) as -> by lia.
    apply pending_unknown. reflexivity.
Defined.

(** With a timeout that is not positive the poller raises the time-out
    at once, without a single request, whatever the worker would say. *)
Theorem poll_nonpositive_timeout (w : worker) (prompt_id : string)
    (timeout : Z) :
  timeout ≤ 0 →
  poll_completion w prompt_id timeout = Some (Raise TimeoutError, 0%nat).
Proof.
  intros Hle. unfold poll_completion. simpl.
  by destruct (Z.ltb_spec 0 timeout) as [? | _]; [lia |].
Qed.

Lemma poll_nonpositive_timeout_witness :
  0 ≤ 0 ∧ poll_completion slow_worker "h" 0 = Some (Raise TimeoutError, 0%nat).
Proof.
  split; [lia |]. apply (poll_nonpositive_timeout slow_worker "h" 0). lia.
Defined.

(** The first reply that does not leave the job pending decides: when it
    comes before the deadline and reports the job completed, the poller
    returns the reported entry at that request. *)
Theorem poll_returns_completed_entry (w : worker) (prompt_id : string)
    (timeout : Z) (k : nat) (entry : history_entry) :
  (∀ i, (i < k)%nat → pending prompt_id (w i).1) →
  elapsed_at w k < timeout →
  completed_report prompt_id (w k).1 entry →
  poll_completion w prompt_id timeout = Some (Ok entry, S k).
Proof.
  intros Hw Hk Hdone.
  destruct (poll_completion_total w prompt_id timeout) as [[r n] Hrun].
  rewrite Hrun. unfold poll_completion in Hrun.
  apply (poll_loop_run w prompt_id timeout _ 0%nat) in Hrun
    as (_ & Hbefore & Hsleep & Hend).
  apply completed_report_returns in Hdone.
  assert (n = S k) as ->.
  { destruct (Nat.lt_trichotomy n (S k)) as [Hlt | [-> | Hgt]]; [| done |].
    - exfalso. destruct Hend as [(_ & Hle & _) | (k' & -> & _ & Hset)].
      + pose proof (elapsed_at_mono w n k ltac:(lia)). lia.
      + rewrite (pending_sleeps _ _ (Hw k' ltac:(lia))) in Hset. done.
    - exfalso. specialize (Hsleep k ltac:(lia) ltac:(lia)). congruence. }
  destruct Hend as [(_ & Hle & Hall) | (k' & [= <-] & _ & Hset)].
  - specialize (Hall k ltac:(lia) ltac:(lia)). congruence.
  - rewrite Hdone in Hset. simpl in Hset. by rewrite Hset.
Qed.

Lemma poll_returns_completed_entry_witness :
  ∃ entry,
    completed_report "h" (slow_worker 2%nat).1 entry
    ∧ poll_completion slow_worker "h" IMG_TIMEOUT = Some (Ok entry, 3%nat).
Proof.
  eexists. split.
  - do 2 eexists. repeat split; reflexivity.
  - apply (poll_returns_completed_entry slow_worker "h" IMG_TIMEOUT 2%nat).
    + intros [| [| i]] Hi; [| | lia].
      * apply pending_transient. reflexivity.
      * apply pending_unknown. reflexivity.
    + vm_compute. reflexivity.
    + do 2 eexists. repeat split; reflexivity.
Defined.

(** The poller never returns an entry that is not completed: an entry it
    returns is the one the worker listed under the handle in the reply to
    the last request, with [completed] true, and that request was made
    before the deadline. *)
Theorem poll_result_is_completed (w : worker) (prompt_id : string)
    (timeout : Z) (entry : history_entry) (n : nat) :
  poll_completion w prompt_id timeout = Some (Ok entry, n) →
  ∃ k, n = S k
       ∧ completed_report prompt_id (w k).1 entry
       ∧ elapsed_at w k < timeout
       ∧ ∀ i, (i < k)%nat → poll_once prompt_id (w i).1 = Sleep.
Proof.
  unfold poll_completion.
  intros (_ & Hbefore & Hsleep & Hend)%(poll_loop_run w prompt_id timeout _ 0%nat).
  destruct Hend as [(? & _) | (k & -> & _ & Hset)]; [done |].
  exists k. split; [done |].
  split.
  - destruct (poll_once prompt_id (w k).1) as [e' | e' |] eqn:Hv;
      simpl in Hset; try done.
    injection Hset as <-. by apply poll_once_return_inv.
  - split; [apply Hbefore; lia |]. intros i Hi. apply Hsleep; lia.
Qed.

Lemma poll_result_is_completed_witness :
  ∃ entry k,
    poll_completion slow_worker "h" IMG_TIMEOUT = Some (Ok entry, 3%nat)
    ∧ 3%nat = S k
    ∧ completed_report "h" (slow_worker k).1 entry
    ∧ elapsed_at slow_worker k < IMG_TIMEOUT.
Proof.
  eexists.
  destruct (poll_result_is_completed slow_worker "h" IMG_TIMEOUT _ 3%nat
              eq_refl) as (k & Hk & Hdone & Hlt & _).
  exists k. split; [reflexivity |]. split; [exact Hk |].
  split; [exact Hdone | exact Hlt].
Defined.

(** However the poller ends, it has made at most one request per
    [POLL_INTERVAL] of the timeout: none when the timeout is not
    positive, and otherwise the last one less than [timeout] seconds in,
    so that [POLL_INTERVAL * (n - 1) < timeout] for [n] requests. *)
Theorem poll_request_bound (w : worker) (prompt_id : string) (timeout : Z)
    (r : outcome history_entry) (n : nat) :
  poll_completion w prompt_id timeout = Some (r, n) →
  n = 0%nat ∨ POLL_INTERVAL * (Z.of_nat n - 1) < timeout.
Proof.
  unfold poll_completion.
  intros (_ & Hbefore & _)%(poll_loop_run w prompt_id timeout _ 0%nat).
  destruct n as [| k]; [by left | right].
  specialize (Hbefore k ltac:(lia) ltac:(lia)).
  pose proof (elapsed_at_lower w k). lia.
Qed.

Lemma poll_request_bound_witness :
  poll_completion silent_worker "h" 7 = Some (Raise TimeoutError, 3%nat)
  ∧ (3%nat = 0%nat ∨ POLL_INTERVAL * (Z.of_nat 3 - 1) < 7).
Proof.
  split; [reflexivity |].
  apply (poll_request_bound silent_worker "h" 7 (Raise TimeoutError) 3%nat).
  reflexivity.
Defined.

(** An exception of the request that is not in the caught classes leaves
    the poller at once with that exception: it is neither retried nor
    turned into a time-out. *)
Theorem poll_uncaught_exception_propagates (w : worker) (prompt_id : string)
    (timeout : Z) (k : nat) (e : exn) :
  (∀ i, (i < k)%nat → pending prompt_id (w i).1) →
  elapsed_at w k < timeout →
  (w k).1 = Raise e →
  transient e = false →
  poll_completion w prompt_id timeout = Some (Raise e, S k).
Proof.
  intros Hw Hk Hwk He.
  assert (poll_once prompt_id (w k).1 = Throw e) as Hv
    by (rewrite Hwk; simpl; by rewrite He).
  destruct (poll_completion_total w prompt_id timeout) as [[r n] Hrun].
  rewrite Hrun. unfold poll_completion in Hrun.
  apply (poll_loop_run w prompt_id timeout _ 0%nat) in Hrun
    as (_ & Hbefore & Hsleep & Hend).
  assert (n = S k) as ->.
  { destruct (Nat.lt_trichotomy n (S k)) as [Hlt | [-> | Hgt]]; [| done |].
    - exfalso. destruct Hend as [(_ & Hle & _) | (k' & -> & _ & Hset)].
      + pose proof (elapsed_at_mono w n k ltac:(lia)). lia.
      + rewrite (pending_sleeps _ _ (Hw k' ltac:(lia))) in Hset. done.
    - exfalso. specialize (Hsleep k ltac:(lia) ltac:(lia)). congruence. }
  destruct Hend as [(_ & Hle & Hall) | (k' & [= <-] & _ & Hset)].
  - specialize (Hall k ltac:(lia) ltac:(lia)). congruence.
  - rewrite Hv in Hset. simpl in Hset. by rewrite Hset.
Qed.

Lemma poll_uncaught_exception_propagates_witness :
  poll_completion broken_worker "h" IMG_TIMEOUT
  = Some (Raise (KeyError "status"), 2%nat).
Proof.
  apply (poll_uncaught_exception_propagates broken_worker "h" IMG_TIMEOUT 1%nat
           (KeyError "status")).
  - intros i Hi. assert (i = 0%nat) as -> by lia.
    apply pending_unknown. reflexivity.
  - vm_compute. reflexivity.
  - reflexivity.
  - reflexivity.
Defined.

End PollerFacts.

(** ** The prober *)

Module ProberFacts.
Import Prober.

(** *** The sort *)

Lemma load_leb_total a b : load_leb a b = false → load_leb b a = true.
Proof.
  destruct a as [m|], b as [n|]; simpl; try done.
  intros H%Nat.leb_gt. apply Nat.leb_le. lia.
Qed.

Lemma load_leb_trans a b c :
  load_leb a b = true → load_leb b c = true → load_leb a c = true.
Proof.
  destruct a as [m|], b as [n|], c as [o|]; simpl; try done.
  intros H1%Nat.leb_le H2%Nat.leb_le. apply Nat.leb_le. lia.
Qed.

Lemma key_leb_total a b : key_leb a b = false → key_leb b a = true.
Proof.
  destruct a as [[|] la], b as [[|] lb]; unfold key_leb; simpl; try done;
    apply load_leb_total.
Qed.

Lemma key_leb_trans a b c :
  key_leb a b = true → key_leb b c = true → key_leb a c = true.
Proof.
  destruct a as [[|] la], b as [[|] lb], c as [[|] lc];
    unfold key_leb; simpl; try done; apply load_leb_trans.
Qed.

(** Two keys that are below each other are the same key. *)
Lemma key_leb_antisym a b :
  key_leb a b = true → key_leb b a = true → a = b.
Proof.
  destruct a as [[|] [m|]], b as [[|] [n|]]; unfold key_leb; simpl; try done.
  all: intros H1%Nat.leb_le H2%Nat.leb_le; do 2 f_equal; lia.
Qed.

Lemma insert_by_key_perm s l : insert_by_key s l ≡ₚ s :: l.
Proof.
  induction l as [| t l IH]; simpl; [done |].
  destruct (key_leb (sort_key s) (sort_key t)); [done |].
  rewrite IH. apply Permutation_swap.
Qed.

Lemma sort_by_key_perm l : sort_by_key l ≡ₚ l.
Proof.
  induction l as [| s l IH]; simpl; [done |].
  by rewrite insert_by_key_perm, IH.
Qed.

Lemma insert_by_key_sorted s l :
  StronglySorted key_le l → StronglySorted key_le (insert_by_key s l).
Proof.
  induction 1 as [| t l Hl IH Ht]; simpl.
  - repeat constructor.
  - destruct (key_leb (sort_key s) (sort_key t)) eqn:Hst.
    + constructor; [by constructor |].
      constructor; [done |].
      eapply Forall_impl; [exact Ht |].
      intros u Hu. unfold key_le in *. by eapply key_leb_trans.
    + constructor; [done |].
      rewrite insert_by_key_perm. constructor; [| done].
      by apply key_leb_total.
Qed.

Lemma sort_by_key_sorted l : StronglySorted key_le (sort_by_key l).
Proof.
  induction l as [| s l IH]; simpl; [constructor |].
  by apply insert_by_key_sorted.
Qed.

(** Inserting [s] leaves the elements of another key untouched, and puts
    [s] in front of the elements of its own key when the list is sorted. *)
Lemma tied_insert_other k s l :
  sort_key s ≠ k → tied k (insert_by_key s l) = tied k l.
Proof.
  intros Hk. unfold tied.
  induction l as [| t l IH]; simpl.
  - by rewrite filter_cons_False.
  - destruct (key_leb (sort_key s) (sort_key t)).
    + by rewrite (filter_cons_False _ s).
    + rewrite !(filter_cons _ t), IH. done.
Qed.

Lemma tied_insert_same s l :
  StronglySorted key_le l →
  tied (sort_key s) (insert_by_key s l) = s :: tied (sort_key s) l.
Proof.
  unfold tied. induction 1 as [| t l Hl IH Ht]; simpl.
  - by rewrite filter_cons_True.
  - destruct (key_leb (sort_key s) (sort_key t)) eqn:Hst.
    + by rewrite (filter_cons_True _ s).
    + assert (sort_key t ≠ sort_key s) as Hne.
      { intros Heq. rewrite Heq in Hst.
        destruct (sort_key s) as [[|] [n|]]; unfold key_leb in Hst;
          simpl in Hst; try done.
        all: apply Nat.leb_gt in Hst; lia. }
      by rewrite !(filter_cons_False _ t), IH.
Qed.

(** The sort is stable. *)
Lemma sort_by_key_stable k l : tied k (sort_by_key l) = tied k l.
Proof.
  induction l as [| s l IH]; simpl; [done |].
  destruct (decide (sort_key s = k)) as [<- | Hne].
  - rewrite tied_insert_same by apply sort_by_key_sorted.
    rewrite IH. unfold tied. by rewrite filter_cons_True.
  - rewrite tied_insert_other by done.
    rewrite IH. unfold tied. by rewrite filter_cons_False.
Qed.

Lemma filter_all {A} (P : A → Prop) `{!∀ x, Decision (P x)} (l : list A) :
  Forall P l → filter P l = l.
Proof.
  induction 1 as [| x l Hx _ IH]; [done |].
  by rewrite filter_cons_True, IH.
Qed.

Lemma filter_none {A} (P : A → Prop) `{!∀ x, Decision (P x)} (l : list A) :
  Forall (fun x => ¬ P x) l → filter P l = [].
Proof.
  induction 1 as [| x l Hx _ IH]; [done |].
  by rewrite filter_cons_False.
Qed.

Lemma sorted_online_first out :
  StronglySorted key_le out → online_first_by_load out.
Proof.
  induction 1 as [| s l Hl [IH1 IH2] Hs]; [split; [done | constructor] |].
  destruct (online s) eqn:Hon.
  - split.
    + rewrite (filter_cons_True _ s), (filter_cons_False _ s) by congruence.
      simpl. by rewrite <- IH1.
    + rewrite (filter_cons_True _ s) by done.
      constructor; [done |].
      apply Forall_forall. intros t [Ht Hin]%list_elem_of_filter.
      rewrite Forall_forall in Hs. specialize (Hs t Hin).
      unfold key_le, key_leb, sort_key in Hs. simpl in Hs.
      by rewrite Hon, Ht in Hs.
  - assert (Forall (fun t => online t = false) l) as Hoff.
    { eapply Forall_impl; [exact Hs |]. intros t Ht.
      unfold key_le, key_leb, sort_key in Ht. simpl in Ht.
      rewrite Hon in Ht. by destruct (online t). }
    assert (filter (fun t => online t = true) l = []) as Hnil.
    { apply filter_none. eapply Forall_impl; [exact Hoff |].
      simpl. congruence. }
    assert (filter (fun t => online t = false) l = l) as Hall.
    { by apply filter_all. }
    split.
    + rewrite (filter_cons_False _ s), (filter_cons_True _ s) by congruence.
      by rewrite Hnil, Hall.
    + rewrite (filter_cons_False _ s) by congruence. rewrite Hnil. constructor.
Qed.

(** *** The probe loop *)

Lemma probe_results_recorded finished :
  Forall (fun f : probe => ∀ e, f.2 = Raise e → caught e = true) finished →
  probe_results finished = Ok (recorded <$> finished).
Proof.
  unfold probe_results.
  induction 1 as [| [u r] l Hf _ IH]; [done |].
  simpl in *. rewrite IH. unfold recorded. simpl.
  destruct r as [data | e]; simpl; [done |].
  by rewrite (Hf e eq_refl).
Qed.

Lemma futures_urls servers net : (futures servers net).*1 = servers.
Proof.
  unfold futures. revert net.
  induction servers as [| u l IH]; intros net; [done |].
  simpl. f_equal. apply (IH (fun i => net (S i))).
Qed.

Lemma futures_lookup servers net i u :
  servers !! i = Some u → (u, net i u) ∈ futures servers net.
Proof.
  intros Hi. apply list_elem_of_lookup. exists i.
  unfold futures. by rewrite list_lookup_imap, Hi.
Qed.

Lemma futures_elem servers net (f : probe) :
  f ∈ futures servers net →
  ∃ i u, servers !! i = Some u ∧ f = (u, net i u).
Proof.
  intros (i & Hi)%list_elem_of_lookup.
  unfold futures in Hi. rewrite list_lookup_imap in Hi.
  destruct (servers !! i) as [u|] eqn:Hu; simpl in Hi; [| done].
  exists i, u. split; congruence.
Qed.

Lemma recorded_url (l : list probe) : url <$> (recorded <$> l) = l.*1.
Proof.
  induction l as [| [u r] l IH]; [done |].
  simpl. f_equal; [unfold recorded; by destruct r | exact IH].
Qed.

(** With the configured [SERVERS] the pool is created, and the prober is
    the loop over the finished probes followed by the sort. *)
Lemma check_all_servers_eq finished :
  check_all_servers finished
  = (results ← probe_results finished; Ok (sort_by_key results)).
Proof. reflexivity. Qed.

Lemma check_all_servers_on_nonempty servers finished :
  servers ≠ [] →
  check_all_servers_on servers finished
  = (results ← probe_results finished; Ok (sort_by_key results)).
Proof. by destruct servers. Qed.

(** The loop raises as soon as one probe fails outside the caught
    classes. *)
Lemma probe_results_raises (finished : list probe) (f : probe) e :
  f ∈ finished → f.2 = Raise e → caught e = false →
  ∃ e', probe_results finished = Raise e' ∧ caught e' = false.
Proof.
  unfold probe_results. intros Hin Hf He.
  induction finished as [| g l IH]; [by apply elem_of_nil in Hin |].
  simpl. apply elem_of_cons in Hin as [<- | Hin].
  - rewrite Hf. simpl. rewrite He. simpl. eauto.
  - destruct (IH Hin) as (e' & -> & He').
    destruct (check_server g.1 g.2) as [s | e0] eqn:Hg; simpl; [eauto |].
    exists e0. split; [done |].
    unfold check_server in Hg. destruct g.2 as [data | e1]; [done |].
    destruct (caught e1) eqn:H1; congruence.
Qed.

(** What the body of the [try] makes of a response: an exception of the
    request or of [json.loads] is passed on, a decoded value that is not
    an object raises [AttributeError], and an object gives its queues
    unless one of the two is a number, a truth value or null, in which
    case [len] raises [TypeError]. *)
Lemma read_queue_cases (response : outcome json) :
  match response with
  | Raise e => read_queue response = Raise e
  | Ok (JObject members) =>
      if queues_have_len members
      then ∃ q, read_queue response = Ok q
      else read_queue response = Raise TypeError
  | Ok _ => read_queue response = Raise AttributeError
  end.
Proof.
  destruct response as [[ | b | n | q | s | items | members] | e]; try done.
  unfold read_queue, queues_have_len. simpl.
  destruct (dict members !! "queue_running") as [v1 |]; simpl;
    [destruct v1; simpl; try done |];
    (destruct (dict members !! "queue_pending") as [v2 |]; simpl;
     [destruct v2; simpl; try done; eauto | eauto]).
Qed.

(** C5, counterexample. Of the four configured workers the third answers
    the probe with valid JSON that is a list and not an object.  The
    [AttributeError] this raises in [check_server] is not among the
    caught classes: it leaves [check_all_servers], and no status list is
    returned, in whatever order the probes complete. *)
Lemma malformed_body_fails_probe :
  read_queue (wrong_shape_pool 2 "http://neumann.gazelle-galaxy.ts.net:8188")
  = Raise AttributeError
  ∧ check_all_servers_on SERVERS
      (futures SERVERS (fun i u => read_queue (wrong_shape_pool i u)))
    = Raise AttributeError
  ∧ ∀ finished,
      finished ≡ₚ futures SERVERS (fun i u => read_queue (wrong_shape_pool i u)) →
      ¬ always_complete SERVERS finished.
Proof.
  split; [reflexivity |]. split; [reflexivity |].
  intros finished Hperm (out & Hout & _).
  destruct (probe_results_raises finished
              ("http://neumann.gazelle-galaxy.ts.net:8188", Raise AttributeError)
              AttributeError) as (e' & He' & _); [| done | done |].
  - rewrite Hperm. do 2 apply list_elem_of_further. apply list_elem_of_here.
  - rewrite check_all_servers_on_nonempty in Hout by done.
    rewrite He' in Hout. discriminate Hout.
Qed.

(** C5, amended. Let the probes of a configured worker list complete in
    any order.  (1) When the list is empty, the pool cannot be created
    and the prober raises [ValueError].  (2) When the list is not empty
    and every worker either answers with a JSON object whose two queues,
    if present, have a length, or fails with one of the classes that
    [check_server] names ([URLError], [OSError], [JSONDecodeError],
    [TimeoutError]), the prober returns exactly one status per configured
    worker: the offline status with infinite load for a worker that
    failed, the online status with the lengths of its queues for a worker
    that answered.  (3) When the probe of some worker fails in another
    way, the prober raises an exception that is not of the caught classes
    and returns no list.  (4) A response that is malformed is of either
    kind: text that is not JSON fails with the caught [JSONDecodeError],
    while a body that is not text ([UnicodeDecodeError]), a decoded value
    that is not an object ([AttributeError]) and an object with a queue
    that has no length ([TypeError]) fail the whole probe. *)
Theorem probe_all_complete (servers : list string)
    (respond : nat → string → outcome json) (finished : list probe) :
  finished ≡ₚ futures servers (fun i u => read_queue (respond i u)) →
  (servers = [] → check_all_servers_on servers finished = Raise ValueError)
  ∧ (servers ≠ [] →
     (∀ i u e, servers !! i = Some u →
               read_queue (respond i u) = Raise e → caught e = true) →
     ∃ out,
       check_all_servers_on servers finished = Ok out
       ∧ url <$> out ≡ₚ servers
       ∧ length out = length servers
       ∧ ∀ i u, servers !! i = Some u →
           match read_queue (respond i u) with
           | Raise _ => ServerStatus u false 0 0 Infinity ∈ out
           | Ok data =>
               ServerStatus u true
                 (length (default [] (queue_running data)))
                 (length (default [] (queue_pending data)))
                 (Finite (length (default [] (queue_running data))
                          + length (default [] (queue_pending data)))) ∈ out
           end)
  ∧ (∀ i u e, servers !! i = Some u →
              read_queue (respond i u) = Raise e → caught e = false →
              ∃ e', check_all_servers_on servers finished = Raise e'
                    ∧ caught e' = false)
  ∧ (∀ i u,
       match respond i u with
       | Raise e => read_queue (respond i u) = Raise e
       | Ok (JObject members) =>
           if queues_have_len members
           then ∃ q, read_queue (respond i u) = Ok q
           else read_queue (respond i u) = Raise TypeError
       | Ok _ => read_queue (respond i u) = Raise AttributeError
       end)
  ∧ caught JSONDecodeError = true
  ∧ caught UnicodeDecodeError = false
  ∧ caught AttributeError = false
  ∧ caught TypeError = false.
Proof.
  intros Hperm.
  split; [by intros -> |].
  split; [| split; [| split; [intros i u; apply read_queue_cases | done]]].
  - intros Hne Hnet.
    rewrite check_all_servers_on_nonempty by done.
    assert (probe_results finished = Ok (recorded <$> finished)) as Hres.
    { apply probe_results_recorded, Forall_forall. intros f Hf e He.
      rewrite Hperm in Hf. apply futures_elem in Hf as (i & u & Hu & ->).
      by apply (Hnet i u). }
    exists (sort_by_key (recorded <$> finished)).
    assert (url <$> sort_by_key (recorded <$> finished) ≡ₚ servers) as Hurls.
    { rewrite sort_by_key_perm, recorded_url, Hperm. by rewrite futures_urls. }
    split; [by rewrite Hres |].
    split; [done |].
    split; [by rewrite <- (length_fmap url), Hurls |].
    intros i u Hu.
    assert (recorded (u, read_queue (respond i u))
            ∈ sort_by_key (recorded <$> finished)) as Hin.
    { rewrite sort_by_key_perm. apply list_elem_of_fmap_2.
      rewrite Hperm.
      by apply (futures_lookup servers (fun i u => read_queue (respond i u))). }
    unfold recorded in Hin. simpl in Hin.
    by destruct (read_queue (respond i u)).
  - intros i u e Hu He Hc.
    assert (servers ≠ []) as Hne by (intros ->; done).
    rewrite check_all_servers_on_nonempty by done.
    destruct (probe_results_raises finished (u, read_queue (respond i u)) e)
      as (e' & -> & He'); [| done | done | by exists e'].
    rewrite Hperm.
    by apply (futures_lookup servers (fun i u => read_queue (respond i u))).
Qed.

Lemma probe_all_complete_witness :
  reverse (futures SERVERS (fun i u => read_queue (garbage_pool i u)))
  ≡ₚ futures SERVERS (fun i u => read_queue (garbage_pool i u))
  ∧ SERVERS ≠ []
  ∧ ∃ out,
      check_all_servers_on SERVERS
        (reverse (futures SERVERS (fun i u => read_queue (garbage_pool i u))))
      = Ok out
      ∧ url <$> out ≡ₚ SERVERS
      ∧ length out = length SERVERS.
Proof.
  split; [apply reverse_Permutation |]. split; [discriminate |].
  destruct (probe_all_complete SERVERS garbage_pool
              (reverse (futures SERVERS
                          (fun i u => read_queue (garbage_pool i u)))))
    as (_ & Hok & _); [apply reverse_Permutation |].
  destruct Hok as (out & Hout & Hurls & Hlen & _).
  - discriminate.
  - intros [| [| [| i]]] u e _ He; simpl in He; try discriminate He;
      injection He as <-; reflexivity.
  - exists out. split; [exact Hout |]. split; [exact Hurls | exact Hlen].
Defined.

(** What the prober returns on the configured pool when the first worker
    has two jobs, the second is idle and the others time out. *)
Example check_all_servers_mixed :
  check_all_servers (reverse (futures SERVERS mixed_pool))
  = Ok [ ServerStatus "http://wright.gazelle-galaxy.ts.net:8199" true 0 0 (Finite 0);
         ServerStatus "http://wright.gazelle-galaxy.ts.net:8188" true 2 0 (Finite 2);
         ServerStatus "http://neumann.gazelle-galaxy.ts.net:8199" false 0 0 Infinity;
         ServerStatus "http://neumann.gazelle-galaxy.ts.net:8188" false 0 0 Infinity ].
Proof. reflexivity. Qed.

(** C6, counterexample. With all four configured workers down and the
    probes completing in the reverse of the configuration order, the
    offline workers come out in completion order, not in configuration
    order. *)
Lemma ties_not_in_configuration_order :
  reverse (futures SERVERS all_down) ≡ₚ futures SERVERS all_down
  ∧ ¬ ordered_with_configured_ties SERVERS all_down
        (reverse (futures SERVERS all_down)).
Proof.
  split; [apply reverse_Permutation |].
  intros H. edestruct H as [_ Ht]; [reflexivity | reflexivity |].
  specialize (Ht (true, Infinity)). vm_compute in Ht. discriminate Ht.
Qed.

(** C6, amended. For every probe outcome, the list returned by
    [check_all_servers] holds the probe results with all online workers
    first, in ascending order of load, followed by all offline workers;
    workers of equal load, and likewise the offline workers, appear in
    the order in which their probes completed. *)
Theorem probe_order (finished : list probe) (results : list server_status) :
  probe_results finished = Ok results →
  ∃ out,
    check_all_servers finished = Ok out
    ∧ out ≡ₚ results
    ∧ online_first_by_load out
    ∧ ties_ordered_as results out.
Proof.
  intros Hres. exists (sort_by_key results).
  split; [rewrite check_all_servers_eq; by rewrite Hres |].
  split; [apply sort_by_key_perm |].
  split; [apply sorted_online_first, sort_by_key_sorted |].
  intros k. apply sort_by_key_stable.
Qed.

Lemma probe_order_witness :
  probe_results (reverse (futures SERVERS mixed_pool))
  = Ok (recorded <$> reverse (futures SERVERS mixed_pool))
  ∧ ∃ out,
      check_all_servers (reverse (futures SERVERS mixed_pool)) = Ok out
      ∧ out ≡ₚ recorded <$> reverse (futures SERVERS mixed_pool)
      ∧ online_first_by_load out
      ∧ ties_ordered_as (recorded <$> reverse (futures SERVERS mixed_pool)) out.
Proof.
  split; [reflexivity |].
  apply (probe_order (reverse (futures SERVERS mixed_pool))).
  reflexivity.
Defined.

(** *** Further properties of the prober *)

Lemma find_online_sorted l :
  StronglySorted key_le l →
  match List.find online l with
  | Some s =>
      s ∈ l ∧ online s = true
      ∧ ∀ t, t ∈ l → online t = true → load_leb (load s) (load t) = true
  | None => Forall (fun t => online t = false) l
  end.
Proof.
  induction 1 as [| s l Hl IH Hs]; simpl; [constructor |].
  destruct (online s) eqn:Hon.
  - split; [apply list_elem_of_here |]. split; [done |].
    intros t [-> | Ht]%elem_of_cons Hton.
    + destruct (load s) as [m |]; simpl; [by apply Nat.leb_le | done].
    + rewrite Forall_forall in Hs. specialize (Hs t Ht).
      unfold key_le, key_leb, sort_key in Hs. simpl in Hs.
      by rewrite Hon, Hton in Hs.
  - assert (Forall (fun t => online t = false) l) as Hoff.
    { eapply Forall_impl; [exact Hs |]. intros t Ht.
      unfold key_le, key_leb, sort_key in Ht. simpl in Ht.
      rewrite Hon in Ht. by destruct (online t). }
    destruct (List.find online l) as [t |] eqn:Hfind.
    + destruct IH as (Hin & Hton & _).
      rewrite Forall_forall in Hoff. specialize (Hoff t Hin). congruence.
    + by constructor.
Qed.

Lemma recorded_online (f : probe) :
  online (recorded f) = true ↔ ∃ data, f.2 = Ok data.
Proof.
  unfold recorded. destruct f as [u [data | e]]; simpl.
  - split; eauto.
  - split; [done | by intros [? ?]].
Qed.

Lemma recorded_load u data :
  load (recorded (u, Ok data)) = Finite (queue_load data).
Proof. reflexivity. Qed.

Lemma best_server_least_loaded_aux (finished : list probe) :
  Forall benign finished →
  ∃ best,
    get_best_server finished = Ok best
    ∧ (best = None ↔ Forall (fun f : probe => ∃ e, f.2 = Raise e) finished)
    ∧ ∀ u, best = Some u →
        ∃ data, (u, Ok data) ∈ finished
                ∧ ∀ v data', (v, Ok data') ∈ finished →
                    (queue_load data ≤ queue_load data')%nat.
Proof.
  intros Hok.
  pose proof (probe_results_recorded finished Hok) as Hres.
  unfold get_best_server. rewrite check_all_servers_eq, Hres. simpl.
  pose proof (find_online_sorted _ (sort_by_key_sorted (recorded <$> finished)))
    as Hfind.
  destruct (List.find online (sort_by_key (recorded <$> finished)))
    as [s |] eqn:Hs.
  - destruct Hfind as (Hin & Hon & Hmin).
    rewrite sort_by_key_perm in Hin.
    apply list_elem_of_fmap in Hin as ([u r] & -> & Hf).
    apply recorded_online in Hon as [data Hd]. simpl in Hd. subst r.
    eexists. split; [reflexivity |]. split.
    + split; [done |]. intros Hall. rewrite Forall_forall in Hall.
      destruct (Hall _ Hf) as [e He]. done.
    + intros u' [= <-]. exists data. split; [done |].
      intros v data' Hv.
      assert (recorded (v, Ok data') ∈ sort_by_key (recorded <$> finished))
        as Hv'.
      { rewrite sort_by_key_perm. by apply list_elem_of_fmap_2. }
      specialize (Hmin _ Hv' eq_refl).
      rewrite !recorded_load in Hmin. simpl in Hmin. by apply Nat.leb_le.
  - eexists. split; [reflexivity |]. split; [| done].
    split; [| done]. intros _. apply Forall_forall. intros [u r] Hf.
    assert (recorded (u, r) ∈ sort_by_key (recorded <$> finished)) as Hin.
    { rewrite sort_by_key_perm. by apply list_elem_of_fmap_2. }
    rewrite Forall_forall in Hfind. specialize (Hfind _ Hin).
    destruct r as [data | e]; [done | eauto].
Qed.

(** When every failing probe fails with a caught class, [get_best_server]
    returns [None] exactly when no probe was answered, and otherwise the
    url of a worker that answered and whose load, the length of its two
    queues, is at most the load of every worker that answered. *)
Theorem best_server_least_loaded (finished : list probe) :
  Forall benign finished →
  ∃ best,
    get_best_server finished = Ok best
    ∧ (best = None ↔ Forall (fun f : probe => ∃ e, f.2 = Raise e) finished)
    ∧ ∀ u, best = Some u →
        ∃ data, (u, Ok data) ∈ finished
                ∧ ∀ v data', (v, Ok data') ∈ finished →
                    (queue_load data ≤ queue_load data')%nat.
Proof. apply best_server_least_loaded_aux. Qed.

Lemma best_server_least_loaded_witness :
  Forall benign (reverse (futures SERVERS mixed_pool))
  ∧ ∃ best,
      get_best_server (reverse (futures SERVERS mixed_pool)) = Ok best
      ∧ best = Some "http://wright.gazelle-galaxy.ts.net:8199".
Proof.
  assert (Forall benign (reverse (futures SERVERS mixed_pool))) as Hok.
  { repeat constructor; intros e He; simpl in He; try discriminate He;
      injection He as <-; reflexivity. }
  split; [exact Hok |].
  destruct (best_server_least_loaded _ Hok) as (best & Hbest & _).
  exists best. split; [exact Hbest |].
  assert (Ok best
          = (Ok (Some "http://wright.gazelle-galaxy.ts.net:8199")
             : outcome (option string))) as Heq
    by (rewrite <- Hbest; reflexivity).
  by injection Heq.
Defined.

Lemma probe_results_app_raise pre u e rest :
  Forall benign pre → caught e = false →
  probe_results (pre ++ (u, Raise e) :: rest) = Raise e.
Proof.
  intros Hpre He. unfold probe_results.
  induction Hpre as [| [v r] pre Hf _ IH]; simpl.
  - by rewrite He.
  - rewrite IH. destruct r as [data | e']; simpl; [done |].
    by rewrite (Hf e' eq_refl).
Qed.

(** A probe that fails outside the caught classes makes the whole
    operation fail: [check_all_servers] and [get_best_server] raise the
    exception of the first such probe in completion order, whatever the
    other workers answered. *)
Theorem uncaught_probe_failure_propagates (pre rest : list probe)
    (u : string) (e : exn) :
  Forall benign pre →
  caught e = false →
  check_all_servers (pre ++ (u, Raise e) :: rest) = Raise e
  ∧ get_best_server (pre ++ (u, Raise e) :: rest) = Raise e.
Proof.
  intros Hpre He. unfold get_best_server. rewrite check_all_servers_eq.
  by rewrite (probe_results_app_raise pre u e rest Hpre He).
Qed.

Lemma uncaught_probe_failure_propagates_witness :
  check_all_servers (futures SERVERS faulty_pool) = Raise (KeyError "queue")
  ∧ get_best_server (futures SERVERS faulty_pool) = Raise (KeyError "queue").
Proof.
  apply (uncaught_probe_failure_propagates
           (take 2 (futures SERVERS faulty_pool))
           (drop 3 (futures SERVERS faulty_pool))
           "http://neumann.gazelle-galaxy.ts.net:8188" (KeyError "queue")).
  - repeat constructor; intros e He; simpl in He; try discriminate He;
      injection He as <-; reflexivity.
  - reflexivity.
Defined.

Lemma get_best_server_app_raise (pre : list probe) u e (rest : list probe) :
  Forall benign pre → caught e = false →
  get_best_server (pre ++ (u, Raise e) :: rest) = Raise e.
Proof.
  intros Hpre He. unfold get_best_server. rewrite check_all_servers_eq.
  by rewrite (probe_results_app_raise pre u e rest Hpre He).
Qed.

(** [submit_prompt] of the load balancer.  When every failing probe
    fails with a caught class: if no probe was answered it raises its own
    error, whatever the request to [/prompt] would give; if some probe
    was answered it posts the workflow to a least-loaded worker that
    answered and returns that worker's url with the decoded body, or
    raises what the request raised.  When a probe fails with an
    exception that is not caught, it raises the exception of the first
    such probe in completion order, whatever the other workers answered
    and whatever the request to [/prompt] would give. *)
Theorem submit_prompt_least_loaded {A : Type} (finished : list probe)
    (post : string → graph → outcome A) (workflow : graph) :
  (Forall benign finished →
   (Forall (fun f : probe => ∃ e, f.2 = Raise e) finished
    ∧ submit_prompt finished post workflow
      = Raise (RuntimeError "No ComfyUI servers available"))
   ∨ (∃ u data,
        (u, Ok data) ∈ finished
        ∧ (∀ v data', (v, Ok data') ∈ finished →
             (queue_load data ≤ queue_load data')%nat)
        ∧ submit_prompt finished post workflow
          = match post u workflow with
            | Ok body => Ok (u, body)
            | Raise e => Raise e
            end))
  ∧ (∀ (pre rest : list probe) (u : string) (e : exn),
       finished = (pre ++ ((u, Raise e) : probe) :: rest)%list →
       Forall benign pre →
       caught e = false →
       submit_prompt finished post workflow = Raise e).
Proof.
  split.
  - intros Hok.
    destruct (best_server_least_loaded_aux finished Hok)
      as (best & Hbest & Hnone & Hsome).
    unfold submit_prompt. rewrite Hbest. simpl.
    destruct best as [u |].
    + right. destruct (Hsome u eq_refl) as (data & Hin & Hmin).
      exists u, data. split; [done |]. split; [done |].
      by destruct (post u workflow).
    + left. split; [by apply Hnone | done].
  - intros pre rest u e -> Hpre He.
    pose proof (get_best_server_app_raise pre u e rest Hpre He) as Hbest.
    unfold submit_prompt. unfold probe in *. by rewrite Hbest.
Qed.

Lemma submit_prompt_least_loaded_witness :
  Forall benign (futures SERVERS all_down)
  ∧ submit_prompt (futures SERVERS all_down)
      (fun _ _ => Ok "accepted") ∅
    = Raise (RuntimeError "No ComfyUI servers available")
  ∧ submit_prompt (futures SERVERS faulty_pool)
      (fun _ _ => Ok "accepted") ∅
    = Raise (KeyError "queue").
Proof.
  assert (Forall benign (futures SERVERS all_down)) as Hok.
  { repeat constructor; intros e He; simpl in He;
      injection He as <-; reflexivity. }
  split; [exact Hok |]. split.
  - destruct (submit_prompt_least_loaded (futures SERVERS all_down)
                (fun _ _ => Ok "accepted") ∅) as [Hbenign _].
    destruct (Hbenign Hok) as [[_ Hraise] | (u & data & Hin & _)].
    + exact Hraise.
    + exfalso. vm_compute in Hin.
      repeat (apply elem_of_cons in Hin as [Hin | Hin]; [discriminate Hin |]).
      by apply elem_of_nil in Hin.
  - destruct (submit_prompt_least_loaded (futures SERVERS faulty_pool)
                (fun _ _ => Ok "accepted") ∅) as [_ Hraise].
    apply (Hraise (take 2 (futures SERVERS faulty_pool))
             (drop 3 (futures SERVERS faulty_pool))
             "http://neumann.gazelle-galaxy.ts.net:8188" (KeyError "queue")).
    + reflexivity.
    + repeat constructor; intros e He; simpl in He; try discriminate He;
        injection He as <-; reflexivity.
    + reflexivity.
Defined.

End ProberFacts.

(** ** Paths *)

Module PathFacts.
Import Path.

Example splitext_png :
  splitext "gentest_00001_.png" = ("gentest_00001_", ".png").
Proof. reflexivity. Qed.

Example splitext_last_dot : splitext "clip.tar.gz" = ("clip.tar", ".gz").
Proof. reflexivity. Qed.

Example splitext_no_dot : splitext "frame" = ("frame", "").
Proof. reflexivity. Qed.

Example splitext_leading_dot : splitext ".hidden" = (".hidden", "").
Proof. reflexivity. Qed.

Example splitext_dot_in_folder : splitext "out.d/frame" = ("out.d/frame", "").
Proof. reflexivity. Qed.

Example join_plain : join "/repo/test" "a-c01-sd35.png" = "/repo/test/a-c01-sd35.png".
Proof. reflexivity. Qed.

Example join_absolute : join "/repo/test" "/tmp/x.png" = "/tmp/x.png".
Proof. reflexivity. Qed.

Example basename_path : basename "/repo/test/a-c01-sd35.png" = "a-c01-sd35.png".
Proof. reflexivity. Qed.

End PathFacts.

(** ** The stages *)

Module StageFacts.
Import Stage.

(** *** Routing *)

(** C4, counterexample. With only [WRIGHT] online, a [flux_dev] job,
    whose configured server is [NEUMANN], is skipped: it is not sent to
    the online worker. *)
Lemma offline_affinity_is_skipped :
  route_image [WRIGHT] "flux_dev" = Ok None
  ∧ ¬ falls_back_when_offline.
Proof.
  split; [reflexivity |].
  intros H. destruct (H [WRIGHT] "flux_dev" NEUMANN) as (s & _ & Hs).
  - reflexivity.
  - intros Hin%list_elem_of_singleton. discriminate Hin.
  - discriminate.
  - discriminate Hs.
Qed.

(** C4, amended. For every pipeline family with a configured server and
    every non-empty list of online workers, the job goes to the
    configured server when that server is online, and is skipped
    otherwise, also when other workers are online; no other worker is
    chosen and no load is consulted. *)
Theorem route_image_configured (net : network) (servers : list string)
    (model server : string) :
  MODEL_SERVER !! model = Some server →
  servers ≠ [] →
  (server ∈ servers → route_image servers model = Ok (Some server))
  ∧ (server ∉ servers →
     route_image servers model = Ok None
     ∧ ∀ job w submitted,
         ImageJob.model job = model →
         submit_images net servers [job] w submitted
         = Ok (emit w (Printed (Skipped (ImageJob.filename job))), submitted)).
Proof.
  intros Hm Hne. destruct servers as [| s0 l]; [done |].
  unfold route_image. simpl. rewrite Hm. simpl.
  split; intros Hin.
  - by rewrite decide_True.
  - split; [by rewrite decide_False |].
    intros job w submitted ->. simpl. unfold route_image. simpl.
    rewrite Hm. simpl. by rewrite decide_False.
Qed.

Lemma route_image_configured_witness :
  MODEL_SERVER !! "flux_dev" = Some NEUMANN
  ∧ [WRIGHT] ≠ []
  ∧ (NEUMANN ∈ [WRIGHT] → route_image [WRIGHT] "flux_dev" = Ok (Some NEUMANN))
  ∧ (NEUMANN ∉ [WRIGHT] →
     route_image [WRIGHT] "flux_dev" = Ok None
     ∧ ∀ job w submitted,
         ImageJob.model job = "flux_dev" →
         submit_images steady [WRIGHT] [job] w submitted
         = Ok (emit w (Printed (Skipped (ImageJob.filename job))), submitted)).
Proof.
  split; [reflexivity |]. split; [discriminate |].
  apply (route_image_configured steady [WRIGHT] "flux_dev" NEUMANN);
    [reflexivity | discriminate].
Defined.

(** *** Source images of the video stage *)

Lemma calls_for_emit_printed job w l :
  calls_for job (emit w (Printed l)) = calls_for job w.
Proof.
  unfold calls_for, emit. simpl. rewrite omap_app. simpl. by rewrite app_nil_r.
Qed.

Lemma calls_emit_printed w l : calls (emit w (Printed l)) = calls w.
Proof.
  unfold calls, emit. simpl. rewrite omap_app. simpl. by rewrite app_nil_r.
Qed.

Lemma find_first {A} (f : A → bool) (l : list A) (x : A) :
  List.find f l = Some x →
  ∃ pre rest,
    l = (pre ++ x :: rest)%list
    ∧ Forall (fun y => f y = false) pre
    ∧ f x = true.
Proof.
  induction l as [| y l IH]; [done |]. simpl.
  destruct (f y) eqn:Hy.
  - intros [= ->]. exists [], l. by repeat split.
  - intros (pre & rest & -> & Hpre & Hx)%IH.
    exists (y :: pre), rest. split; [done |]. split; [by constructor | done].
Qed.

(** A source image is missing when its path is neither a file nor a
    directory. *)
Lemma source_missing_iff TEST_DIR w job :
  source_missing TEST_DIR w job = true
  ↔ fs w !! Path.join TEST_DIR (VideoJob.source_image job) = None
    ∧ Path.join TEST_DIR (VideoJob.source_image job) ∉ dirs w.
Proof.
  unfold source_missing, file_exists. rewrite negb_true_iff, bool_decide_eq_false.
  split.
  - intros Hno. split.
    + destruct (fs w !! _) eqn:Hf; [| done]. destruct Hno. left. eauto.
    + intros Hd. destruct Hno. by right.
  - intros [Hf Hd] [[data Hs] | Hin]; [congruence | done].
Qed.

(** C8, counterexample. Of two video jobs, the first has its source image
    in the store and the second has not; [WRIGHT] is online and accepts
    everything.  The stage ends with the error line and without a single
    request, so the first job is not submitted. *)
Lemma present_job_not_submitted :
  source_missing "/repo/test" one_source hague_v01 = false
  ∧ source_missing "/repo/test" one_source hague_v02 = true
  ∧ generate_videos "/repo/test" steady [WRIGHT] [hague_v01; hague_v02] one_source
    = Ok (emit one_source
            (Printed (SourceMissing "/repo/test/hague-c02-flux_dev.png")),
          0%nat, 0%nat)
  ∧ ¬ present_jobs_submitted "/repo/test" steady [WRIGHT]
        [hague_v01; hague_v02] one_source.
Proof.
  split; [reflexivity |]. split; [reflexivity |]. split; [reflexivity |].
  intros H.
  destruct (H (emit one_source
                 (Printed (SourceMissing "/repo/test/hague-c02-flux_dev.png")))
              0%nat 0%nat hague_v01 WRIGHT) as (workflow & Hin).
  - reflexivity.
  - apply list_elem_of_here.
  - reflexivity.
  - reflexivity.
  - vm_compute in Hin. by apply elem_of_nil in Hin.
Qed.

(** C8, amended. For every video job list in which the source image of
    some job is absent locally, its path being neither a file nor a
    directory, the whole stage ends before any job is handled: it prints
    one error line, which names the source image of the first job in job
    order whose source image is absent, makes no request to any worker
    for any job (the jobs whose source images are present included),
    leaves the local files as they were, and counts no download and no
    failure. *)
Theorem missing_source_ends_stage (TEST_DIR : string) (net : network)
    (servers : list string) (jobs : list VideoJob.t) (w : world) :
  (∃ job, job ∈ jobs ∧ source_missing TEST_DIR w job = true) →
  ∃ pre first rest w',
    jobs = (pre ++ first :: rest)%list
    ∧ Forall (fun job => source_missing TEST_DIR w job = false) pre
    ∧ source_missing TEST_DIR w first = true
    ∧ fs w !! Path.join TEST_DIR (VideoJob.source_image first) = None
    ∧ (Path.join TEST_DIR (VideoJob.source_image first) ∉ dirs w)
    ∧ generate_videos TEST_DIR net servers jobs w = Ok (w', 0%nat, 0%nat)
    ∧ log w' = (log w ++ [Printed (SourceMissing
                 (Path.join TEST_DIR (VideoJob.source_image first)))])%list
    ∧ calls w' = calls w
    ∧ (∀ job, calls_for job w' = calls_for job w)
    ∧ fs w' = fs w
    ∧ dirs w' = dirs w.
Proof.
  intros (job & Hin & Hmiss).
  unfold generate_videos.
  destruct (List.find (source_missing TEST_DIR w) jobs) as [first |] eqn:Hfind.
  - apply find_first in Hfind as (pre & rest & -> & Hpre & Hfirst).
    exists pre, first, rest. eexists. split; [done |].
    split; [done |]. split; [done |].
    apply source_missing_iff in Hfirst as Hpath. destruct Hpath as [Hf Hd].
    split; [done |]. split; [done |].
    split; [reflexivity |]. split; [done |].
    split; [apply calls_emit_printed |].
    split; [intros j; apply calls_for_emit_printed | done].
  - apply list_elem_of_In in Hin.
    pose proof (find_none _ _ Hfind job Hin) as Hnone. congruence.
Qed.

Lemma missing_source_ends_stage_witness :
  (∃ job, job ∈ [hague_v01; hague_v02]
          ∧ source_missing "/repo/test" one_source job = true)
  ∧ ∃ pre first rest w',
      [hague_v01; hague_v02] = (pre ++ first :: rest)%list
      ∧ Forall (fun job => source_missing "/repo/test" one_source job = false) pre
      ∧ source_missing "/repo/test" one_source first = true
      ∧ generate_videos "/repo/test" steady [WRIGHT] [hague_v01; hague_v02]
          one_source = Ok (w', 0%nat, 0%nat)
      ∧ calls w' = calls one_source
      ∧ fs w' = fs one_source.
Proof.
  assert (∃ job, job ∈ [hague_v01; hague_v02]
                 ∧ source_missing "/repo/test" one_source job = true) as Hex.
  { exists hague_v02. split; [| reflexivity].
    apply list_elem_of_further, list_elem_of_here. }
  split; [exact Hex |].
  destruct (missing_source_ends_stage "/repo/test" steady [WRIGHT]
              [hague_v01; hague_v02] one_source Hex)
    as (pre & first & rest & w' & Hjobs & Hpre & Hfirst & _ & _ & Hrun & _
        & Hcalls & _ & Hfs & _).
  exists pre, first, rest, w'. done.
Defined.

(** *** Retrieval *)

Lemma calls_for_write_file job w path data :
  calls_for job (write_file w path data) = calls_for job w.
Proof. reflexivity. Qed.

Section Retrieval.
Variable TEST_DIR : string.
Variable net : network.
Variable ds : gset string.
Variables fallback job server : string.

Lemma calls_for_emit_requested w c :
  calls_for job (emit w (Requested job c)) = (calls_for job w ++ [c])%list.
Proof.
  unfold calls_for, emit. simpl. rewrite omap_app. simpl.
  by rewrite String.eqb_refl.
Qed.

Lemma stored_cons item items files :
  stored TEST_DIR net ds fallback job server (item :: items) files
  = stored TEST_DIR net ds fallback job server items
      (written TEST_DIR net ds fallback job server files item).
Proof. reflexivity. Qed.

Lemma stored_app pre rest files :
  stored TEST_DIR net ds fallback job server (pre ++ rest) files
  = stored TEST_DIR net ds fallback job server rest
      (stored TEST_DIR net ds fallback job server pre files).
Proof. unfold stored. apply foldl_app. Qed.

(** A download never removes a file. *)
Lemma written_keeps files item path :
  is_Some (files !! path) →
  is_Some (written TEST_DIR net ds fallback job server files item !! path).
Proof.
  intros Hp. unfold written.
  destruct (decide (save_path TEST_DIR fallback job item ∈ ds)); [done |].
  destruct (view net server item); [| done |];
    rewrite lookup_insert; case_decide; eauto.
Qed.

(** A download touches no other path than its save path. *)
Lemma written_other files item path :
  path ≠ save_path TEST_DIR fallback job item →
  written TEST_DIR net ds fallback job server files item !! path
  = files !! path.
Proof.
  intros Hne. unfold written.
  destruct (decide (save_path TEST_DIR fallback job item ∈ ds)); [done |].
  destruct (view net server item); [| done |];
    by rewrite lookup_insert_ne by congruence.
Qed.

Lemma written_fetched files item :
  fetched TEST_DIR net ds fallback job server item →
  ∃ data,
    view net server item = Complete data
    ∧ (save_path TEST_DIR fallback job item ∉ ds)
    ∧ written TEST_DIR net ds fallback job server files item
      = <[save_path TEST_DIR fallback job item := data]> files.
Proof.
  unfold fetched, download_error, written.
  destruct (decide (save_path TEST_DIR fallback job item ∈ ds)) as [Hin | Hout];
    destruct (view net server item) as [data | e | received e];
    try done.
  eauto.
Qed.

Lemma stored_keeps items files path :
  is_Some (files !! path) →
  is_Some (stored TEST_DIR net ds fallback job server items files !! path).
Proof.
  revert files. induction items as [| item items IH]; intros files Hp; [done |].
  rewrite stored_cons. by apply IH, written_keeps.
Qed.

Lemma stored_has items files item :
  Forall (fetched TEST_DIR net ds fallback job server) items → item ∈ items →
  is_Some (stored TEST_DIR net ds fallback job server items files
           !! save_path TEST_DIR fallback job item).
Proof.
  intros Hok. revert files.
  induction Hok as [| first items Hf _ IH]; intros files Hin.
  - by apply elem_of_nil in Hin.
  - rewrite stored_cons.
    apply elem_of_cons in Hin as [-> | Hin]; [| by apply IH].
    destruct (written_fetched files first Hf) as (data & _ & _ & ->).
    apply stored_keeps. rewrite lookup_insert_eq. eauto.
Qed.

(** A file of [stored] was there before or is the save path of an item. *)
Lemma stored_origin items files path :
  is_Some (stored TEST_DIR net ds fallback job server items files !! path) →
  is_Some (files !! path)
  ∨ ∃ item, item ∈ items ∧ path = save_path TEST_DIR fallback job item.
Proof.
  revert files. induction items as [| item items IH]; intros files Hp; [by left |].
  rewrite stored_cons in Hp. apply IH in Hp as [Hp | (i & Hi & ->)].
  - destruct (decide (path = save_path TEST_DIR fallback job item)) as [-> | Hne].
    + right. exists item. split; [apply list_elem_of_here | done].
    + left. by rewrite written_other in Hp.
  - right. exists i. split; [by apply list_elem_of_further | done].
Qed.

(** Downloads that go to other paths leave a file as it is. *)
Lemma stored_others items files path :
  Forall (fun c => save_path TEST_DIR fallback job c ≠ path) items →
  stored TEST_DIR net ds fallback job server items files !! path
  = files !! path.
Proof.
  intros Hall. revert files.
  induction Hall as [| c items Hc _ IH]; intros files; [done |].
  rewrite stored_cons, IH. by apply written_other.
Qed.

(** The last item written to a path decides what the file holds. *)
Lemma stored_last l1 b l2 data files :
  view net server b = Complete data →
  save_path TEST_DIR fallback job b ∉ ds →
  Forall (fun c => save_path TEST_DIR fallback job c
                   ≠ save_path TEST_DIR fallback job b) l2 →
  (stored TEST_DIR net ds fallback job server (l1 ++ b :: l2) files)
  !! (save_path TEST_DIR fallback job b) = Some data.
Proof.
  intros Hb Hdir Hl2. rewrite stored_app, stored_cons, stored_others by done.
  unfold written. rewrite decide_False by done. rewrite Hb.
  by rewrite lookup_insert_eq.
Qed.

(** The list of items splits at the first download that fails. *)
Lemma first_failure (items : list Poller.output_item) :
  Forall (fetched TEST_DIR net ds fallback job server) items
  ∨ ∃ pre bad rest e,
      items = (pre ++ bad :: rest)%list
      ∧ Forall (fetched TEST_DIR net ds fallback job server) pre
      ∧ download_error TEST_DIR net ds fallback job server bad = Some e.
Proof.
  induction items as [| item items IH]; [by left |].
  destruct (download_error TEST_DIR net ds fallback job server item)
    as [e |] eqn:He.
  - right. exists [], item, items, e. by repeat split.
  - destruct IH as [Hall | (pre & bad & rest & e & -> & Hpre & Hbad)].
    + left. by constructor.
    + right. exists (item :: pre), bad, rest, e. split; [done |].
      split; [by constructor | done].
Qed.

End Retrieval.

Section Downloads.
Variable TEST_DIR : string.
Variable net : network.
Variables fallback job server : string.

(** One download: the request is made, the local files change as
    [written] says, and the call raises the [download_error], if any. *)
Lemma download_file_effect item w :
  download_file net job server (Poller.filename item)
    (default "" (Poller.subfolder item)) (Poller.type item)
    (save_path TEST_DIR fallback job item) w
  = (MkWorld (written TEST_DIR net (dirs w) fallback job server (fs w) item)
             (log w ++ [Requested job (view_call server item)]) (dirs w),
     match download_error TEST_DIR net (dirs w) fallback job server item with
     | None => Ok ()
     | Some e => Raise e
     end).
Proof.
  unfold download_file, written, download_error, view, view_call. simpl.
  destruct (get_view net server _ _ _);
    destruct (decide (save_path TEST_DIR fallback job item ∈ dirs w));
    reflexivity.
Qed.

(** The downloads of a prefix that are all successful. *)
Lemma download_items_prefix pre rest w completed :
  Forall (fetched TEST_DIR net (dirs w) fallback job server) pre →
  ∃ w1,
    download_items TEST_DIR net fallback job server (pre ++ rest) w completed
    = download_items TEST_DIR net fallback job server rest w1
        (completed + length pre)%nat
    ∧ fs w1 = stored TEST_DIR net (dirs w) fallback job server pre (fs w)
    ∧ dirs w1 = dirs w
    ∧ calls_for job w1 = (calls_for job w ++ (view_call server <$> pre))%list.
Proof.
  intros Hok. revert w completed Hok.
  induction pre as [| item pre IH]; intros w completed Hok.
  - exists w. simpl. rewrite Nat.add_0_r, app_nil_r. done.
  - apply Forall_cons in Hok as [Hitem Hpre].
    rewrite <- app_comm_cons. cbn [download_items].
    rewrite download_file_effect. unfold fetched in Hitem. rewrite Hitem.
    match goal with
    | |- context [download_items _ _ _ _ _ (pre ++ rest) ?w2 _] =>
        destruct (IH w2 (S completed)) as (w1 & Heq & Hfs & Hdirs & Hcalls);
          [exact Hpre |]
    end.
    exists w1. split; [rewrite Heq; f_equal; simpl; lia |].
    split; [exact Hfs |]. split; [exact Hdirs |].
    rewrite Hcalls, calls_for_emit_printed. unfold calls_for. simpl.
    rewrite omap_app. simpl. rewrite String.eqb_refl.
    by rewrite <- app_assoc.
Qed.

Lemma download_items_all items w completed :
  Forall (fetched TEST_DIR net (dirs w) fallback job server) items →
  ∃ w1,
    download_items TEST_DIR net fallback job server items w completed
    = (w1, (completed + length items)%nat, Ok ())
    ∧ fs w1 = stored TEST_DIR net (dirs w) fallback job server items (fs w)
    ∧ dirs w1 = dirs w
    ∧ calls_for job w1 = (calls_for job w ++ (view_call server <$> items))%list.
Proof.
  intros Hok.
  destruct (download_items_prefix items [] w completed Hok) as (w1 & Heq & H).
  exists w1. rewrite app_nil_r in Heq. by rewrite Heq.
Qed.

(** The downloads up to the first one that fails: it is the last request
    made, and its exception leaves the loops. *)
Lemma download_items_failure pre bad rest e w completed :
  Forall (fetched TEST_DIR net (dirs w) fallback job server) pre →
  download_error TEST_DIR net (dirs w) fallback job server bad = Some e →
  ∃ w1,
    download_items TEST_DIR net fallback job server (pre ++ bad :: rest)
      w completed
    = (w1, (completed + length pre)%nat, Raise e)
    ∧ fs w1 = stored TEST_DIR net (dirs w) fallback job server
                (pre ++ [bad]) (fs w)
    ∧ dirs w1 = dirs w
    ∧ calls_for job w1
      = (calls_for job w ++ (view_call server <$> pre ++ [bad]))%list.
Proof.
  intros Hok Hbad.
  destruct (download_items_prefix pre (bad :: rest) w completed Hok)
    as (w1 & Heq & Hfs & Hdirs & Hcalls).
  eexists. rewrite Heq. cbn [download_items].
  rewrite download_file_effect, Hdirs, Hbad.
  split; [reflexivity |]. simpl.
  split; [by rewrite stored_app, Hfs |]. split; [done |].
  unfold calls_for in *. simpl. rewrite omap_app, Hcalls. simpl.
  rewrite String.eqb_refl, fmap_app. simpl. by rewrite <- app_assoc.
Qed.

End Downloads.

(** C9, counterexample. The entry of a completed job lists five files.
    The request for the third one fails, and the two files listed after
    it, the video of the second node among them, are never requested. *)
Lemma listed_file_not_fetched :
  png "clip.webp" ∈ listed_items sample_entry
  ∧ (view_call NEUMANN (png "clip.webp")
     ∉ calls_for "hague-c01-flux_dev"
         (retrieve_job "/repo/test" flaky Poller.IMG_TIMEOUT ".png"
            ("hague-c01-flux_dev", NEUMANN, "p-1") (World ∅ []) 0 0).1.1)
  ∧ ¬ fetches_every_listed "/repo/test" flaky Poller.IMG_TIMEOUT ".png"
        ("hague-c01-flux_dev", NEUMANN, "p-1") (World ∅ []).
Proof.
  assert (png "clip.webp" ∈ listed_items sample_entry) as Hin.
  { vm_compute. do 4 apply list_elem_of_further. apply list_elem_of_here. }
  assert (view_call NEUMANN (png "clip.webp")
          ∉ calls_for "hague-c01-flux_dev"
              (retrieve_job "/repo/test" flaky Poller.IMG_TIMEOUT ".png"
                 ("hague-c01-flux_dev", NEUMANN, "p-1") (World ∅ []) 0 0).1.1)
    as Hnot.
  { vm_compute. intros H.
    repeat (apply elem_of_cons in H as [H | H]; [discriminate H |]).
    by apply elem_of_nil in H. }
  split; [done |]. split; [done |].
  intros H. apply Hnot. by apply (H sample_entry).
Qed.

(** A listed file without extension is saved under the job name plus the
    fallback extension of the stage. *)
Example extensionless_file_saved_as_png :
  save_path "/repo/test" ".png" "hague-c01-flux_dev" (png "frame")
  = "/repo/test/hague-c01-flux_dev.png".
Proof. reflexivity. Qed.

(** When the connection breaks during the second image of a job, the
    image saved before it under the same local name is lost: the file
    holds the part of the second body that was received. *)
Example broken_download_overwrites :
  let w' := (retrieve_job "/repo/test" lossy Poller.IMG_TIMEOUT ".png"
               ("hague-c01-flux_dev", NEUMANN, "p-1") (World ∅ []) 0 0).1.1 in
  fs w' = {[ "/repo/test/hague-c01-flux_dev.png" := "gentest" ]}.
Proof. vm_compute. reflexivity. Qed.

(** C9, amended. For every completed job, the retriever walks the files
    of the output manifest, of every node and of the categories images,
    videos and gifs, in the order listed.  As long as the downloads
    succeed ([pre]), each file is requested and saved in the test
    directory under the job's file name plus the extension of the remote
    name, or plus the fallback extension of the stage when the remote
    name has none.  The first file whose download fails is the last one
    requested: the job is counted as failed and the files listed after it
    are not requested.  No local file is removed by this, and a file
    saved before the failure keeps its content if nothing later went to
    the same local name; but when the failing download had opened its
    local file, that file, which may be one saved before under the same
    local name, holds the part of the body that was received. *)
Theorem retrieval_until_first_failure (TEST_DIR : string) (net : network)
    (timeout : Z) (fallback job server id : string) (w : world)
    (completed failed : nat) (result : Poller.history_entry)
    (pre rest : list Poller.output_item) :
  poll_completion net server id timeout = Ok result →
  listed_items result = (pre ++ rest)%list →
  Forall (fetched TEST_DIR net (dirs w) fallback job server) pre →
  (∀ bad, head rest = Some bad →
          ¬ fetched TEST_DIR net (dirs w) fallback job server bad) →
  ∃ w',
    retrieve_job TEST_DIR net timeout fallback (job, server, id) w
      completed failed
    = (w', (completed + length pre)%nat,
       match rest with [] => failed | _ :: _ => S failed end)
    ∧ calls_for job w'
      = (calls_for job w ++ PollHistory server id timeout
           :: (view_call server <$> pre ++ take 1 rest))%list
    ∧ fs w' = stored TEST_DIR net (dirs w) fallback job server
                (pre ++ take 1 rest) (fs w)
    ∧ (∀ item, item ∈ pre →
         is_Some (fs w' !! save_path TEST_DIR fallback job item))
    ∧ (∀ path, is_Some (fs w !! path) → is_Some (fs w' !! path))
    ∧ (∀ l1 a l2 data,
         pre = (l1 ++ a :: l2)%list →
         view net server a = Complete data →
         Forall (fun c => save_path TEST_DIR fallback job c
                          ≠ save_path TEST_DIR fallback job a)
                (l2 ++ take 1 rest) →
         fs w' !! save_path TEST_DIR fallback job a = Some data)
    ∧ (∀ bad received e,
         head rest = Some bad →
         view net server bad = Broken received e →
         save_path TEST_DIR fallback job bad ∉ dirs w →
         fs w' !! save_path TEST_DIR fallback job bad = Some received)
    ∧ (∀ item,
         save_path TEST_DIR fallback job item
         = Path.join TEST_DIR
             (job ++ (if String.eqb (Path.splitext (Poller.filename item)).2 ""
                      then fallback
                      else (Path.splitext (Poller.filename item)).2))).
Proof.
  intros Hpoll Hlisted Hpre Hbad.
  set (w0 := emit w (Requested job (PollHistory server id timeout))).
  assert (∃ w',
            retrieve_job TEST_DIR net timeout fallback (job, server, id) w
              completed failed
            = (w', (completed + length pre)%nat,
               match rest with [] => failed | _ :: _ => S failed end)
            ∧ calls_for job w'
              = (calls_for job w ++ PollHistory server id timeout
                   :: (view_call server <$> pre ++ take 1 rest))%list
            ∧ fs w' = stored TEST_DIR net (dirs w) fallback job server
                        (pre ++ take 1 rest) (fs w)) as (w' & Hrun & Hcalls & Hfs).
  { unfold retrieve_job. rewrite Hpoll, Hlisted. fold w0.
    destruct rest as [| bad rest].
    - rewrite app_nil_r.
      destruct (download_items_all TEST_DIR net fallback job server pre
                  w0 completed Hpre) as (w1 & -> & Hfs & _ & Hcalls).
      exists w1. split; [done |].
      split; [| by rewrite app_nil_r].
      rewrite Hcalls. unfold w0.
      by rewrite calls_for_emit_requested, app_nil_r, <- app_assoc.
    - destruct (download_error TEST_DIR net (dirs w) fallback job server bad)
        as [e |] eqn:He; [| by destruct (Hbad bad eq_refl)].
      destruct (download_items_failure TEST_DIR net fallback job server pre
                  bad rest e w0 completed Hpre He)
        as (w1 & -> & Hfs & _ & Hcalls).
      eexists. split; [reflexivity |].
      split; [| done].
      rewrite calls_for_emit_printed, Hcalls. unfold w0.
      rewrite calls_for_emit_requested. simpl. by rewrite <- !app_assoc. }
  exists w'. split; [done |]. split; [done |]. split; [done |].
  split; [| split; [| split; [| split; [| done]]]].
  - intros item Hin. rewrite Hfs, stored_app.
    by apply stored_keeps, stored_has.
  - intros path Hp. rewrite Hfs. by apply stored_keeps.
  - intros l1 a l2 data -> Ha Hl2. rewrite Hfs, <- app_assoc. simpl.
    apply stored_last; [done | | done].
    rewrite Forall_app in Hpre. destruct Hpre as [_ Hpre].
    apply Forall_cons in Hpre as [Hfa _].
    by destruct (written_fetched TEST_DIR net (dirs w) fallback job server
                   ∅ a Hfa) as (_ & _ & Hdir & _).
  - intros bad received e Hhead Hview Hdir. rewrite Hfs.
    destruct rest as [| bad' rest]; [done |]. injection Hhead as ->.
    simpl. rewrite stored_app. simpl. unfold written.
    rewrite decide_False by done. rewrite Hview.
    by rewrite lookup_insert_eq.
Qed.

Lemma retrieval_until_first_failure_witness :
  ∃ w',
    retrieve_job "/repo/test" flaky Poller.IMG_TIMEOUT ".png"
      ("hague-c01-flux_dev", NEUMANN, "p-1") (World ∅ []) 0 0
    = (w', 2%nat, 1%nat)
    ∧ calls_for "hague-c01-flux_dev" w'
      = [ PollHistory NEUMANN "p-1" Poller.IMG_TIMEOUT;
          GetView NEUMANN "gentest_00001_.png" "" "output";
          GetView NEUMANN "gentest_00002_.png" "" "output";
          GetView NEUMANN "preview.gif" "" "output" ]
    ∧ fs w' !! "/repo/test/hague-c01-flux_dev.png" = Some "gentest_00002_.png".
Proof.
  destruct (retrieval_until_first_failure "/repo/test" flaky
              Poller.IMG_TIMEOUT ".png" "hague-c01-flux_dev" NEUMANN "p-1"
              (World ∅ []) 0 0 sample_entry
              [png "gentest_00001_.png"; png "gentest_00002_.png"]
              [png "preview.gif"; png "frame"; png "clip.webp"])
    as (w' & Hrun & Hcalls & Hfs & _).
  - reflexivity.
  - reflexivity.
  - repeat constructor.
  - intros bad [= <-]. discriminate.
  - exists w'. split; [exact Hrun |]. split; [exact Hcalls |].
    rewrite Hfs. reflexivity.
Defined.

(** *** Files of one extension *)

Lemma size_list_to_set_fmap {A B : Type} `{!EqDecision A, !Countable A}
    `{!EqDecision B, !Countable B} (f : A → B) (l : list A) :
  (size (list_to_set (f <$> l) : gset B) ≤ size (list_to_set l : gset A))%nat.
Proof.
  induction l as [| x l IH]; [done |].
  rewrite fmap_cons, !list_to_set_cons.
  destruct (decide (x ∈ l)) as [Hin | Hnot].
  - assert ({[x]} ∪ list_to_set l = (list_to_set l : gset A)) as ->.
    { apply subseteq_union_1_L, singleton_subseteq_l.
      by apply elem_of_list_to_set. }
    assert ({[f x]} ∪ list_to_set (f <$> l) = (list_to_set (f <$> l) : gset B))
      as ->; [| done].
    apply subseteq_union_1_L, singleton_subseteq_l, elem_of_list_to_set.
    by apply list_elem_of_fmap_2.
  - rewrite (size_union {[x]}).
    2:{ apply disjoint_singleton_l. by rewrite elem_of_list_to_set. }
    rewrite size_union_alt, !size_singleton.
    assert (size (list_to_set (f <$> l) ∖ {[f x]} : gset B)
            ≤ size (list_to_set (f <$> l) : gset B))%nat
      by (by apply subseteq_size, subseteq_difference_l).
    lia.
Qed.

(** The files a run of downloads adds are save paths of listed files, so
    at most as many as there are distinct extensions. *)
Lemma stored_new_files TEST_DIR net ds fallback job server items files :
  (size (dom (stored TEST_DIR net ds fallback job server items files)
         ∖ dom files)
   ≤ size (list_to_set
             ((fun item => (Path.splitext (Poller.filename item)).2)
                <$> items) : gset string))%nat.
Proof.
  set (ext := fun item : Poller.output_item =>
                (Path.splitext (Poller.filename item)).2).
  set (place := fun e : string =>
                  Path.join TEST_DIR
                    (job ++ (if String.eqb e "" then fallback else e))).
  etrans; [| apply (size_list_to_set_fmap place)].
  apply subseteq_size. intros path [Hnew Hold]%elem_of_difference.
  apply elem_of_dom in Hnew.
  apply stored_origin in Hnew as [Hw | (item & Hitem & ->)].
  - by apply elem_of_dom in Hw.
  - apply elem_of_list_to_set. rewrite <- list_fmap_compose.
    apply (list_elem_of_fmap_2 (place ∘ ext) items item Hitem).
Qed.

(** C10, counterexample. A completed job lists two images with a gif
    between them, and the gif cannot be fetched.  The second image is
    never requested: the common path of the two images keeps the body of
    the first, the later file does not overwrite the earlier one. *)
Lemma later_file_not_written :
  (download_items "/repo/test" flaky ".png" "hague-c01-flux_dev" NEUMANN
     three_files (World ∅ []) 0).2 = Raise URLError
  ∧ fs (download_items "/repo/test" flaky ".png" "hague-c01-flux_dev" NEUMANN
          three_files (World ∅ []) 0).1.1
    = {[ "/repo/test/hague-c01-flux_dev.png" := "gentest_00001_.png" ]}
  ∧ ¬ later_overwrites_earlier "/repo/test" flaky ".png" "hague-c01-flux_dev"
        NEUMANN three_files (World ∅ []).
Proof.
  split; [reflexivity |]. split; [vm_compute; reflexivity |].
  intros H.
  specialize (H [] (png "gentest_00001_.png") [png "preview.gif"]
                (png "gentest_00002_.png") [] "gentest_00002_.png"
                eq_refl eq_refl eq_refl ltac:(constructor)).
  vm_compute in H. discriminate H.
Qed.

(** C10, amended. Two listed files with the same extension have the same
    local path, the test directory joined with the job's file name plus
    that extension, and whatever happens the files a job adds to the
    local store are at most as many as the distinct extensions of the
    listed files.  When all listed files are fetched, each is written,
    and of two files with the same extension the one listed later
    overwrites the one listed earlier, the path holding in the end the
    body of the last file written to it.  When the download of a file
    fails, the files listed after it are not requested and not written,
    so a later file of the same extension does not overwrite an earlier
    one. *)
Theorem same_extension_overwrites (TEST_DIR : string) (net : network)
    (fallback job server : string) (items : list Poller.output_item)
    (w : world) (completed : nat) :
  (∀ a b,
     (Path.splitext (Poller.filename a)).2
     = (Path.splitext (Poller.filename b)).2 →
     save_path TEST_DIR fallback job a = save_path TEST_DIR fallback job b
     ∧ ((Path.splitext (Poller.filename a)).2 ≠ "" →
        save_path TEST_DIR fallback job a
        = Path.join TEST_DIR (job ++ (Path.splitext (Poller.filename a)).2)))
  ∧ (size (dom (fs (download_items TEST_DIR net fallback job server items
                      w completed).1.1) ∖ dom (fs w))
     ≤ size (list_to_set
               ((fun item => (Path.splitext (Poller.filename item)).2)
                  <$> items) : gset string))%nat
  ∧ (Forall (fetched TEST_DIR net (dirs w) fallback job server) items →
     ∃ w',
       download_items TEST_DIR net fallback job server items w completed
       = (w', (completed + length items)%nat, Ok ())
       ∧ calls_for job w' = (calls_for job w ++ (view_call server <$> items))%list
       ∧ ∀ l1 a l2 b l3 data,
           items = (l1 ++ a :: l2 ++ b :: l3)%list →
           (Path.splitext (Poller.filename a)).2
           = (Path.splitext (Poller.filename b)).2 →
           view net server b = Complete data →
           Forall (fun c => save_path TEST_DIR fallback job c
                            ≠ save_path TEST_DIR fallback job b) l3 →
           fs w' !! save_path TEST_DIR fallback job a = Some data)
  ∧ (∀ pre bad rest,
       items = (pre ++ bad :: rest)%list →
       Forall (fetched TEST_DIR net (dirs w) fallback job server) pre →
       ¬ fetched TEST_DIR net (dirs w) fallback job server bad →
       ∃ w' e,
         download_items TEST_DIR net fallback job server items w completed
         = (w', (completed + length pre)%nat, Raise e)
         ∧ calls_for job w'
           = (calls_for job w ++ (view_call server <$> pre ++ [bad]))%list
         ∧ fs w' = stored TEST_DIR net (dirs w) fallback job server
                     (pre ++ [bad]) (fs w)).
Proof.
  assert (∀ a b,
            (Path.splitext (Poller.filename a)).2
            = (Path.splitext (Poller.filename b)).2 →
            save_path TEST_DIR fallback job a
            = save_path TEST_DIR fallback job b) as Hsame.
  { intros a b Hab. unfold save_path, local_ext. by rewrite Hab. }
  split; [| split; [| split]].
  - intros a b Hab. split; [by apply Hsame |].
    intros Hne. unfold save_path, local_ext.
    destruct (String.eqb_spec (Path.splitext (Poller.filename a)).2 ""); done.
  - destruct (first_failure TEST_DIR net (dirs w) fallback job server items)
      as [Hall | (pre & bad & rest & e & -> & Hpre & Hbad)].
    + destruct (download_items_all TEST_DIR net fallback job server items w
                  completed Hall) as (w' & -> & Hfs & _).
      simpl. rewrite Hfs. apply stored_new_files.
    + destruct (download_items_failure TEST_DIR net fallback job server pre
                  bad rest e w completed Hpre Hbad) as (w' & -> & Hfs & _).
      simpl. rewrite Hfs. etrans; [apply stored_new_files |].
      apply subseteq_size. intros x. rewrite !elem_of_list_to_set.
      intros (item & -> & Hin)%list_elem_of_fmap.
      apply (list_elem_of_fmap_2
               (fun item => (Path.splitext (Poller.filename item)).2)).
      apply elem_of_app in Hin as [Hin | Hin%list_elem_of_singleton].
      * apply elem_of_app. by left.
      * subst item. apply elem_of_app. right. apply list_elem_of_here.
  - intros Hok.
    destruct (download_items_all TEST_DIR net fallback job server items w
                completed Hok) as (w' & Hrun & Hfs & _ & Hcalls).
    exists w'. split; [done |]. split; [done |].
    intros l1 a l2 b l3 data -> Hab Hb Hl3.
    rewrite (Hsame a b Hab), Hfs.
    replace (l1 ++ a :: l2 ++ b :: l3)%list
      with ((l1 ++ a :: l2) ++ b :: l3)%list by (by rewrite <- app_assoc).
    apply stored_last; [done | | done].
    rewrite Forall_forall in Hok.
    assert (b ∈ (l1 ++ a :: l2 ++ b :: l3)%list) as Hin.
    { apply elem_of_app. right. apply list_elem_of_further.
      apply elem_of_app. right. apply list_elem_of_here. }
    by destruct (written_fetched TEST_DIR net (dirs w) fallback job server
                   ∅ b (Hok b Hin)) as (_ & _ & Hdir & _).
  - intros pre bad rest -> Hpre Hbad.
    destruct (download_error TEST_DIR net (dirs w) fallback job server bad)
      as [e |] eqn:He; [| done].
    destruct (download_items_failure TEST_DIR net fallback job server pre
                bad rest e w completed Hpre He) as (w' & Hrun & Hfs & _ & Hcalls).
    by exists w', e.
Qed.

Lemma same_extension_overwrites_witness :
  (∃ w',
     download_items "/repo/test" steady ".png" "hague-c01-flux_dev" NEUMANN
       four_files (World ∅ []) 0
     = (w', 4%nat, Ok ())
     ∧ fs w' !! "/repo/test/hague-c01-flux_dev.png" = Some "gentest_00002_.png")
  ∧ ∃ w' e,
      download_items "/repo/test" flaky ".png" "hague-c01-flux_dev" NEUMANN
        three_files (World ∅ []) 0
      = (w', 1%nat, Raise e)
      ∧ calls_for "hague-c01-flux_dev" w'
        = [ GetView NEUMANN "gentest_00001_.png" "" "output";
            GetView NEUMANN "preview.gif" "" "output" ].
Proof.
  split.
  - destruct (same_extension_overwrites "/repo/test" steady ".png"
                "hague-c01-flux_dev" NEUMANN four_files (World ∅ []) 0)
      as (_ & _ & Hall & _).
    destruct Hall as (w' & Hrun & _ & Hlast); [repeat constructor |].
    exists w'. split; [exact Hrun |].
    apply (Hlast [] (png "gentest_00001_.png") [png "preview.gif"]
             (png "gentest_00002_.png") [png "clip.webp"] "gentest_00002_.png").
    + reflexivity.
    + reflexivity.
    + reflexivity.
    + repeat constructor. vm_compute. discriminate.
  - destruct (same_extension_overwrites "/repo/test" flaky ".png"
                "hague-c01-flux_dev" NEUMANN three_files (World ∅ []) 0)
      as (_ & _ & _ & Hfail).
    destruct (Hfail [png "gentest_00001_.png"] (png "preview.gif")
                [png "gentest_00002_.png"]) as (w' & e & Hrun & Hcalls & _).
    + reflexivity.
    + repeat constructor.
    + discriminate.
    + exists w', e. split; [exact Hrun |]. exact Hcalls.
Defined.

(** *** Submitting prompts *)

(** [submit_prompt] returns a prompt id exactly when the worker's body
    has no ["error"] key and has a ["prompt_id"]; a body with an error
    raises the [RuntimeError] even when it carries a prompt id as well,
    and a body with neither raises [KeyError].  In every case exactly one
    request is made. *)
Theorem submit_prompt_result (net : network) (job server : string)
    (workflow : graph) (w : world) :
  (∀ id, (submit_prompt net job server workflow w).2 = Ok id ↔
         ∃ body, post_prompt net server workflow = Ok body
                 ∧ error body = None ∧ prompt_id body = Some id)
  ∧ (∀ body err, post_prompt net server workflow = Ok body →
       error body = Some err →
       (submit_prompt net job server workflow w).2
       = Raise (RuntimeError ("ComfyUI error: " ++ err)))
  ∧ (∀ body, post_prompt net server workflow = Ok body →
       error body = None → prompt_id body = None →
       (submit_prompt net job server workflow w).2
       = Raise (KeyError "prompt_id"))
  ∧ (submit_prompt net job server workflow w).1
    = emit w (Requested job (PostPrompt server workflow)).
Proof.
  unfold submit_prompt. simpl.
  split; [| split; [| split]].
  - intros id. destruct (post_prompt net server workflow) as [body | e]; simpl.
    + destruct (error body) as [err |] eqn:Herr.
      * split; [done |]. intros (b & [= <-] & Hb & _). congruence.
      * destruct (prompt_id body) as [id' |] eqn:Hid.
        -- split; [intros [= <-]; eauto |].
           intros (b & [= <-] & _ & Hb). congruence.
        -- split; [done |]. intros (b & [= <-] & _ & Hb). congruence.
    + split; [done |]. by intros (b & ? & _).
  - intros body err -> Herr. simpl. by rewrite Herr.
  - intros body -> Herr Hid. simpl. by rewrite Herr, Hid.
  - done.
Qed.

Lemma submit_prompt_result_witness :
  (submit_prompt refusing "city-c01-sd35" WRIGHT ∅ (World ∅ [])).2
  = Raise (RuntimeError "ComfyUI error: bad graph").
Proof.
  destruct (submit_prompt_result refusing "city-c01-sd35" WRIGHT ∅ (World ∅ []))
    as (_ & Herr & _).
  apply (Herr (PromptBody (Some "bad graph") (Some "p-9")) "bad graph");
    reflexivity.
Defined.

Lemma lines_emit_printed w l : lines (emit w (Printed l)) = (lines w ++ [l])%list.
Proof. unfold lines, emit. simpl. by rewrite omap_app. Qed.

Lemma lines_emit_requested w j c : lines (emit w (Requested j c)) = lines w.
Proof.
  unfold lines, emit. simpl. rewrite omap_app. simpl. by rewrite app_nil_r.
Qed.

Lemma calls_emit_requested w j c :
  calls (emit w (Requested j c)) = (calls w ++ [c])%list.
Proof. unfold calls, emit. simpl. by rewrite omap_app. Qed.

Lemma builders_lookup model builder :
  BUILDERS !! model = Some builder →
  ∀ p n w h s, ∃ g, builder p n w h s = Ok g.
Proof.
  unfold BUILDERS, dict. simpl. intros H p n w h s.
  repeat (apply lookup_insert_Some in H as [[_ <-] | [_ H]];
          [eexists; reflexivity |]).
  by rewrite lookup_empty in H.
Qed.

(** The loop over two lists of jobs is the loop over the first followed
    by the loop over the second. *)
Lemma submit_images_app net servers pre rest w submitted :
  submit_images net servers (pre ++ rest) w submitted
  = '(w1, submitted1) ← submit_images net servers pre w submitted;
    submit_images net servers rest w1 submitted1.
Proof.
  revert w submitted. induction pre as [| job pre IH]; intros w submitted.
  - simpl. done.
  - simpl. destruct (route_image servers (ImageJob.model job)) as [[server |] | e];
      simpl; [| apply IH | done].
    destruct (subscript BUILDERS (ImageJob.model job)) as [builder | e];
      simpl; [| done].
    destruct (builder _ _ _ _ _) as [g | e]; simpl; [| done].
    destruct (post_prompt net server g) as [body | e]; simpl; [| apply IH].
    destruct (error body); [apply IH |].
    destruct (prompt_id body); apply IH.
Qed.

(** What every run of the submission loop keeps: the local files, and
    requests that are prompts posted to online servers. *)
Lemma submit_images_keeps net servers jobs w submitted w' submitted' :
  submit_images net servers jobs w submitted = Ok (w', submitted') →
  fs w' = fs w
  ∧ ∃ new_calls new_handles,
      calls w' = (calls w ++ new_calls)%list
      ∧ submitted' = (submitted ++ new_handles)%list
      ∧ Forall (fun c => ∃ server g, c = PostPrompt server g ∧ server ∈ servers)
               new_calls
      ∧ Forall (fun h : handle => h.1.2 ∈ servers) new_handles.
Proof.
  revert w submitted. induction jobs as [| job jobs IH]; intros w submitted.
  - intros [= <- <-]. split; [done |]. exists [], [].
    by rewrite !app_nil_r.
  - simpl. unfold route_image.
    destruct (first_server servers) as [fallback | e]; simpl; [| done].
    destruct (decide (default fallback (MODEL_SERVER !! ImageJob.model job)
                      ∈ servers)) as [Hin | Hout]; simpl.
    + set (server := default fallback (MODEL_SERVER !! ImageJob.model job)) in *.
      destruct (subscript BUILDERS (ImageJob.model job)) as [builder | e];
        simpl; [| done].
      destruct (builder _ _ _ _ _) as [g | e]; simpl; [| done].
      assert (∀ w1 s1,
                fs w1 = fs w →
                calls w1 = (calls w ++ [PostPrompt server g])%list →
                (s1 = submitted ∨ ∃ id, s1 = (submitted
                      ++ [(ImageJob.filename job, server, id)])%list) →
                submit_images net servers jobs w1 s1 = Ok (w', submitted') →
                fs w' = fs w
                ∧ ∃ new_calls new_handles,
                    calls w' = (calls w ++ new_calls)%list
                    ∧ submitted' = (submitted ++ new_handles)%list
                    ∧ Forall (fun c => ∃ server g,
                                c = PostPrompt server g ∧ server ∈ servers)
                             new_calls
                    ∧ Forall (fun h : handle => h.1.2 ∈ servers) new_handles)
        as Hstep.
      { intros w1 s1 Hfs Hcalls Hs1 (Hfs' & nc & nh & Hc & Hs & Hfc & Hfh)%IH.
        split; [congruence |].
        exists (PostPrompt server g :: nc).
        destruct Hs1 as [-> | [id ->]].
        - exists nh. rewrite Hc, Hcalls, <- app_assoc. split; [done |].
          split; [done |]. split; [| done].
          constructor; [eauto | done].
        - exists ((ImageJob.filename job, server, id) :: nh).
          rewrite Hc, Hcalls, Hs, <- !app_assoc. split; [done |].
          split; [done |]. split; constructor; eauto. }
      destruct (post_prompt net server g) as [body | e]; simpl.
      * destruct (error body); simpl.
        -- apply Hstep; [done | | by left].
           by rewrite calls_emit_printed, calls_emit_requested.
        -- destruct (prompt_id body) as [id |]; simpl.
           ++ apply Hstep; [done | | right; eauto].
              by rewrite calls_emit_printed, calls_emit_requested.
           ++ apply Hstep; [done | | by left].
              by rewrite calls_emit_printed, calls_emit_requested.
      * apply Hstep; [done | | by left].
        by rewrite calls_emit_printed, calls_emit_requested.
    + intros (Hfs' & nc & nh & Hc & Hs & Hfc & Hfh)%IH.
      split; [done |]. exists nc, nh.
      by rewrite calls_emit_printed in Hc.
Qed.

(** Whenever the submission loop of the image stage returns, it has left
    the local files as they were, every request it made is a prompt
    posted to a server of the online list, and every job it handed on
    for polling was submitted to a server of that list. *)
Theorem submit_images_only_online (net : network) (servers : list string)
    (jobs : list ImageJob.t) (w w' : world) (submitted' : list handle) :
  submit_images net servers jobs w [] = Ok (w', submitted') →
  fs w' = fs w
  ∧ (∀ c, c ∈ calls w' → c ∈ calls w
          ∨ ∃ server g, c = PostPrompt server g ∧ server ∈ servers)
  ∧ Forall (fun h : handle => h.1.2 ∈ servers) submitted'.
Proof.
  intros (Hfs & nc & nh & Hc & -> & Hfc & Hfh)%submit_images_keeps.
  split; [done |]. split; [| done].
  intros c. rewrite Hc. intros [Hold | Hnew]%elem_of_app; [by left | right].
  rewrite Forall_forall in Hfc. by apply Hfc.
Qed.

Lemma submit_images_only_online_witness :
  ∃ w' submitted',
    submit_images steady [WRIGHT] [city_c01; city_c02] (World ∅ []) []
    = Ok (w', submitted')
    ∧ fs w' = ∅
    ∧ Forall (fun h : handle => h.1.2 ∈ [WRIGHT]) submitted'.
Proof.
  do 2 eexists. split; [reflexivity |].
  destruct (submit_images_only_online steady [WRIGHT] [city_c01; city_c02]
              (World ∅ []) _ _ eq_refl) as (Hfs & _ & Hh).
  split; [exact Hfs | exact Hh].
Defined.

Lemma submit_images_reports_aux (net : network) (servers : list string)
    (jobs : list ImageJob.t) (w : world) (submitted : list handle) :
  servers ≠ [] →
  Forall (fun job => is_Some (BUILDERS !! ImageJob.model job)) jobs →
  ∃ w' new_handles new_lines,
    submit_images net servers jobs w submitted
    = Ok (w', (submitted ++ new_handles)%list)
    ∧ lines w' = (lines w ++ new_lines)%list
    ∧ Forall2 (image_line servers) jobs new_lines
    ∧ omap submitted_of new_lines = (fun h : handle => h.1) <$> new_handles.
Proof.
  intros Hne Hjobs. revert w submitted.
  induction Hjobs as [| job jobs [builder Hb] _ IH]; intros w submitted.
  - exists w, [], []. simpl. rewrite !app_nil_r. by repeat split; constructor.
  - simpl. unfold route_image.
    destruct servers as [| s0 l] eqn:Hservers; [done |]. simpl.
    rewrite <- Hservers in *.
    destruct (decide (default s0 (MODEL_SERVER !! ImageJob.model job)
                      ∈ servers)) as [Hin | Hout]; simpl.
    + set (server := default s0 (MODEL_SERVER !! ImageJob.model job)) in *.
      unfold subscript. rewrite Hb. simpl.
      destruct (builders_lookup _ _ Hb (ImageJob.prompt job) (ImageJob.neg job)
                  (ImageJob.width job) (ImageJob.height job) (ImageJob.seed job))
        as [g ->]. simpl.
      assert (∀ e,
                ∃ w' new_handles new_lines,
                  submit_images net servers jobs
                    (emit (emit w (Requested (ImageJob.filename job)
                                     (PostPrompt server g)))
                       (Printed (SubmitFailed (ImageJob.filename job) e)))
                    submitted
                  = Ok (w', (submitted ++ new_handles)%list)
                  ∧ lines w' = (lines w ++ new_lines)%list
                  ∧ Forall2 (image_line servers) (job :: jobs) new_lines
                  ∧ omap submitted_of new_lines
                    = (fun h : handle => h.1) <$> new_handles) as Hfail.
      { intros e.
        destruct (IH (emit (emit w (Requested (ImageJob.filename job)
                                      (PostPrompt server g)))
                        (Printed (SubmitFailed (ImageJob.filename job) e)))
                    submitted) as (w' & nh & nl & -> & Hl & Hf2 & Hsub).
        exists w', nh, (SubmitFailed (ImageJob.filename job) e :: nl).
        split; [done |].
        rewrite Hl, lines_emit_printed, lines_emit_requested, <- app_assoc.
        split; [done |]. split; [| done].
        constructor; [| done]. right. right. eauto. }
      destruct (post_prompt net server g) as [body | e]; simpl; [| apply Hfail].
      destruct (error body); simpl; [apply Hfail |].
      destruct (prompt_id body) as [id |]; simpl; [| apply Hfail].
      destruct (IH (emit (emit w (Requested (ImageJob.filename job)
                                    (PostPrompt server g)))
                      (Printed (Submitted (ImageJob.filename job) server)))
                  (submitted ++ [(ImageJob.filename job, server, id)])%list)
        as (w' & nh & nl & -> & Hl & Hf2 & Hsub).
      exists w', ((ImageJob.filename job, server, id) :: nh),
        (Submitted (ImageJob.filename job) server :: nl).
      rewrite <- app_assoc. split; [done |].
      rewrite Hl, lines_emit_printed, lines_emit_requested, <- app_assoc.
      split; [done |]. split.
      * constructor; [| done]. right. left. eauto.
      * simpl. f_equal. exact Hsub.
    + destruct (IH (emit w (Printed (Skipped (ImageJob.filename job))))
                  submitted) as (w' & nh & nl & -> & Hl & Hf2 & Hsub).
      exists w', nh, (Skipped (ImageJob.filename job) :: nl).
      split; [done |].
      rewrite Hl, lines_emit_printed, <- app_assoc.
      split; [done |]. split; [| done].
      constructor; [| done]. by left.
Qed.

(** When at least one server is online and every job's model has a
    builder, the submission loop of the image stage returns, and each job
    has printed exactly one line, in job order: skipped, submitted to an
    online server, or failed with the exception of the submission, the
    failure of one job not keeping the later ones from their turn.  The
    jobs handed on for polling are the ones reported submitted, in order,
    with the servers reported. *)
Theorem submit_images_reports (net : network) (servers : list string)
    (jobs : list ImageJob.t) (w : world) (submitted : list handle) :
  servers ≠ [] →
  Forall (fun job => is_Some (BUILDERS !! ImageJob.model job)) jobs →
  ∃ w' new_handles new_lines,
    submit_images net servers jobs w submitted
    = Ok (w', (submitted ++ new_handles)%list)
    ∧ lines w' = (lines w ++ new_lines)%list
    ∧ Forall2 (image_line servers) jobs new_lines
    ∧ omap submitted_of new_lines = (fun h : handle => h.1) <$> new_handles.
Proof. apply submit_images_reports_aux. Qed.

Lemma submit_images_reports_witness :
  ∃ w' new_handles new_lines,
    submit_images refusing [WRIGHT] [city_c01; city_c02] (World ∅ []) []
    = Ok (w', ([] ++ new_handles)%list)
    ∧ lines w' = (lines (World ∅ []) ++ new_lines)%list
    ∧ Forall2 (image_line [WRIGHT]) [city_c01; city_c02] new_lines
    ∧ omap submitted_of new_lines = (fun h : handle => h.1) <$> new_handles.
Proof.
  apply (submit_images_reports refusing [WRIGHT] [city_c01; city_c02]
           (World ∅ []) []).
  - discriminate.
  - repeat constructor; eexists; reflexivity.
Defined.

(** The lines of the two sample jobs when [WRIGHT] alone is online and
    refuses every prompt. *)
Example submit_images_refused :
  submit_images refusing [WRIGHT] [city_c01; city_c02] (World ∅ []) []
  = Ok (World ∅
          [ Requested "city-c01-sd35"
              (PostPrompt WRIGHT
                 (default ∅ (match workflow_sd35 "a harbour at dawn" "blurry"
                                     1280 720 101 with
                             | Ok g => Some g | Raise _ => None end)));
            Printed (SubmitFailed "city-c01-sd35"
                       (RuntimeError "ComfyUI error: bad graph"));
            Printed (Skipped "city-c02-flux_dev") ], []).
Proof. reflexivity. Qed.

(** The submission loop of the image stage raises in two cases, both
    ending the stage at once, whatever jobs come later: [IndexError] at
    the first job when the list of online servers is empty, and
    [KeyError] at the first job that is not skipped and whose model has
    no builder, after the jobs before it went through. *)
Theorem submit_images_raises (net : network) (servers : list string)
    (pre rest : list ImageJob.t) (job : ImageJob.t) (w : world)
    (submitted : list handle) :
  submit_images net [] (job :: rest) w submitted = Raise IndexError
  ∧ (∀ w1 submitted1 server,
       submit_images net servers pre w submitted = Ok (w1, submitted1) →
       route_image servers (ImageJob.model job) = Ok (Some server) →
       BUILDERS !! ImageJob.model job = None →
       submit_images net servers (pre ++ job :: rest) w submitted
       = Raise (KeyError (ImageJob.model job))).
Proof.
  split; [done |].
  intros w1 submitted1 server Hpre Hroute Hb.
  rewrite submit_images_app, Hpre. simpl. rewrite Hroute. simpl.
  unfold subscript. by rewrite Hb.
Qed.

Lemma submit_images_raises_witness :
  submit_images steady [] [city_c03] (World ∅ []) [] = Raise IndexError
  ∧ submit_images steady [WRIGHT] ([city_c01] ++ city_c03 :: [city_c02])
      (World ∅ []) []
    = Raise (KeyError "wan_i2v").
Proof.
  destruct (submit_images_raises steady [WRIGHT] [city_c01] [city_c02]
              city_c03 (World ∅ []) []) as [_ Hkey].
  split.
  - apply (submit_images_raises steady [] [] [] city_c03 (World ∅ []) []).
  - eapply Hkey; reflexivity.
Defined.

(** *** The submission loop of the video stage *)

Lemma submit_videos_requests_aux (TEST_DIR : string) (net : network)
    (servers : list string) (jobs : list VideoJob.t) (w : world)
    (submitted : list handle) :
  ∃ w' submitted' blocks,
    submit_videos TEST_DIR net servers jobs w submitted = Ok (w', submitted')
    ∧ fs w' = fs w
    ∧ calls w' = (calls w ++ concat blocks)%list
    ∧ Forall2 (video_requests TEST_DIR net servers w) jobs blocks.
Proof.
  assert (∀ w0 w submitted, fs w = fs w0 →
            ∃ w' submitted' blocks,
              submit_videos TEST_DIR net servers jobs w submitted
              = Ok (w', submitted')
              ∧ fs w' = fs w0
              ∧ calls w' = (calls w ++ concat blocks)%list
              ∧ Forall2 (video_requests TEST_DIR net servers w0) jobs blocks)
    as Hgen; [| by apply (Hgen w w submitted)].
  intros w0. induction jobs as [| job jobs IH]; intros w1 submitted1 Hfs.
  - exists w1, submitted1, []. simpl. rewrite app_nil_r.
    split; [done |]. split; [done |]. split; [done | constructor].
  - simpl.
    destruct (route_video servers (VideoJob.model job)) as [server |] eqn:Hroute.
    + unfold upload_image. rewrite Hfs.
      destruct (fs w0 !! Path.join TEST_DIR (VideoJob.source_image job))
        as [data |] eqn:Hsrc.
      * destruct (post_image net server _ data) as [assigned | e] eqn:Hpost;
          simpl.
        -- match goal with
           | |- context [PostPrompt server ?g0] => set (g := g0)
           end.
           assert (∀ w2 s2,
                     fs w2 = fs w0 →
                     calls w2
                     = (calls w1
                        ++ [PostImage server (Path.basename
                              (Path.join TEST_DIR (VideoJob.source_image job)));
                            PostPrompt server g])%list →
                     ∃ w' submitted' blocks,
                       submit_videos TEST_DIR net servers jobs w2 s2
                       = Ok (w', submitted')
                       ∧ fs w' = fs w0
                       ∧ calls w' = (calls w1 ++ concat blocks)%list
                       ∧ Forall2 (video_requests TEST_DIR net servers w0)
                                 (job :: jobs) blocks) as Hstep.
           { intros w2 s2 Hfs2 Hcalls2.
             destruct (IH w2 s2 Hfs2) as (w' & s' & blocks & -> & Hf & Hc & Hb).
             exists w', s', ([PostImage server (Path.basename
                               (Path.join TEST_DIR (VideoJob.source_image job)));
                             PostPrompt server g] :: blocks).
             split; [done |]. split; [done |].
             split; [rewrite Hc, Hcalls2; simpl; by rewrite <- app_assoc |].
             constructor; [| done].
             unfold video_requests. rewrite Hroute, Hsrc, Hpost.
             exists g. done. }
           destruct (post_prompt net server g) as [body | e]; simpl.
           ++ destruct (error body); simpl;
                [| destruct (prompt_id body); simpl];
                (apply Hstep; [done |]);
                rewrite calls_emit_printed, calls_emit_requested,
                  calls_emit_printed, calls_emit_requested;
                by rewrite <- app_assoc.
           ++ apply Hstep; [done |].
              rewrite calls_emit_printed, calls_emit_requested,
                calls_emit_printed, calls_emit_requested.
              by rewrite <- app_assoc.
        -- destruct (IH (emit (emit w1 (Requested (VideoJob.filename job)
                                         (PostImage server (Path.basename
                                            (Path.join TEST_DIR
                                               (VideoJob.source_image job))))))
                           (Printed (UploadFailed (VideoJob.source_image job) e)))
                       submitted1 Hfs)
             as (w' & s' & blocks & -> & Hf & Hc & Hb).
           exists w', s', ([PostImage server (Path.basename
                             (Path.join TEST_DIR (VideoJob.source_image job)))]
                           :: blocks).
           split; [done |]. split; [done |].
           split.
           { rewrite Hc, calls_emit_printed, calls_emit_requested. simpl.
             by rewrite <- app_assoc. }
           constructor; [| done].
           unfold video_requests. by rewrite Hroute, Hsrc, Hpost.
      * simpl.
        destruct (IH (emit w1 (Printed (UploadFailed
                                          (VideoJob.source_image job) OSError)))
                    submitted1 Hfs)
          as (w' & s' & blocks & -> & Hf & Hc & Hb).
        exists w', s', ([] :: blocks).
        split; [done |]. split; [done |].
        split; [by rewrite Hc, calls_emit_printed |].
        constructor; [| done].
        unfold video_requests. by rewrite Hroute, Hsrc.
    + destruct (IH (emit w1 (Printed (Skipped (VideoJob.filename job))))
                  submitted1 Hfs)
        as (w' & s' & blocks & -> & Hf & Hc & Hb).
      exists w', s', ([] :: blocks).
      split; [done |]. split; [done |].
      split; [by rewrite Hc, calls_emit_printed |].
      constructor; [| done].
      unfold video_requests. by rewrite Hroute.
Qed.

(** The submission loop of the video stage always returns and leaves the
    local files as they were.  Its requests are, job by job, those of
    [video_requests]: nothing for a job whose server is offline or whose
    source image cannot be read, and otherwise the upload of the source
    image to the job's server, followed, when the upload succeeds, by the
    prompt posted to the same server, whose graph loads the image under
    the name the worker gave the upload (the base name of the source
    image when the worker gave none). *)
Theorem submit_videos_requests (TEST_DIR : string) (net : network)
    (servers : list string) (jobs : list VideoJob.t) (w : world)
    (submitted : list handle) :
  ∃ w' submitted' blocks,
    submit_videos TEST_DIR net servers jobs w submitted = Ok (w', submitted')
    ∧ fs w' = fs w
    ∧ calls w' = (calls w ++ concat blocks)%list
    ∧ Forall2 (video_requests TEST_DIR net servers w) jobs blocks.
Proof. apply submit_videos_requests_aux. Qed.

(** *** Polling and downloading the submitted jobs *)

Lemma polls_emit_printed w l : polls (emit w (Printed l)) = polls w.
Proof. unfold polls. by rewrite calls_emit_printed. Qed.

Lemma polls_emit_view w j s f sub t :
  polls (emit w (Requested j (GetView s f sub t))) = polls w.
Proof.
  unfold polls. rewrite calls_emit_requested, omap_app. simpl.
  by rewrite app_nil_r.
Qed.

Lemma polls_emit_poll w j s id timeout :
  polls (emit w (Requested j (PollHistory s id timeout)))
  = (polls w ++ [PollHistory s id timeout])%list.
Proof. unfold polls. by rewrite calls_emit_requested, omap_app. Qed.

(** What the download loop of one job does to the world, whatever the
    worker answers. *)
Lemma download_items_effect TEST_DIR net fallback job server items w completed :
  ∃ w' completed' r,
    download_items TEST_DIR net fallback job server items w completed
    = (w', completed', r)
    ∧ polls w' = polls w
    ∧ (completed ≤ completed')%nat
    ∧ (∀ path, is_Some (fs w !! path) → is_Some (fs w' !! path))
    ∧ dirs w' = dirs w
    ∧ (∀ c, c ∈ calls w → c ∈ calls w')
    ∧ ((∃ u, r = Ok u)
       ↔ forallb (fetches TEST_DIR net (dirs w) fallback job server) items
         = true).
Proof.
  revert w completed. induction items as [| item items IH]; intros w completed.
  - exists w, completed, (Ok ()). simpl.
    split; [done |]. split; [done |]. split; [lia |]. split; [done |].
    split; [done |]. split; [done |]. split; [done | eauto].
  - cbn [download_items]. rewrite download_file_effect.
    assert (∀ w2, fs w2 = written TEST_DIR net (dirs w) fallback job server
                             (fs w) item →
                  ∀ path, is_Some (fs w !! path) → is_Some (fs w2 !! path))
      as Hkeep.
    { intros w2 -> path Hp. by apply written_keeps. }
    assert (polls (MkWorld (written TEST_DIR net (dirs w) fallback job server
                              (fs w) item)
                     (log w ++ [Requested job (view_call server item)])
                     (dirs w)) = polls w) as Hpolls.
    { unfold polls, calls, view_call. simpl. rewrite omap_app. simpl.
      rewrite omap_app. simpl. by rewrite app_nil_r. }
    assert (∀ c, c ∈ calls w →
                 c ∈ calls (MkWorld (written TEST_DIR net (dirs w) fallback job
                                       server (fs w) item)
                              (log w ++ [Requested job (view_call server item)])
                              (dirs w))) as Hcalls.
    { intros c Hc. unfold calls. simpl. rewrite omap_app.
      apply elem_of_app. by left. }
    cbn [forallb]. unfold fetches at 1.
    destruct (download_error TEST_DIR net (dirs w) fallback job server item)
      as [e |] eqn:He.
    + eexists _, _, _. split; [reflexivity |].
      split; [done |]. split; [lia |]. split; [by apply Hkeep |].
      split; [done |]. split; [done |].
      split; [by intros [u Hu] | done].
    + match goal with
      | |- context [download_items _ _ _ _ _ items ?w2 ?c2] =>
          destruct (IH w2 c2)
            as (w' & c' & r & -> & Hp & Hc & Hfs & Hd & Hcs & Hr)
      end.
      exists w', c', r. split; [done |].
      split; [by rewrite Hp, polls_emit_printed |].
      split; [lia |].
      split.
      { intros path Hpath. apply Hfs. simpl. by apply written_keeps. }
      split; [done |].
      split.
      { intros c Hc'. apply Hcs. rewrite calls_emit_printed. by apply Hcalls. }
      simpl in Hr. done.
Qed.

Lemma retrieve_job_effect TEST_DIR net timeout fallback (h : handle) w
    completed failed :
  ∃ w' completed',
    retrieve_job TEST_DIR net timeout fallback h w completed failed
    = (w', completed',
       if job_succeeds TEST_DIR net fallback (dirs w) timeout h
       then failed else S failed)
    ∧ polls w' = (polls w ++ [PollHistory h.1.2 h.2 timeout])%list
    ∧ (completed ≤ completed')%nat
    ∧ (∀ path, is_Some (fs w !! path) → is_Some (fs w' !! path))
    ∧ dirs w' = dirs w
    ∧ (∀ c, c ∈ calls w → c ∈ calls w').
Proof.
  destruct h as [[job server] id]. unfold retrieve_job, job_succeeds. simpl.
  assert (∀ c, c ∈ calls w →
               c ∈ calls (emit w (Requested job (PollHistory server id timeout))))
    as Hcalls.
  { intros c Hc. rewrite calls_emit_requested. apply elem_of_app. by left. }
  destruct (poll_completion net server id timeout) as [result | e].
  - destruct (download_items_effect TEST_DIR net fallback job server
                (listed_items result)
                (emit w (Requested job (PollHistory server id timeout)))
                completed) as (w' & c' & r & -> & Hp & Hc & Hfs & Hd & Hcs & Hr).
    rewrite polls_emit_poll in Hp. simpl in Hr, Hd.
    destruct r as [u | e].
    + exists w', c'. rewrite (proj1 Hr) by eauto.
      split; [done |]. split; [done |]. split; [done |]. split; [done |].
      split; [done |]. intros c Hc'. by apply Hcs, Hcalls.
    + eexists _, c'.
      destruct (forallb _ _) eqn:Hall.
      * destruct (proj2 Hr eq_refl) as [u Hu]. done.
      * split; [reflexivity |]. rewrite polls_emit_printed.
        split; [done |]. split; [done |]. split; [done |]. split; [done |].
        intros c Hc'. rewrite calls_emit_printed. by apply Hcs, Hcalls.
  - eexists _, completed. split; [reflexivity |].
    rewrite polls_emit_printed, polls_emit_poll.
    split; [done |]. split; [lia |]. split; [done |]. split; [done |].
    intros c Hc'. rewrite calls_emit_printed. by apply Hcalls.
Qed.

Lemma retrieve_all_polls_every_job_aux (TEST_DIR : string) (net : network)
    (timeout : Z) (fallback : string) (submitted : list handle) (w : world)
    (completed failed : nat) :
  ∃ w' completed',
    retrieve_all TEST_DIR net timeout fallback submitted w completed failed
    = (w', completed',
       (failed + length (filter (fun h => job_succeeds TEST_DIR net fallback
                                            (dirs w) timeout h = false)
                                submitted))%nat)
    ∧ polls w'
      = (polls w ++ ((fun h : handle => PollHistory h.1.2 h.2 timeout)
                       <$> submitted))%list
    ∧ (completed ≤ completed')%nat
    ∧ (∀ path, is_Some (fs w !! path) → is_Some (fs w' !! path))
    ∧ dirs w' = dirs w
    ∧ (∀ c, c ∈ calls w → c ∈ calls w').
Proof.
  revert w completed failed.
  induction submitted as [| h submitted IH]; intros w completed failed.
  - exists w, completed. simpl. rewrite Nat.add_0_r, app_nil_r.
    split; [done |]. split; [done |]. split; [lia | done].
  - simpl.
    destruct (retrieve_job_effect TEST_DIR net timeout fallback h w
                completed failed) as (w1 & c1 & -> & Hp1 & Hc1 & Hfs1 & Hd1 & Hcs1).
    destruct (IH w1 c1 (if job_succeeds TEST_DIR net fallback (dirs w) timeout h
                        then failed else S failed))
      as (w' & c' & -> & Hp & Hc & Hfs & Hd & Hcs).
    exists w', c'. rewrite Hd1. split.
    + f_equal. rewrite filter_cons.
      destruct (job_succeeds TEST_DIR net fallback (dirs w) timeout h);
        simpl; [done | lia].
    + split; [by rewrite Hp, Hp1, <- app_assoc |].
      split; [lia |]. split; [intros path Hpath; by apply Hfs, Hfs1 |].
      split; [congruence |]. intros c Hc'. by apply Hcs, Hcs1.
Qed.

(** Every submitted job is polled exactly once, in submission order,
    whatever happens to the jobs before it.  The count of failures grows
    by the number of jobs whose polling raises or one of whose files
    cannot be fetched, the count of downloads never shrinks, and no local
    file is removed. *)
Theorem retrieve_all_polls_every_job (TEST_DIR : string) (net : network)
    (timeout : Z) (fallback : string) (submitted : list handle) (w : world)
    (completed failed : nat) :
  ∃ w' completed',
    retrieve_all TEST_DIR net timeout fallback submitted w completed failed
    = (w', completed',
       (failed + length (filter (fun h => job_succeeds TEST_DIR net fallback
                                            (dirs w) timeout h = false)
                                submitted))%nat)
    ∧ polls w'
      = (polls w ++ ((fun h : handle => PollHistory h.1.2 h.2 timeout)
                       <$> submitted))%list
    ∧ (completed ≤ completed')%nat
    ∧ (∀ path, is_Some (fs w !! path) → is_Some (fs w' !! path)).
Proof.
  destruct (retrieve_all_polls_every_job_aux TEST_DIR net timeout fallback
              submitted w completed failed)
    as (w' & c' & Hrun & Hp & Hc & Hfs & _).
  by exists w', c'.
Qed.

(** The run of the two sample handles when the gif cannot be fetched:
    both jobs fail, both are polled. *)
Example retrieve_all_flaky :
  let '(w', completed, failed) :=
    retrieve_all "/repo/test" flaky Poller.IMG_TIMEOUT ".png"
      [("a-c01-sd35", WRIGHT, "p-1"); ("a-c02-sd35", WRIGHT, "p-2")]
      (World ∅ []) 0 0 in
  completed = 4%nat ∧ failed = 2%nat
  ∧ polls w' = [PollHistory WRIGHT "p-1" 300; PollHistory WRIGHT "p-2" 300].
Proof. vm_compute. done. Qed.

(** *** From the image stage to the video stage *)

(** When a job is polled to completion and all its listed files are
    fetched, each of them lies afterwards in the test directory under the
    job's file name plus its local extension; a video job whose source
    image has that name then passes the source check of the video
    stage. *)
Theorem retrieved_image_is_source (TEST_DIR : string) (net : network)
    (timeout : Z) (fallback job server id : string) (w : world)
    (completed failed : nat) (result : Poller.history_entry)
    (item : Poller.output_item) (video : VideoJob.t) :
  poll_completion net server id timeout = Ok result →
  Forall (fetched TEST_DIR net (dirs w) fallback job server)
         (listed_items result) →
  item ∈ listed_items result →
  VideoJob.source_image video = job ++ local_ext fallback item →
  is_Some (fs (retrieve_job TEST_DIR net timeout fallback (job, server, id) w
                 completed failed).1.1
           !! Path.join TEST_DIR (VideoJob.source_image video))
  ∧ source_missing TEST_DIR
      (retrieve_job TEST_DIR net timeout fallback (job, server, id) w
         completed failed).1.1 video = false.
Proof.
  intros Hpoll Hserved Hitem Hsrc.
  unfold retrieve_job. rewrite Hpoll.
  destruct (download_items_all TEST_DIR net fallback job server
              (listed_items result)
              (emit w (Requested job (PollHistory server id timeout)))
              completed Hserved) as (w1 & -> & Hfs & _).
  simpl.
  assert (is_Some (fs w1 !! Path.join TEST_DIR (VideoJob.source_image video)))
    as Hfile.
  { rewrite Hsrc, Hfs.
    by apply (stored_has TEST_DIR net (dirs w) fallback job server). }
  split; [done |].
  unfold source_missing, file_exists.
  rewrite bool_decide_eq_true_2; [done | by left].
Qed.

Lemma retrieved_image_is_source_witness :
  source_missing "/repo/test"
    (retrieve_job "/repo/test" steady Poller.IMG_TIMEOUT ".png"
       ("hague-c01-flux_dev", NEUMANN, "p-1") (World ∅ []) 0 0).1.1
    hague_v01 = false.
Proof.
  apply proj2 with
    (A := is_Some (fs (retrieve_job "/repo/test" steady Poller.IMG_TIMEOUT
                         ".png" ("hague-c01-flux_dev", NEUMANN, "p-1")
                         (World ∅ []) 0 0).1.1
                   !! Path.join "/repo/test"
                        (VideoJob.source_image hague_v01))).
  apply (retrieved_image_is_source "/repo/test" steady Poller.IMG_TIMEOUT
           ".png" "hague-c01-flux_dev" NEUMANN "p-1" (World ∅ []) 0 0
           sample_entry (png "gentest_00001_.png") hague_v01).
  - reflexivity.
  - repeat constructor.
  - apply list_elem_of_here.
  - reflexivity.
Defined.

(** *** The video stage when all source images are there *)

Lemma find_all_false {A} (f : A → bool) (l : list A) :
  (∀ x, x ∈ l → f x = false) → List.find f l = None.
Proof.
  induction l as [| x l IH]; intros H; [done |].
  simpl. rewrite (H x) by apply list_elem_of_here.
  apply IH. intros y Hy. by apply H, list_elem_of_further.
Qed.

Lemma retrieve_all_calls TEST_DIR net timeout fallback submitted w completed
    failed c :
  c ∈ calls w →
  c ∈ calls (retrieve_all TEST_DIR net timeout fallback submitted w
               completed failed).1.1.
Proof.
  intros Hc.
  destruct (retrieve_all_polls_every_job_aux TEST_DIR net timeout fallback
              submitted w completed failed)
    as (w' & c' & -> & _ & _ & _ & _ & Hcs).
  by apply Hcs.
Qed.

Lemma elem_of_concat_2 {A} (x : A) (l : list A) (ls : list (list A)) :
  x ∈ l → l ∈ ls → x ∈ concat ls.
Proof.
  intros Hx Hl. induction Hl as [l ls | l l' ls _ IH]; simpl;
    apply elem_of_app; [by left | right; by apply IH].
Qed.

(** When no job's source image is missing, the video stage runs to its
    end, and for every job whose server is online and whose source image
    is a file, the image is uploaded to that server, under its base
    name. *)
Theorem videos_all_uploaded (TEST_DIR : string) (net : network)
    (servers : list string) (jobs : list VideoJob.t) (w : world) :
  (∀ job, job ∈ jobs → source_missing TEST_DIR w job = false) →
  ∃ w' completed failed,
    generate_videos TEST_DIR net servers jobs w = Ok (w', completed, failed)
    ∧ ∀ job server,
        job ∈ jobs →
        route_video servers (VideoJob.model job) = Some server →
        is_Some (fs w !! Path.join TEST_DIR (VideoJob.source_image job)) →
        PostImage server
          (Path.basename (Path.join TEST_DIR (VideoJob.source_image job)))
        ∈ calls w'.
Proof.
  intros Hall. unfold generate_videos.
  rewrite (find_all_false _ _ Hall).
  destruct (submit_videos_requests_aux TEST_DIR net servers jobs w [])
    as (w1 & submitted & blocks & -> & Hfs & Hcalls & Hblocks).
  simpl.
  destruct (retrieve_all TEST_DIR net Poller.VID_TIMEOUT ".webp" submitted w1 0 0)
    as [[w' completed] failed] eqn:Hret.
  exists w', completed, failed. split; [done |].
  intros job server Hjob Hroute [data Hdata].
  assert (PostImage server
            (Path.basename (Path.join TEST_DIR (VideoJob.source_image job)))
          ∈ calls w1) as Hin.
  { rewrite Hcalls. apply elem_of_app. right.
    apply list_elem_of_lookup in Hjob as [i Hi].
    destruct (Forall2_lookup_l _ _ _ _ _ Hblocks Hi) as (block & Hb & Hreq).
    apply (elem_of_concat_2 _ block); [| by eapply list_elem_of_lookup_2].
    unfold video_requests in Hreq. rewrite Hroute, Hdata in Hreq.
    destruct (post_image net server _ data) as [assigned | e].
    - destruct Hreq as (g & _ & ->). apply list_elem_of_here.
    - rewrite Hreq. apply list_elem_of_here. }
  pose proof (retrieve_all_calls TEST_DIR net Poller.VID_TIMEOUT ".webp"
                submitted w1 0 0 _ Hin) as Hfinal.
  by rewrite Hret in Hfinal.
Qed.

Lemma videos_all_uploaded_witness :
  (∀ job, job ∈ [hague_v01] → source_missing "/repo/test" one_source job = false)
  ∧ ∃ w' completed failed,
      generate_videos "/repo/test" steady [WRIGHT] [hague_v01] one_source
      = Ok (w', completed, failed)
      ∧ ∀ job server,
          job ∈ [hague_v01] →
          route_video [WRIGHT] (VideoJob.model job) = Some server →
          is_Some (fs one_source
                   !! Path.join "/repo/test" (VideoJob.source_image job)) →
          PostImage server
            (Path.basename (Path.join "/repo/test" (VideoJob.source_image job)))
          ∈ calls w'.
Proof.
  assert (∀ job, job ∈ [hague_v01] →
                 source_missing "/repo/test" one_source job = false) as Hall.
  { intros job ->%list_elem_of_singleton. reflexivity. }
  split; [exact Hall |].
  exact (videos_all_uploaded "/repo/test" steady [WRIGHT] [hague_v01]
           one_source Hall).
Defined.

(** A source path that is a directory passes the source check, but the
    image cannot be read: the upload fails and no request is made. *)
Example directory_source_passes_check :
  source_missing "/repo/test" source_is_directory hague_v01 = false
  ∧ generate_videos "/repo/test" steady [WRIGHT] [hague_v01] source_is_directory
    = Ok (MkWorld ∅ [Printed (UploadFailed "hague-c01-flux_dev.png" OSError)]
            {["/repo/test/hague-c01-flux_dev.png"]}, 0%nat, 0%nat).
Proof. split; reflexivity. Qed.

(** *** From the probe of the two servers to the routing *)

Lemma model_server_values model server :
  MODEL_SERVER !! model = Some server → server = WRIGHT ∨ server = NEUMANN.
Proof.
  unfold MODEL_SERVER, dict. simpl. intros H.
  repeat (apply lookup_insert_Some in H as [[_ <-] | [_ H]]; [eauto |]).
  by rewrite lookup_empty in H.
Qed.

(** [get_available_servers] returns, in the order wright, neumann, the
    servers among these two whose queue request gave a decodable body,
    whatever exception the other raised.  With the list it returns, if
    not empty, a job whose model has a configured server is routed to
    that server exactly when the server answered the probe, and is
    skipped otherwise; the lookup of [servers[0]] does not raise. *)
Theorem probe_then_route {A : Type} (queue : string → outcome A) :
  get_available_servers queue = List.filter (answered queue) [WRIGHT; NEUMANN]
  ∧ (∀ url, url ∈ get_available_servers queue
            ↔ (url = WRIGHT ∨ url = NEUMANN) ∧ ∃ a, queue url = Ok a)
  ∧ (∀ model server,
       MODEL_SERVER !! model = Some server →
       get_available_servers queue ≠ [] →
       route_image (get_available_servers queue) model
       = Ok (match queue server with
             | Ok _ => Some server
             | Raise _ => None
             end)).
Proof.
  assert (WRIGHT ≠ NEUMANN) as Hne by discriminate.
  unfold get_available_servers, answered. simpl.
  destruct (queue WRIGHT) as [a1 | e1] eqn:H1;
    destruct (queue NEUMANN) as [a2 | e2] eqn:H2; simpl.
  all: split; [reflexivity |].
  all: split.
  all: try (intros url; split;
            [ intros Hin;
              repeat (apply elem_of_cons in Hin as [-> | Hin];
                      [split; [eauto | eauto] |]);
              by apply elem_of_nil in Hin
            | intros [[-> | ->] [a Ha]]; try congruence;
              repeat first [apply list_elem_of_here | apply list_elem_of_further] ]).
  all: intros model server Hm Hnonempty; try done.
  all: unfold route_image; simpl; rewrite Hm; simpl.
  all: destruct (model_server_values _ _ Hm) as [-> | ->].
  all: rewrite ?H1, ?H2.
  all: first [ rewrite decide_True;
               [done | repeat first [apply list_elem_of_here
                                    | apply list_elem_of_further]]
             | rewrite decide_False;
               [done | intros Hin;
                       repeat (apply elem_of_cons in Hin as [Hin | Hin];
                               [congruence |]);
                       by apply elem_of_nil in Hin] ].
Qed.

Lemma probe_then_route_witness :
  route_image
    (get_available_servers
       (fun url => if String.eqb url WRIGHT then Ok "{}" else Raise URLError))
    "flux_dev"
  = Ok None.
Proof.
  destruct (probe_then_route
              (fun url => if String.eqb url WRIGHT then Ok "{}"
                          else Raise URLError)) as (_ & _ & Hroute).
  apply (Hroute "flux_dev" NEUMANN); [reflexivity | discriminate].
Defined.

(** Only [NEUMANN] answers: it is the whole list, and so the first
    element of it. *)
Example only_neumann_answers :
  get_available_servers
    (fun url => if String.eqb url NEUMANN then Ok "{}" else Raise OSError)
  = [NEUMANN].
Proof. reflexivity. Qed.

(** *** The image stage as a whole *)

Lemma submitted_lines_sublist servers jobs new_lines :
  Forall2 (image_line servers) jobs new_lines →
  (omap submitted_of new_lines).*1 `sublist_of` ImageJob.filename <$> jobs
  ∧ Forall (fun js : string * string => js.2 ∈ servers)
           (omap submitted_of new_lines).
Proof.
  induction 1 as [| job l jobs ls Hl _ [IH1 IH2]]; [by split; constructor |].
  destruct Hl as [-> | [(server & Hs & ->) | (e & ->)]]; simpl.
  - split; [by apply sublist_cons | done].
  - split; [by apply sublist_skip | by constructor].
  - split; [by apply sublist_cons | done].
Qed.

Lemma polls_of_prompts w w' new_calls :
  calls w' = (calls w ++ new_calls)%list →
  Forall (fun c => ∃ server g, c = PostPrompt server g) new_calls →
  polls w' = polls w.
Proof.
  intros Hc Hall. unfold polls. rewrite Hc, omap_app.
  assert (omap (fun c => match c with
                         | PollHistory _ _ _ => Some c
                         | _ => None
                         end) new_calls = []) as ->; [| by rewrite app_nil_r].
  clear Hc. induction Hall as [| c l (s & g & ->) _ IH]; [done | exact IH].
Qed.

Lemma submitted_handle_mono net servers jobs job h w w' :
  (∀ c, c ∈ calls w → c ∈ calls w') →
  submitted_handle net servers jobs h w →
  submitted_handle net servers (job :: jobs) h w'.
Proof.
  intros Hcalls (j & builder & g & body & Hj & Hname & Hroute & Hb & Hg & Hpost
                 & Herr & Hid & Hc).
  exists j, builder, g, body.
  split; [by apply list_elem_of_further |]. repeat (split; [done |]).
  by apply Hcalls.
Qed.

(** Every handle the submission loop hands on stands for a prompt that
    was posted for a job of the list and accepted by the worker. *)
Lemma submit_images_handles net servers jobs w submitted w' submitted' :
  submit_images net servers jobs w submitted = Ok (w', submitted') →
  dirs w' = dirs w
  ∧ (∀ c, c ∈ calls w → c ∈ calls w')
  ∧ ∃ new_handles,
      submitted' = (submitted ++ new_handles)%list
      ∧ Forall (fun h => submitted_handle net servers jobs h w') new_handles.
Proof.
  revert w submitted. induction jobs as [| job jobs IH]; intros w submitted.
  - intros [= <- <-]. split; [done |]. split; [done |].
    exists []. by rewrite app_nil_r.
  - assert (∀ w2 s2,
              dirs w2 = dirs w →
              (∀ c, c ∈ calls w → c ∈ calls w2) →
              s2 = submitted →
              submit_images net servers jobs w2 s2 = Ok (w', submitted') →
              dirs w' = dirs w
              ∧ (∀ c, c ∈ calls w → c ∈ calls w')
              ∧ ∃ new_handles,
                  submitted' = (submitted ++ new_handles)%list
                  ∧ Forall (fun h => submitted_handle net servers (job :: jobs)
                                       h w') new_handles) as Hskip.
    { intros w2 s2 Hd Hc -> (Hd' & Hc' & nh & -> & Hnh)%IH.
      split; [congruence |]. split; [intros c Hin; by apply Hc', Hc |].
      exists nh. split; [done |].
      eapply Forall_impl; [exact Hnh |]. intros h Hh.
      by apply (submitted_handle_mono net servers jobs job h w'). }
    simpl.
    destruct (route_image servers (ImageJob.model job)) as [[server |] | e]
      eqn:Hroute; simpl; [| | done].
    + destruct (BUILDERS !! ImageJob.model job) as [builder |] eqn:Hb;
        unfold subscript; rewrite Hb; simpl; [| done].
      destruct (builder _ _ _ _ _) as [g | e] eqn:Hg; simpl; [| done].
      assert (∀ c, c ∈ calls w →
                   c ∈ calls (emit w (Requested (ImageJob.filename job)
                                        (PostPrompt server g)))) as Hc1.
      { intros c Hc. rewrite calls_emit_requested. apply elem_of_app. by left. }
      destruct (post_prompt net server g) as [body | e] eqn:Hpost; simpl.
      * destruct (error body) as [err |] eqn:Herr; simpl.
        { apply Hskip; [done | | done].
          intros c Hc. rewrite calls_emit_printed. by apply Hc1. }
        destruct (prompt_id body) as [id |] eqn:Hid; simpl.
        -- intros (Hd' & Hc' & nh & -> & Hnh)%IH.
           split; [done |].
           split.
           { intros c Hc. apply Hc'. rewrite calls_emit_printed. by apply Hc1. }
           exists ((ImageJob.filename job, server, id) :: nh).
           split; [by rewrite <- app_assoc |].
           constructor.
           ++ exists job, builder, g, body. simpl.
              split; [apply list_elem_of_here |]. repeat (split; [done |]).
              apply Hc'. rewrite calls_emit_printed, calls_emit_requested.
              apply elem_of_app. right. apply list_elem_of_here.
           ++ eapply Forall_impl; [exact Hnh |]. intros h Hh.
              by apply (submitted_handle_mono net servers jobs job h w').
        -- apply Hskip; [done | | done].
           intros c Hc. rewrite calls_emit_printed. by apply Hc1.
      * apply Hskip; [done | | done].
        intros c Hc. rewrite calls_emit_printed. by apply Hc1.
    + apply Hskip; [done | | done].
      intros c Hc. by rewrite calls_emit_printed.
Qed.

(** With an online server and a builder for every job's model, the image
    stage runs to its end.  The handles that its submission loop hands on
    are the jobs it polls: each stands for a job of the list, routed to a
    server of the online list, whose prompt was posted to that server and
    accepted, the poll asking for the prompt id of the worker's reply;
    they are polled in job order, each once, with the image timeout, and
    nothing else is polled.  The failures it counts are the polled jobs
    whose polling raised or one of whose files could not be fetched,
    never more than there are jobs; and no local file is removed. *)
Theorem generate_images_polls_submitted (TEST_DIR : string) (net : network)
    (servers : list string) (jobs : list ImageJob.t) (w : world) :
  servers ≠ [] →
  Forall (fun job => is_Some (BUILDERS !! ImageJob.model job)) jobs →
  ∃ w1 (handles : list handle) w' completed failed,
    submit_images net servers jobs w [] = Ok (w1, handles)
    ∧ generate_images TEST_DIR net servers jobs w = Ok (w', completed, failed)
    ∧ (fun h : handle => h.1.1) <$> handles
      `sublist_of` ImageJob.filename <$> jobs
    ∧ Forall (fun h : handle =>
                h.1.2 ∈ servers ∧ submitted_handle net servers jobs h w')
             handles
    ∧ polls w'
      = (polls w ++ ((fun h : handle =>
                        PollHistory h.1.2 h.2 Poller.IMG_TIMEOUT) <$> handles))%list
    ∧ failed
      = length (filter (fun h => job_succeeds TEST_DIR net ".png" (dirs w)
                                   Poller.IMG_TIMEOUT h = false)
                       handles)
    ∧ (failed ≤ length jobs)%nat
    ∧ (∀ path, is_Some (fs w !! path) → is_Some (fs w' !! path)).
Proof.
  intros Hne Hjobs. unfold generate_images.
  destruct (submit_images_reports_aux net servers jobs w [] Hne Hjobs)
    as (w1 & handles & new_lines & Hrun & Hlines & Hf2 & Hsub).
  simpl in Hrun. rewrite Hrun. simpl.
  destruct (submit_images_keeps _ _ _ _ _ _ _ Hrun)
    as (Hfs & nc & nh & Hcalls & _ & Hnc & _).
  destruct (submit_images_handles _ _ _ _ _ _ _ Hrun)
    as (Hdirs & _ & nh' & Hnh' & Hhandles).
  simpl in Hnh'. subst nh'.
  destruct (retrieve_all_polls_every_job_aux TEST_DIR net Poller.IMG_TIMEOUT
              ".png" handles w1 0 0)
    as (w' & c' & -> & Hp & _ & Hmono & _ & Hcs).
  destruct (submitted_lines_sublist servers jobs new_lines Hf2) as [Hsl Hsrv].
  rewrite Hsub in Hsl, Hsrv.
  eexists w1, handles, w', c', _. split; [reflexivity |].
  split; [reflexivity |].
  split.
  { by rewrite <- list_fmap_compose in Hsl. }
  split.
  { rewrite Forall_fmap in Hsrv. apply Forall_forall. intros h Hh.
    rewrite Forall_forall in Hsrv, Hhandles. split; [by apply Hsrv |].
    destruct (Hhandles h Hh)
      as (j & builder & g & body & Hj & Hname & Hroute & Hb & Hg & Hpost
          & Herr & Hid & Hc).
    exists j, builder, g, body. repeat (split; [done |]). by apply Hcs. }
  split.
  { rewrite Hp. f_equal.
    apply (polls_of_prompts w w1 nc Hcalls).
    eapply Forall_impl; [exact Hnc |]. intros c (s & g & -> & _). eauto. }
  split; [by rewrite Hdirs |].
  split.
  { simpl. etrans; [apply length_filter |].
    apply sublist_length in Hsl. by rewrite !length_fmap in Hsl. }
  intros path Hpath. apply Hmono. by rewrite Hfs.
Qed.

Lemma generate_images_polls_submitted_witness :
  ∃ w1 (handles : list handle) w' completed failed,
    submit_images steady [WRIGHT] [city_c01; city_c02] (World ∅ []) []
    = Ok (w1, handles)
    ∧ generate_images "/repo/test" steady [WRIGHT] [city_c01; city_c02]
        (World ∅ []) = Ok (w', completed, failed)
    ∧ polls w'
      = (polls (World ∅ [])
         ++ ((fun h : handle => PollHistory h.1.2 h.2 Poller.IMG_TIMEOUT)
               <$> handles))%list
    ∧ (failed ≤ length [city_c01; city_c02])%nat.
Proof.
  destruct (generate_images_polls_submitted "/repo/test" steady [WRIGHT]
              [city_c01; city_c02] (World ∅ []))
    as (w1 & handles & w' & completed & failed & Hsub & Hrun & _ & _ & Hpolls
        & _ & Hle & _).
  - discriminate.
  - repeat constructor; eexists; reflexivity.
  - exists w1, handles, w', completed, failed. done.
Defined.

(** The run of the image stage on the two sample jobs when only [WRIGHT]
    is online: the [sd35] job is submitted and polled under the prompt id
    of the reply, the [flux_dev] job is skipped and not polled. *)
Example generate_images_sample_polls :
  (fun r => match r with
            | Ok (w', _, _) => polls w'
            | Raise _ => []
            end)
    (generate_images "/repo/test" steady [WRIGHT] [city_c01; city_c02]
       (World ∅ []))
  = [PollHistory WRIGHT "p-1" Poller.IMG_TIMEOUT].
Proof. vm_compute. reflexivity. Qed.

End StageFacts.

(** ** The job lists *)

Module JobsFacts.
Import Stage Jobs.

Example fmt_02d_examples :
  fmt_02d 1 = "01" ∧ fmt_02d 9 = "09" ∧ fmt_02d 10 = "10"
  ∧ fmt_02d 42 = "42" ∧ fmt_02d 123 = "123" ∧ fmt_02d 0 = "00".
Proof. repeat split; reflexivity. Qed.

Lemma digit_char m :
  (m < 10)%nat →
  let d := nat_of_ascii (ascii_of_nat (48 + m)) in
  ((48 <=? d)%nat && (d <=? 57)%nat = true) ∧ (d - 48 = m)%nat.
Proof.
  intros Hm. cbv zeta. rewrite nat_ascii_embedding by lia.
  split; [| lia].
  apply andb_true_intro. split; apply Nat.leb_le; lia.
Qed.

Lemma leading_number_digit a m tail :
  (m < 10)%nat →
  leading_number a (String (ascii_of_nat (48 + m)) tail)
  = leading_number (10 * a + m) tail.
Proof.
  intros Hm. destruct (digit_char m Hm) as [Hd Hv].
  cbn [leading_number]. cbv zeta in *. by rewrite Hd, Hv.
Qed.

Lemma leading_number_decimal fuel n acc :
  (n < fuel)%nat →
  ∃ p, ∀ a, leading_number a (decimal fuel n acc)
            = leading_number (a * p + n) acc.
Proof.
  revert n acc. induction fuel as [| fuel IH]; intros n acc Hn; [lia |].
  cbn [decimal]. cbv zeta.
  pose proof (Nat.mod_upper_bound n 10 ltac:(lia)) as Hmod.
  destruct (Nat.ltb_spec n 10) as [Hlt | Hge].
  - exists 10%nat. intros a. rewrite Nat.mod_small by done.
    rewrite leading_number_digit by done. f_equal. lia.
  - assert (n / 10 < fuel)%nat as Hdiv.
    { pose proof (Nat.div_lt n 10 ltac:(lia) ltac:(lia)). lia. }
    destruct (IH (n / 10)%nat (String (ascii_of_nat (48 + n mod 10)) acc) Hdiv)
      as [p Hp].
    exists (10 * p)%nat. intros a. rewrite Hp.
    rewrite leading_number_digit by done. f_equal.
    pose proof (Nat.div_mod_eq n 10). lia.
Qed.

Lemma decimal_app fuel n acc tail :
  decimal fuel n (acc ++ tail) = decimal fuel n acc ++ tail.
Proof.
  revert n acc. induction fuel as [| fuel IH]; intros n acc; [done |].
  cbn [decimal]. cbv zeta.
  destruct (n <? 10)%nat; [done |].
  apply (IH _ (String _ acc)).
Qed.

Lemma string_app_cons x (a b : string) : String x a ++ b = String x (a ++ b).
Proof. reflexivity. Qed.

Lemma leading_number_zeros m s : leading_number 0 (zeros m ++ s) = leading_number 0 s.
Proof.
  induction m as [| m IH]; [done |].
  cbn [zeros]. rewrite string_app_cons. exact IH.
Qed.

Lemma string_app_assoc (a b c : string) : (a ++ b) ++ c = a ++ (b ++ c).
Proof.
  induction a as [| x a IH]; [done |].
  rewrite !string_app_cons. by rewrite IH.
Qed.

Lemma string_app_inj_l (a b c : string) : a ++ b = a ++ c → b = c.
Proof.
  induction a as [| x a IH]; [done |].
  rewrite !string_app_cons. intros [= H]. by apply IH.
Qed.

(** Reading back the number of a formatted index: the format loses
    nothing, whatever follows the hyphen. *)
Lemma leading_number_fmt i tail :
  leading_number 0 (fmt_02d i ++ String "-" tail) = i.
Proof.
  unfold fmt_02d, str. rewrite string_app_assoc, leading_number_zeros.
  rewrite <- decimal_app. simpl append.
  destruct (leading_number_decimal (S i) i (String "-" tail) ltac:(lia))
    as [p Hp].
  rewrite Hp. reflexivity.
Qed.

Lemma image_jobs_of_filenames kind letter negative w h draws project prompts
    i k job :
  job ∈ image_jobs_of kind letter negative w h draws project prompts i k →
  ∃ j model,
    (i ≤ j)%nat
    ∧ ImageJob.filename job
      = project ++ "-" ++ letter ++ fmt_02d j ++ "-" ++ model.
Proof.
  revert i k. induction prompts as [| [prompt model] rest IH]; intros i k;
    simpl.
  - intros H. by apply elem_of_nil in H.
  - intros [-> | Hin]%elem_of_cons.
    + exists i, model. split; [lia | done].
    + apply IH in Hin as (j & m & Hj & Hf). exists j, m. split; [lia | done].
Qed.

Lemma video_jobs_of_filenames draws project specs i k job :
  job ∈ video_jobs_of draws project specs i k →
  ∃ j, (i ≤ j)%nat
       ∧ VideoJob.filename job = project ++ "-v" ++ fmt_02d j ++ "-wan_i2v".
Proof.
  revert i k. induction specs as [| [motion source] rest IH]; intros i k;
    simpl.
  - intros H. by apply elem_of_nil in H.
  - intros [-> | Hin]%elem_of_cons.
    + exists i. split; [lia | done].
    + apply IH in Hin as (j & Hj & Hf). exists j. split; [lia | done].
Qed.

(** The jobs built from the entries of one project have pairwise
    distinct file names, however many entries there are and whatever
    their models: no two jobs of a project of one kind write to the same
    local name.  This holds for the image jobs of a catalog project and
    for the video jobs of a project. *)
Theorem project_filenames_distinct (kind letter negative : string) (w h : Z)
    (draws : nat → Z) (project : string) (prompts specs : list (string * string))
    (i k : nat) :
  NoDup (ImageJob.filename
           <$> image_jobs_of kind letter negative w h draws project prompts i k)
  ∧ NoDup (VideoJob.filename <$> video_jobs_of draws project specs i k).
Proof.
  split.
  - revert i k. induction prompts as [| [prompt model] rest IH]; intros i k;
      simpl; constructor; [| apply IH].
    intros (job & Hf & Hin)%list_elem_of_fmap.
    apply image_jobs_of_filenames in Hin as (j & m & Hj & Hjob).
    rewrite Hjob in Hf. simpl in Hf.
    do 3 apply string_app_inj_l in Hf.
    apply (f_equal (leading_number 0)) in Hf.
    change ("-" ++ model) with (String "-" model) in Hf.
    change ("-" ++ m) with (String "-" m) in Hf.
    rewrite !leading_number_fmt in Hf. lia.
  - revert i k. induction specs as [| [motion source] rest IH]; intros i k;
      simpl; constructor; [| apply IH].
    intros (job & Hf & Hin)%list_elem_of_fmap.
    apply video_jobs_of_filenames in Hin as (j & Hj & Hjob).
    rewrite Hjob in Hf. simpl in Hf.
    do 2 apply string_app_inj_l in Hf.
    apply (f_equal (leading_number 0)) in Hf.
    change ("-wan_i2v") with (String "-" "wan_i2v") in Hf.
    rewrite !leading_number_fmt in Hf. lia.
Qed.

Lemma image_jobs_of_shape kind letter negative w h draws project prompts i k :
  (fun job => (ImageJob.prompt job, ImageJob.model job))
    <$> image_jobs_of kind letter negative w h draws project prompts i k
  = prompts
  ∧ ImageJob.seed
      <$> image_jobs_of kind letter negative w h draws project prompts i k
    = draws <$> seq k (length prompts)
  ∧ Forall (fun job =>
              ImageJob.type job = kind ∧ ImageJob.width job = w
              ∧ ImageJob.height job = h
              ∧ ImageJob.neg job
                = if String.eqb (ImageJob.model job) "sd35"
                  then negative else "")
           (image_jobs_of kind letter negative w h draws project prompts i k).
Proof.
  revert i k. induction prompts as [| [prompt model] rest IH]; intros i k;
    simpl; [by repeat split; constructor |].
  destruct (IH (S i) (S k)) as (Hlist & Hseed & Hall).
  split; [f_equal; exact Hlist |]. split; [f_equal; exact Hseed |].
  constructor; [| done]. simpl. by repeat split.
Qed.

Lemma catalog_jobs_shape kind letter negative draws (projects : catalog) k w h :
  SIZES !! kind = Some (w, h) →
  ∃ jobs,
    catalog_jobs kind letter negative draws projects k
    = Ok (jobs, (k + length jobs)%nat)
    ∧ length jobs = entries projects
    ∧ (fun job => (ImageJob.prompt job, ImageJob.model job)) <$> jobs
      = projects ≫= snd
    ∧ ImageJob.seed <$> jobs = draws <$> seq k (length jobs)
    ∧ Forall (fun job =>
                ImageJob.type job = kind ∧ ImageJob.width job = w
                ∧ ImageJob.height job = h
                ∧ ImageJob.neg job
                  = if String.eqb (ImageJob.model job) "sd35"
                    then negative else "")
             jobs.
Proof.
  intros Hsize. revert k.
  induction projects as [| [project prompts] rest IH]; intros k.
  - exists []. simpl. rewrite Nat.add_0_r. by repeat split; constructor.
  - simpl. unfold subscript. rewrite Hsize. simpl.
    destruct (IH (k + length prompts)%nat)
      as (more & -> & Hlen & Hlist & Hseed & Hall).
    destruct (image_jobs_of_shape kind letter negative w h draws project
                prompts 1 k) as (Hlist1 & Hseed1 & Hall1).
    assert (length (image_jobs_of kind letter negative w h draws project
                      prompts 1 k) = length prompts) as Hlen1.
    { by rewrite <- Hlist1 at 2; rewrite length_fmap. }
    eexists. simpl. split.
    { do 2 f_equal. rewrite length_app, Hlen1. lia. }
    split.
    { unfold entries in *. simpl. rewrite !length_app, Hlen1, Hlen. done. }
    split.
    { by rewrite fmap_app, Hlist1, Hlist. }
    split.
    { rewrite fmap_app, length_app, seq_app, fmap_app, Hseed1, Hseed, Hlen1.
      done. }
    by apply Forall_app.
Qed.

(** [build_image_jobs] returns one job per catalog entry, the cinematic
    jobs first and the webtoon jobs after them, each group in the order
    of its catalog and with the prompts and models of the catalog.  The
    seeds of the jobs are consecutive draws of the random generator, in
    job order, starting with the next draw.  A cinematic job is 1280 by
    720 and a webtoon job 768 by 1024.  The negative prompt of a job is
    the negative prompt of its kind when the model is [sd35], and empty
    for every other model. *)
Theorem build_image_jobs_seeds (CINEMATIC WEBTOON : catalog)
    (draws : nat → Z) (k : nat) :
  ∃ cinematic webtoon,
    build_image_jobs CINEMATIC WEBTOON draws k
    = Ok ((cinematic ++ webtoon)%list,
          (k + length (cinematic ++ webtoon)%list)%nat)
    ∧ length cinematic = entries CINEMATIC
    ∧ length webtoon = entries WEBTOON
    ∧ (fun job => (ImageJob.prompt job, ImageJob.model job)) <$> cinematic
      = CINEMATIC ≫= snd
    ∧ (fun job => (ImageJob.prompt job, ImageJob.model job)) <$> webtoon
      = WEBTOON ≫= snd
    ∧ ImageJob.seed <$> (cinematic ++ webtoon)%list
      = draws <$> seq k (length (cinematic ++ webtoon)%list)
    ∧ Forall (fun job =>
                ImageJob.type job = "cinematic" ∧ ImageJob.width job = 1280
                ∧ ImageJob.height job = 720
                ∧ ImageJob.neg job
                  = if String.eqb (ImageJob.model job) "sd35"
                    then CIN_NEG else "")
             cinematic
    ∧ Forall (fun job =>
                ImageJob.type job = "webtoon" ∧ ImageJob.width job = 768
                ∧ ImageJob.height job = 1024
                ∧ ImageJob.neg job
                  = if String.eqb (ImageJob.model job) "sd35"
                    then WEB_NEG else "")
             webtoon.
Proof.
  unfold build_image_jobs.
  destruct (catalog_jobs_shape "cinematic" "c" CIN_NEG draws CINEMATIC k
              1280 720 eq_refl) as (cin & -> & Hlen1 & Hlist1 & Hseed1 & Hall1).
  simpl.
  destruct (catalog_jobs_shape "webtoon" "w" WEB_NEG draws WEBTOON
              (k + length cin)%nat 768 1024 eq_refl)
    as (web & -> & Hlen2 & Hlist2 & Hseed2 & Hall2).
  simpl. exists cin, web. split.
  { do 2 f_equal. rewrite length_app. lia. }
  split; [done |]. split; [done |]. split; [done |]. split; [done |].
  split; [| done].
  by rewrite fmap_app, length_app, seq_app, fmap_app, Hseed1, Hseed2.
Qed.

(** The jobs of the two sample catalogs. *)
Example build_image_jobs_sample :
  (fun r => match r with
            | Ok (jobs, k) =>
                ((fun job => (ImageJob.filename job, ImageJob.neg job)) <$> jobs, k)
            | Raise _ => ([], 0%nat)
            end)
    (build_image_jobs sample_cinematic sample_webtoon (fun k => Z.of_nat k) 0)
  = ([ ("hague-c01-flux_dev", ""); ("hague-c02-sd35", CIN_NEG);
       ("city-c01-sd35", CIN_NEG); ("hague-w01-z_turbo", "") ], 4%nat).
Proof. reflexivity. Qed.

Lemma video_jobs_of_shape draws project specs i k :
  (fun job => (VideoJob.motion_prompt job, VideoJob.source_image job))
    <$> video_jobs_of draws project specs i k = specs
  ∧ VideoJob.seed <$> video_jobs_of draws project specs i k
    = draws <$> seq k (length specs)
  ∧ Forall (fun job => VideoJob.model job = "wan_i2v"
                       ∧ VideoJob.type job = "video")
           (video_jobs_of draws project specs i k).
Proof.
  revert i k. induction specs as [| [motion source] rest IH]; intros i k;
    simpl; [by repeat split; constructor |].
  destruct (IH (S i) (S k)) as (Hlist & Hseed & Hall).
  split; [f_equal; exact Hlist |]. split; [f_equal; exact Hseed |].
  by constructor.
Qed.

(** [build_video_jobs] returns one job per entry of the specs, in the
    order of the specs and with their motion prompts and source images,
    and with the next draws of the random generator as seeds, in job
    order: after the image jobs were built from the same generator, the
    video seeds are the draws that follow the image seeds.  Every video
    job has the model [wan_i2v], so the video stage sends it to [WRIGHT]
    when [WRIGHT] is in the online list and skips it otherwise, whatever
    else is online. *)
Theorem build_video_jobs_seeds (VIDEO_SPECS : catalog) (draws : nat → Z)
    (k : nat) (servers : list string) :
  ∃ jobs,
    build_video_jobs VIDEO_SPECS draws k = (jobs, (k + length jobs)%nat)
    ∧ length jobs = entries VIDEO_SPECS
    ∧ (fun job => (VideoJob.motion_prompt job, VideoJob.source_image job))
        <$> jobs = VIDEO_SPECS ≫= snd
    ∧ VideoJob.seed <$> jobs = draws <$> seq k (length jobs)
    ∧ Forall (fun job =>
                VideoJob.model job = "wan_i2v"
                ∧ VideoJob.type job = "video"
                ∧ route_video servers (VideoJob.model job)
                  = if decide (WRIGHT ∈ servers) then Some WRIGHT else None)
             jobs.
Proof.
  revert k. induction VIDEO_SPECS as [| [project specs] rest IH]; intros k.
  - exists []. simpl. rewrite Nat.add_0_r. by repeat split; constructor.
  - simpl.
    destruct (IH (k + length specs)%nat)
      as (more & -> & Hlen & Hlist & Hseed & Hall).
    destruct (video_jobs_of_shape draws project specs 1 k)
      as (Hlist1 & Hseed1 & Hall1).
    assert (length (video_jobs_of draws project specs 1 k) = length specs)
      as Hlen1.
    { by rewrite <- Hlist1 at 2; rewrite length_fmap. }
    eexists. split.
    { f_equal. rewrite length_app, Hlen1. lia. }
    split.
    { unfold entries in *. simpl. by rewrite !length_app, Hlen1, Hlen. }
    split.
    { by rewrite fmap_app, Hlist1, Hlist. }
    split.
    { by rewrite fmap_app, length_app, seq_app, fmap_app, Hseed1, Hseed, Hlen1. }
    apply Forall_app. split; [| done].
    eapply Forall_impl; [exact Hall1 |]. intros job [-> ->]. by repeat split.
Qed.

End JobsFacts.
